(** * vtkplotter.shapes: a shallow embedding of the shape factories

    The factories of [vtkplotter/shapes.py] configure filters of an external
    geometry library and wrap the resulting mesh in an [Actor].  The Python
    control flow of each factory is embedded as a function in a small
    state-and-exception monad; the state holds the object store, the
    process-wide registry [settings.collectable_actors] and the messages
    written by [printc].

    Conventions.
    - Python floats are idealised as real numbers ([R]).
    - Operations written in the source (len, indexing, tuple unpacking,
      attribute assignment, reading a local variable) raise as Python does.
    - A filter of the external library produces a mesh described
      symbolically by [PolyData].  A point handed to the library must have
      three coordinates ([vtk_point]); apart from that its calls are
      total. *)

From Stdlib Require Import List String Ascii Bool Arith ZArith Lia.
From Stdlib Require Import Reals Lra Sorted RNsatz.
Import ListNotations.

Set Warnings "-register-all".

Open Scope string_scope.
Open Scope list_scope.
Open Scope R_scope.

(** ** Python values *)

Inductive exn : Type :=
| RuntimeError
| TypeError
| ValueError
| IndexError
| UnboundLocalError
| AttributeError
| ZeroDivisionError
| OverflowError
| ImportError
| ConnectionError
| OSError.

Inductive result (A : Type) : Type :=
| Ok (a : A)
| Raise (e : exn).

Arguments Ok {A} a.
Arguments Raise {A} e.

(** The values a caller passes for a colour: [None], a number, a name, or a
    sequence of such values (an RGB triple, an RGBA tuple, a list of colours). *)
Inductive pyval : Type :=
| PNone
| PNum (x : R)
| PStr (s : string)
| PSeq (l : list pyval).

(** Modelled from the spec: [utils.isSequence] is defined in
    [vtkplotter/utils.py], which is not part of the sources at hand.  The spec
    speaks of branching on "scalar-vs-array" parameters; strings are scalars
    (colour names), lists, tuples and arrays are sequences. *)
Definition isSequence (v : pyval) : bool :=
  match v with
  | PSeq _ => true
  | _ => false
  end.

(** Python's [len]. *)
Definition py_len (v : pyval) : result nat :=
  match v with
  | PSeq l => Ok (List.length l)
  | PStr s => Ok (String.length s)
  | _ => Raise TypeError
  end.

Fixpoint chars (s : string) : list pyval :=
  match s with
  | EmptyString => []
  | String a s' => PStr (String a EmptyString) :: chars s'
  end.

(** Python's [v[i]] for a non-negative index. *)
Definition py_index (v : pyval) (i : nat) : result pyval :=
  match v with
  | PSeq l => match nth_error l i with
              | Some x => Ok x
              | None => Raise IndexError
              end
  | PStr s => match nth_error (chars s) i with
              | Some x => Ok x
              | None => Raise IndexError
              end
  | _ => Raise TypeError
  end.

(** Python's [a, b, c, d = v]. *)
Definition unpack4 (v : pyval) : result (pyval * pyval * pyval * pyval) :=
  match v with
  | PSeq [a; b; c; d] => Ok (a, b, c, d)
  | PSeq _ => Raise ValueError
  | PStr s => match chars s with
              | [a; b; c; d] => Ok (a, b, c, d)
              | _ => Raise ValueError
              end
  | _ => Raise TypeError
  end.

(** ** Meshes and actors *)

(** A point as the caller writes it: a sequence of coordinates. *)
Definition coords : Type := list R.

(** A point handed to the external library in one argument, as in
    [InsertNextPoint(pt)], [SetPoint(i, p)], [SetPoint1(p0)] or
    [SetCenter(center)], must have three coordinates; the call is refused
    otherwise. *)
Definition vtk_point (p : coords) : result unit :=
  if (List.length p =? 3)%nat then Ok tt else Raise TypeError.

(** One operation of a [vtkTransform]; angles are in degrees. *)
Inductive TransformOp : Type :=
| RotateX (deg : R)
| RotateY (deg : R)
| RotateZ (deg : R)
| Scale (sx sy sz : R)
| Translate (tx ty tz : R).

(** The output of a filter pipeline of the external library. *)
Inductive PolyData : Type :=
| pd_verts (points : list coords)
           (scalars : option (string * list (pyval * pyval * pyval * pyval)))
| pd_polyline (points : list coords)
| pd_segments (segs : list (coords * coords))
| pd_glyphs (centers : list coords) (colors : option (list (R * R * R)))
            (scales : option (list R)) (radius : option R)
| pd_line (p0 p1 : coords) (res : option R)
| pd_mesh (verts : list coords) (faces : list (list nat))
| pd_transform (ops : list TransformOp) (input : PolyData)
| pd_source (filter : string) (params : list R) (inputs : list PolyData).

(** What [np.array] yields on a point, on a list of points, on [None]. *)
Inductive ndarray : Type :=
| NdNone
| Nd1 (p : coords)
| Nd2 (l : list coords).

Record Actor : Type := mkActor {
  poly : PolyData;
  color : pyval;
  alpha : R;
  name : string;
  position : option coords;
  base : ndarray;
  top : ndarray;
  pointSize : option R;
  lineWidth : option R;
  scalarVisibility : bool;
  style : list string
}.

(** [Actor(poly, c, alpha)] of [vtkplotter.actors]: the wrapper pairing a mesh
    with its display attributes.  The wrapper is an opaque service: the
    colour is kept as the caller gave it, and what [getColor] makes of it,
    or whether it accepts it, is not part of the embedding.  No statement
    below rests on a colour being accepted. *)
Definition new_Actor (pd : PolyData) (c : pyval) (a : R) : Actor :=
  {| poly := pd; color := c; alpha := a; name := EmptyString;
     position := None; base := NdNone; top := NdNone;
     pointSize := None; lineWidth := None;
     scalarVisibility := false; style := [] |}.

Definition set_name (s : string) (a : Actor) : Actor :=
  {| poly := poly a; color := color a; alpha := alpha a; name := s;
     position := position a; base := base a; top := top a;
     pointSize := pointSize a; lineWidth := lineWidth a;
     scalarVisibility := scalarVisibility a; style := style a |}.

Definition set_position (p : coords) (a : Actor) : Actor :=
  {| poly := poly a; color := color a; alpha := alpha a; name := name a;
     position := Some p; base := base a; top := top a;
     pointSize := pointSize a; lineWidth := lineWidth a;
     scalarVisibility := scalarVisibility a; style := style a |}.

Definition set_base_top (b t : ndarray) (a : Actor) : Actor :=
  {| poly := poly a; color := color a; alpha := alpha a; name := name a;
     position := position a; base := b; top := t;
     pointSize := pointSize a; lineWidth := lineWidth a;
     scalarVisibility := scalarVisibility a; style := style a |}.

Definition set_pointSize (r : R) (a : Actor) : Actor :=
  {| poly := poly a; color := color a; alpha := alpha a; name := name a;
     position := position a; base := base a; top := top a;
     pointSize := Some r; lineWidth := lineWidth a;
     scalarVisibility := scalarVisibility a; style := style a |}.

Definition set_lw (w : R) (a : Actor) : Actor :=
  {| poly := poly a; color := color a; alpha := alpha a; name := name a;
     position := position a; base := base a; top := top a;
     pointSize := pointSize a; lineWidth := Some w;
     scalarVisibility := scalarVisibility a; style := style a |}.

Definition set_scalarVisibility (b : bool) (a : Actor) : Actor :=
  {| poly := poly a; color := color a; alpha := alpha a; name := name a;
     position := position a; base := base a; top := top a;
     pointSize := pointSize a; lineWidth := lineWidth a;
     scalarVisibility := b; style := style a |}.

Definition set_color (c : pyval) (a : Actor) : Actor :=
  {| poly := poly a; color := c; alpha := alpha a; name := name a;
     position := position a; base := base a; top := top a;
     pointSize := pointSize a; lineWidth := lineWidth a;
     scalarVisibility := scalarVisibility a; style := style a |}.

Definition set_alpha (x : R) (a : Actor) : Actor :=
  {| poly := poly a; color := color a; alpha := x; name := name a;
     position := position a; base := base a; top := top a;
     pointSize := pointSize a; lineWidth := lineWidth a;
     scalarVisibility := scalarVisibility a; style := style a |}.

(** Methods such as [flat()], [phong()], [wireframe()] only tag the actor. *)
Definition add_style (s : string) (a : Actor) : Actor :=
  {| poly := poly a; color := color a; alpha := alpha a; name := name a;
     position := position a; base := base a; top := top a;
     pointSize := pointSize a; lineWidth := lineWidth a;
     scalarVisibility := scalarVisibility a; style := style a ++ [s] |}.

(** ** The object store and the registry *)

(** Actors are Python objects: a factory returns a reference, and the registry
    holds references, so that an attribute set after the actor was collected is
    seen through the registry.  [None] is the absent reference. *)
Definition ref : Type := nat.

Record world : Type := mkWorld {
  heap : list Actor;
  pylists : list (list coords);
  collectable_actors : list (option ref);
  stdout : list string
}.

Definition M (A : Type) : Type := world -> result A * world.

Definition ret {A : Type} (a : A) : M A := fun w => (Ok a, w).

Definition raise {A : Type} (e : exn) : M A := fun w => (Raise e, w).

Definition bind {A B : Type} (m : M A) (k : A -> M B) : M B :=
  fun w => match m w with
           | (Ok a, w') => k a w'
           | (Raise e, w') => (Raise e, w')
           end.

Definition lift {A : Type} (r : result A) : M A := fun w => (r, w).

(** [try: m except: h]. *)
Definition try_except {A : Type} (m : M A) (h : exn -> M A) : M A :=
  fun w => match m w with
           | (Ok a, w') => (Ok a, w')
           | (Raise e, w') => h e w'
           end.

Declare Scope py_scope.
Delimit Scope py_scope with py.
Notation "x <- m ;; k" := (bind m (fun x => k))
  (at level 61, m at next level, right associativity) : py_scope.
Notation "m ;;; k" := (bind m (fun _ => k))
  (at level 61, right associativity) : py_scope.
Open Scope py_scope.

(** [printc(msg, ...)] *)
Definition printc (msg : string) : M unit :=
  fun w => (Ok tt, {| heap := heap w; pylists := pylists w;
                      collectable_actors := collectable_actors w;
                      stdout := stdout w ++ [msg] |}).

(** Allocation of a new actor object. *)
Definition alloc (a : Actor) : M ref :=
  fun w => (Ok (List.length (heap w)),
            {| heap := heap w ++ [a]; pylists := pylists w;
               collectable_actors := collectable_actors w;
               stdout := stdout w |}).

Fixpoint list_update {A : Type} (l : list A) (i : nat) (f : A -> A) : list A :=
  match l, i with
  | [], _ => []
  | x :: l', O => f x :: l'
  | x :: l', S i' => x :: list_update l' i' f
  end.

(** A method call or attribute assignment on the object behind a reference;
    on [None] it raises [AttributeError]. *)
Definition modify (r : option ref) (f : Actor -> Actor) : M unit :=
  match r with
  | None => raise AttributeError
  | Some i => fun w => (Ok tt, {| heap := list_update (heap w) i f; pylists := pylists w;
                                  collectable_actors := collectable_actors w;
                                  stdout := stdout w |})
  end.

(** [settings.collectable_actors.append(r)] *)
Definition collect (r : option ref) : M unit :=
  fun w => (Ok tt, {| heap := heap w; pylists := pylists w;
                      collectable_actors := collectable_actors w ++ [r];
                      stdout := stdout w |}).

(** [settings.collectable_actors.pop()] *)
Definition collect_pop : M unit :=
  fun w => match rev (collectable_actors w) with
           | [] => (Raise IndexError, w)
           | _ :: l => (Ok tt, {| heap := heap w; pylists := pylists w;
                                  collectable_actors := rev l;
                                  stdout := stdout w |})
           end.

Definition deref (w : world) (r : ref) : option Actor := nth_error (heap w) r.

Definition empty_world : world :=
  {| heap := []; pylists := []; collectable_actors := []; stdout := [] |}.

(** ** Points *)

Section PointCloud.

(** [getColor] of [vtkplotter.colors] resolves a colour name, number or RGB
    triple to its RGB components. *)
Variable getColor : pyval -> R * R * R.

(** What a caller passes for [alpha]: one number or one number per point. *)
Inductive alpha_arg : Type :=
| AlphaNum (a : R)
| AlphaSeq (l : list R).

Definition alpha_isSequence (a : alpha_arg) : bool :=
  match a with
  | AlphaSeq _ => true
  | AlphaNum _ => false
  end.

(** [np.stack((x, y, z), axis=1)]: the three arrays must have one shape. *)
Fixpoint zip3 (x y z : list R) : list coords :=
  match x, y, z with
  | a :: x', b :: y', c :: z' => [a; b; c] :: zip3 x' y' z'
  | _, _, _ => []
  end.

Definition np_stack3 (x y z : list R) : result (list coords) :=
  if (List.length x =? List.length y)%nat && (List.length y =? List.length z)%nat
  then Ok (zip3 x y z)
  else Raise ValueError.

Definition np_zeros (n : nat) : list R := repeat 0 n.

(** [np.c_[np.array(plist), np.zeros(len(plist))]] on rows of two coordinates. *)
Definition np_c_zeros (plist : list coords) : result (list coords) :=
  if forallb (fun p => (List.length p =? 2)%nat) plist
  then Ok (map (fun p => p ++ [0]) plist)
  else Raise ValueError.

(** The input format interpretation at the head of [Points]. *)
Definition interpret_plist (plist : list coords) : result (list coords) :=
  match plist with
  | [x; y; z] =>
      if (3 <? List.length x)%nat then np_stack3 x y z else Ok plist
  | [x; y] =>
      if (3 <? List.length x)%nat then np_stack3 x y (np_zeros (List.length x))
      else Ok plist
  | _ => Ok plist
  end.

Definition make3d (plist : list coords) : result (list coords) :=
  match plist with
  | [] => Raise IndexError
  | p0 :: _ => if (List.length p0 =? 2)%nat then np_c_zeros plist else Ok plist
  end.

Definition alphas_at (alphas : list R) (i : nat) : result R :=
  match nth_error alphas i with
  | Some a => Ok a
  | None => Raise IndexError
  end.

(** [ucols.InsertNextTuple4(rc, gc, bc, ac)]: the components of an unsigned
    char array are numbers. *)
Definition InsertNextTuple4 (t : pyval * pyval * pyval * pyval) : result unit :=
  match t with
  | (PNum _, PNum _, PNum _, PNum _) => Ok tt
  | _ => Raise TypeError
  end.

(** The loop marked FAST: [rc,gc,bc,ac = cols[i]] for [i in range(n)]. *)
Fixpoint fast_loop (cols : pyval) (i n : nat)
  : result (list (pyval * pyval * pyval * pyval)) :=
  match n with
  | O => Ok []
  | S n' =>
      match py_index cols i with
      | Raise e => Raise e
      | Ok ci =>
          match unpack4 ci with
          | Raise e => Raise e
          | Ok t =>
              match InsertNextTuple4 t with
              | Raise e => Raise e
              | Ok _ =>
                  match fast_loop cols (S i) n' with
                  | Raise e => Raise e
                  | Ok rest => Ok (t :: rest)
                  end
              end
          end
      end
  end.

(** The loop marked SLOW: [rc,gc,bc = getColor(cols[i])]. *)
Fixpoint slow_loop (cols : pyval) (alphas : list R) (i n : nat)
  : result (list (pyval * pyval * pyval * pyval)) :=
  match n with
  | O => Ok []
  | S n' =>
      match py_index cols i with
      | Raise e => Raise e
      | Ok ci =>
          let '(rc, gc, bc) := getColor ci in
          match alphas_at alphas i with
          | Raise e => Raise e
          | Ok a =>
              match slow_loop cols alphas (S i) n' with
              | Raise e => Raise e
              | Ok rest =>
                  Ok ((PNum (rc * 255), PNum (gc * 255), PNum (bc * 255),
                       PNum (a * 255)) :: rest)
              end
          end
      end
  end.

Definition _PointsColors (plist : list coords) (r : R) (cols : pyval)
  (alpha : alpha_arg) : M ref :=
  let n := List.length plist in
  lc <- lift (py_len cols) ;;
  (if negb (n =? lc)%nat
   then printc "mismatch in Points() colors" ;;; raise RuntimeError
   else ret tt) ;;;
  aa <- (match alpha with
         | AlphaSeq l =>
             if negb (List.length l =? n)%nat
             then printc "mismatch in Points() alphas" ;;; raise RuntimeError
             else ret (l, 1)
         | AlphaNum a => ret (repeat a n, a)
         end) ;;
  let '(alphas, alpha1) := aa in
  cu <- (if isSequence cols
         then
           c0 <- lift (py_index cols 0) ;;
           l0 <- lift (py_len c0) ;;
           if (l0 =? 4)%nat
           then u <- lift (fast_loop cols 0 n) ;; ret (PNone, u)
           else u <- lift (slow_loop cols alphas 0 n) ;; ret (PNone, u)
         else ret (cols, [])) ;;
  let '(c, ucols) := cu in
  let pd := pd_verts plist (Some ("pointsRGBA", ucols)) in
  a <- alloc (set_pointSize r (add_style "flat" (new_Actor pd c alpha1))) ;;
  modify (Some a) (set_scalarVisibility true) ;;;
  ret a.

(** The test that sends [Points] to the per-point colouring path. *)
Definition per_point_colors (c : pyval) (alpha : alpha_arg) : result bool :=
  if isSequence c
  then
    match py_len c with
    | Raise e => Raise e
    | Ok lc =>
        if (3 <? lc)%nat then Ok true
        else
          match py_index c 0 with
          | Raise e => Raise e
          | Ok c0 =>
              if isSequence c0
              then match py_len c0 with
                   | Raise e => Raise e
                   | Ok l0 => if (l0 =? 4)%nat then Ok true
                              else Ok (alpha_isSequence alpha)
                   end
              else Ok (alpha_isSequence alpha)
          end
    end
  else Ok (alpha_isSequence alpha).

(** The vertex cells built by the two insertion loops: one cell per point. *)
Definition vertex_points (plist : list coords) : result (list coords) :=
  match plist with
  | [] => Raise IndexError
  | p0 :: _ =>
      if (2 <? List.length p0)%nat
      then
        (fix loop (l : list coords) : result (list coords) :=
           match l with
           | [] => Ok []
           | pt :: l' =>
               match vtk_point pt with
               | Raise e => Raise e
               | Ok _ =>
                   match loop l' with
                   | Ok rest => Ok (pt :: rest)
                   | Raise e => Raise e
                   end
               end
           end) plist
      else
        (fix loop (l : list coords) : result (list coords) :=
           match l with
           | [] => Ok []
           | pt :: l' =>
               match pt with
               | x :: y :: _ =>
                   match loop l' with
                   | Ok rest => Ok ([x; y; 0] :: rest)
                   | Raise e => Raise e
                   end
               | _ => Raise IndexError
               end
           end) plist
  end.

Definition alpha_num (alpha : alpha_arg) : R :=
  match alpha with
  | AlphaNum a => a
  | AlphaSeq _ => 1
  end.

Definition Points (plist : list coords) (r : R) (c : pyval) (alpha : alpha_arg)
  : M (option ref) :=
  let n := List.length plist in
  if (n =? 0)%nat then ret None
  else
    plist <- lift (interpret_plist plist) ;;
    plist <- lift (make3d plist) ;;
    pp <- lift (per_point_colors c alpha) ;;
    actor <- (if pp : bool
              then _PointsColors plist r c alpha
              else
                let n := List.length plist in
                _ <- lift (vertex_points plist) ;;
                let pts := if (n =? 1)%nat then [[0; 0; 0]] else plist in
                let pd := pd_verts pts None in
                a <- alloc (new_Actor pd c (alpha_num alpha)) ;;
                modify (Some a) (set_pointSize r) ;;;
                (if (n =? 1)%nat
                 then modify (Some a) (set_position (hd [] plist))
                 else ret tt) ;;;
                ret a) ;;
    collect (Some actor) ;;;
    modify (Some actor) (set_name "Points") ;;;
    ret (Some actor).

End PointCloud.

(** ** Array arithmetic *)

Definition rbind {A B : Type} (r : result A) (k : A -> result B) : result B :=
  match r with
  | Ok a => k a
  | Raise e => Raise e
  end.

Notation "x <~ r ;; k" := (rbind r (fun x => k))
  (at level 61, r at next level, right associativity) : py_scope.

Fixpoint map2 (f : R -> R -> R) (a b : coords) : coords :=
  match a, b with
  | x :: a', y :: b' => f x y :: map2 f a' b'
  | _, _ => []
  end.

(** An elementwise operation of two arrays, with the broadcasting of a
    one-element array; other shapes do not match. *)
Definition np_binop (f : R -> R -> R) (a b : coords) : result coords :=
  if (List.length a =? List.length b)%nat then Ok (map2 f a b)
  else match a, b with
       | [x], _ => Ok (map (f x) b)
       | _, [y] => Ok (map (fun x => f x y) a)
       | _, _ => Raise ValueError
       end.

Definition np_sub : coords -> coords -> result coords := np_binop Rminus.
Definition np_add : coords -> coords -> result coords := np_binop Rplus.

Definition np_scale (t : R) (v : coords) : coords := map (Rmult t) v.

(** [np.linalg.norm] *)
Definition norm (v : coords) : R :=
  sqrt (fold_right (fun x acc => x * x + acc) 0 v).

(** Truth value of a number. *)
Definition truthy (x : R) : bool := if Req_dec_T x 0 then false else true.

Definition truthy_opt (x : option R) : bool :=
  match x with
  | None => false
  | Some v => truthy v
  end.

(** Division; a zero divisor is the division fault. *)
Definition checked_div (x d : R) : result R :=
  if Req_dec_T d 0 then Raise ZeroDivisionError else Ok (x / d).

Definition np_div (v : coords) (d : R) : result coords :=
  if Req_dec_T d 0 then Raise ZeroDivisionError
  else Ok (map (fun x => x / d) v).

Definition item (v : coords) (i : nat) : result R :=
  match nth_error v i with
  | Some x => Ok x
  | None => Raise IndexError
  end.

(** [int(x)]: truncation toward zero. *)
Definition py_int (x : R) : Z :=
  if Rle_dec 0 x then Int_part x else (- Int_part (- x))%Z.

Definition rad2deg (x : R) : R := x * (180 / PI).
Definition deg2rad (x : R) : R := x * (PI / 180).

(** [np.arctan2(y, x)]: the angle of the point (x, y), in (-pi, pi]. *)
Definition arctan2 (y x : R) : R :=
  if Rlt_dec 0 x then atan (y / x)
  else if Rlt_dec x 0
       then (if Rle_dec 0 y then atan (y / x) + PI else atan (y / x) - PI)
       else if Rlt_dec 0 y then PI / 2
            else if Rlt_dec y 0 then - (PI / 2)
                 else 0.

(** ** vtkTransform *)

Definition vec3 : Type := (R * R * R)%type.

Definition apply_op (op : TransformOp) (p : vec3) : vec3 :=
  let '(x, y, z) := p in
  match op with
  | RotateX d =>
      let a := deg2rad d in (x, y * cos a - z * sin a, y * sin a + z * cos a)
  | RotateY d =>
      let a := deg2rad d in (x * cos a + z * sin a, y, - x * sin a + z * cos a)
  | RotateZ d =>
      let a := deg2rad d in (x * cos a - y * sin a, x * sin a + y * cos a, z)
  | Scale sx sy sz => (sx * x, sy * y, sz * z)
  | Translate tx ty tz => (x + tx, y + ty, z + tz)
  end.

(** A transform in its default (pre-multiply) mode: the operation called last
    is applied to the point first. *)
Definition apply_transform (ops : list TransformOp) (p : vec3) : vec3 :=
  fold_right apply_op p ops.

(** ** Line and DashedLine *)

Inductive line_arg : Type :=
| LPoint (p : coords)
| LPoints (l : list coords).

Definition line_len (a : line_arg) : nat :=
  match a with
  | LPoint p => List.length p
  | LPoints l => List.length l
  end.

Definition np_array (a : line_arg) : ndarray :=
  match a with
  | LPoint p => Nd1 p
  | LPoints l => Nd2 l
  end.

Definition np_array_opt (a : option coords) : ndarray :=
  match a with
  | None => NdNone
  | Some p => Nd1 p
  end.

(** [np.stack((p0, p1), axis=1)] *)
Fixpoint zip2 (x y : list R) : list coords :=
  match x, y with
  | a :: x', b :: y' => [a; b] :: zip2 x' y'
  | _, _ => []
  end.

(** The detection of "p0=xlist, p1=ylist" shared by [Line] and [DashedLine]. *)
Definition detect_xy (p0 : line_arg) (p1 : option coords)
  : result (line_arg * option coords) :=
  if (3 <? line_len p0)%nat
  then match p0 with
       | LPoints _ => Ok (p0, p1)
       | LPoint x =>
           match p1 with
           | None => Raise TypeError
           | Some y =>
               _ <~ item y 0 ;;
               if (List.length x =? List.length y)%nat
               then Ok (LPoints (zip2 x y), None)
               else Ok (p0, p1)
           end
       end
  else Ok (p0, p1).

(** [isSequence(p0[0])] *)
Definition first_isSequence (p0 : line_arg) : result bool :=
  match p0 with
  | LPoints [] => Raise IndexError
  | LPoints (_ :: _) => Ok true
  | LPoint [] => Raise IndexError
  | LPoint (_ :: _) => Ok false
  end.

Fixpoint insert_2d (l : list coords) : result (list coords) :=
  match l with
  | [] => Ok []
  | p :: l' =>
      x <~ item p 0 ;;
      y <~ item p 1 ;;
      rest <~ insert_2d l' ;;
      Ok ([x; y; 0] :: rest)
  end.

Definition Line (p0 : line_arg) (p1 : option coords) (c : pyval)
  (alpha lw : R) (dotted : bool) (res : option R) : M ref :=
  a <- lift (detect_xy p0 p1) ;;
  let '(p0, p1) := a in
  sq <- lift (first_isSequence p0) ;;
  poly <- (match p0 with
           | LPoints l =>
               if (List.length (hd [] l) =? 2)%nat
               then pts <- lift (insert_2d l) ;; ret (pd_polyline pts)
               else ret (pd_polyline l)
           | LPoint p =>
               match p1 with
               | None => raise TypeError
               | Some q =>
                   lift (vtk_point p) ;;;
                   lift (vtk_point q) ;;;
                   ret (pd_line p q (if truthy_opt res then res else None))
               end
           end) ;;
  actor <- alloc (set_lw lw (new_Actor poly c alpha)) ;;
  (if dotted then modify (Some actor) (add_style "dotted") else ret tt) ;;;
  modify (Some actor) (set_base_top (np_array p0) (np_array_opt p1)) ;;;
  collect (Some actor) ;;;
  modify (Some actor) (set_name "Line") ;;;
  ret actor.

(** [range(1, n1+2)] *)
Definition dash_range (n1 : Z) : list Z :=
  map Z.of_nat (seq 1 (Z.to_nat (n1 + 1))).

(** One turn of the inner loop of [DashedLine]: the sub-segment [i] of the
    segment from [p0] to [p1], emitted when [i] is odd. *)
Definition dash (p0 p1 v : coords) (n1 i : Z) : result (list (coords * coords)) :=
  if Rgt_dec ((IZR i - 1) / IZR n1) 1 then Ok []
  else if Z.odd i
       then
         q0 <~ np_add p0 (np_scale ((IZR i - 1) / IZR n1) v) ;;
         q1 <~ (if Rgt_dec (IZR i / IZR n1) 1 then Ok p1
                else np_add p0 (np_scale (IZR i / IZR n1) v)) ;;
         _ <~ vtk_point q0 ;;
         _ <~ vtk_point q1 ;;
         Ok [(q0, q1)]
       else Ok [].

Fixpoint dash_loop (p0 p1 v : coords) (n1 : Z) (l : list Z)
  : result (list (coords * coords)) :=
  match l with
  | [] => Ok []
  | i :: l' =>
      d <~ dash p0 p1 v n1 i ;;
      rest <~ dash_loop p0 p1 v n1 l' ;;
      Ok (d ++ rest)
  end.

(** [int(np.linalg.norm(v)/spacing)]: over a spacing 0 the quotient of the
    arrays is not a number or infinite, and [int] refuses it. *)
Definition int_quotient (x d : R) : result Z :=
  if Req_dec_T d 0
  then (if Req_dec_T x 0 then Raise ValueError else Raise OverflowError)
  else Ok (py_int (x / d)).

(** The local variables of [DashedLine] that the outer loop assigns. *)
Record dashed_locals : Type := {
  dl_segs : list (coords * coords);   (* inputs added to [polylns] *)
  dl_poly : bool;                     (* is [poly] bound *)
  dl_p0 : line_arg;
  dl_p1 : option coords
}.

Fixpoint dashed_outer (listp : list coords) (spacing : R) (st : dashed_locals)
  : result dashed_locals :=
  match listp with
  | p0 :: ((p1 :: _) as tl) =>
      v <~ np_sub p1 p0 ;;
      n1 <~ int_quotient (norm v) spacing ;;
      if (n1 =? 0)%Z
      then dashed_outer tl spacing
             {| dl_segs := dl_segs st; dl_poly := dl_poly st;
                dl_p0 := LPoint p0; dl_p1 := Some p1 |}
      else
        d <~ dash_loop p0 p1 v n1 (dash_range n1) ;;
        dashed_outer tl spacing
          {| dl_segs := dl_segs st ++ d; dl_poly := true;
             dl_p0 := LPoint p0; dl_p1 := Some p1 |}
  | _ => Ok st
  end.

Definition DashedLine (p0 : line_arg) (p1 : option coords) (spacing : option R)
  (c : pyval) (alpha lw : R) : M ref :=
  a <- lift (detect_xy p0 p1) ;;
  let '(p0, p1) := a in
  sq <- lift (first_isSequence p0) ;;
  listp <- (match p0 with
            | LPoints l => ret l
            | LPoint p => match p1 with
                          | None => raise TypeError
                          | Some q => ret [p; q]
                          end
            end) ;;
  spacing <- (if truthy_opt spacing
              then ret (match spacing with Some x => x | None => 0 end)
              else
                d <- lift (np_sub (last listp []) (hd [] listp)) ;;
                ret (norm d / 50)) ;;
  st <- lift (dashed_outer listp spacing
                {| dl_segs := []; dl_poly := false; dl_p0 := p0; dl_p1 := p1 |}) ;;
  (if dl_poly st then ret tt else raise UnboundLocalError) ;;;
  actor <- alloc (set_lw lw (new_Actor (pd_segments (dl_segs st)) c alpha)) ;;
  modify (Some actor)
    (set_base_top (np_array (dl_p0 st)) (np_array_opt (dl_p1 st))) ;;;
  collect (Some actor) ;;;
  modify (Some actor) (set_name "DashedLine") ;;;
  ret actor.

(** ** Arrow *)

Definition Arrow (startPoint endPoint : coords) (s : option R) (c : pyval)
  (alpha res : R) : M ref :=
  axis <- lift (np_sub endPoint startPoint) ;;
  let length := norm axis in
  axis <- (if truthy length then lift (np_div axis length) else ret axis) ;;
  a2 <- lift (item axis 2) ;;
  let theta := acos a2 in
  a1 <- lift (item axis 1) ;;
  a0 <- lift (item axis 0) ;;
  let phi := arctan2 a1 a0 in
  let arr := pd_source "vtkArrowSource"
               (res :: (if truthy_opt s
                        then [0.02; 0.02 / 1.75; 0.02 * 15] else [])) [] in
  let sc := match s with
            | Some s' => if truthy s'
                         then Scale length (800.0 * s') (800.0 * s')
                         else Scale length length length
            | None => Scale length length length
            end in
  let t := [RotateZ (rad2deg phi); RotateY (rad2deg theta); RotateY (-90); sc] in
  actor <- alloc (add_style "phong" (new_Actor (pd_transform t arr) c alpha)) ;;
  modify (Some actor) (set_position startPoint) ;;;
  modify (Some actor) (add_style "DragableOff") ;;;
  modify (Some actor) (set_base_top (Nd1 startPoint) (Nd1 endPoint)) ;;;
  collect (Some actor) ;;;
  modify (Some actor) (set_name "Arrow") ;;;
  ret actor.

(** ** KSpline *)

(** *** vtkKochanekSpline

    The spline evaluator belongs to the external library.  It is modelled by
    the Kochanek-Bartels construction the documentation of [KSpline] refers
    to: a cubic Hermite segment between consecutive knots, with incoming and
    outgoing tangents weighted by tension, continuity and bias; a closed
    spline gets one more knot, one parameter unit after the last, that
    carries the value of the first. *)

Record KochanekSpline : Type := {
  DefaultBias : R;
  DefaultTension : R;
  DefaultContinuity : R;
  Closed : bool;
  spline_points : list (R * R)
}.

Definition AddPoint (t x : R) (s : KochanekSpline) : KochanekSpline :=
  {| DefaultBias := DefaultBias s; DefaultTension := DefaultTension s;
     DefaultContinuity := DefaultContinuity s; Closed := Closed s;
     spline_points := spline_points s ++ [(t, x)] |}.

Record knot : Type := {
  kx : R;     (* parameter *)
  ky : R;     (* value *)
  kds : R;    (* incoming tangent *)
  kdd : R     (* outgoing tangent *)
}.

Section Kochanek.

Variables (bias tension continuity : R).

(** Source and destination derivatives at a knot with chords [cs], [cd] and
    parameter spacings [n0], [n1]. *)
Definition kb_ds (cs cd n0 n1 : R) : R :=
  (cs * ((1 - tension) * (1 - continuity) * (1 + bias)) / 2
   + cd * ((1 - tension) * (1 + continuity) * (1 - bias)) / 2)
  * (2 * n0 / (n0 + n1)).

Definition kb_dd (cs cd n0 n1 : R) : R :=
  (cs * ((1 - tension) * (1 + continuity) * (1 + bias)) / 2
   + cd * ((1 - tension) * (1 - continuity) * (1 - bias)) / 2)
  * (2 * n1 / (n0 + n1)).

Definition interior_knot (prev cur next : R * R) : knot :=
  let cs := snd cur - snd prev in
  let cd := snd next - snd cur in
  let n0 := fst cur - fst prev in
  let n1 := fst next - fst cur in
  {| kx := fst cur; ky := snd cur;
     kds := kb_ds cs cd n0 n1; kdd := kb_dd cs cd n0 n1 |}.

Fixpoint interior_knots (prev : R * R) (l : list (R * R)) : list knot :=
  match l with
  | cur :: ((next :: _) as tl) =>
      interior_knot prev cur next :: interior_knots cur tl
  | _ => []
  end.

(** The knots of the points [p0 :: rest]; [closed] tells whether the last
    point is the closing copy of the first. *)
Definition knots (closed : bool) (p0 : R * R) (rest : list (R * R)) : list knot :=
  let pN := last rest p0 in
  let pN1 := last (removelast rest) p0 in
  let p1 := hd p0 rest in
  let cs := snd pN - snd pN1 in
  let cd := snd p1 - snd p0 in
  let n0 := fst pN - fst pN1 in
  let n1 := fst p1 - fst p0 in
  let ds := if closed then kb_ds cs cd n0 n1 else 0 in
  let dd := if closed then kb_dd cs cd n0 n1 else 0 in
  {| kx := fst p0; ky := snd p0; kds := ds; kdd := dd |}
  :: interior_knots p0 rest
  ++ [{| kx := fst pN; ky := snd pN; kds := ds; kdd := dd |}].

End Kochanek.

(** The cubic between two knots at the offset [u] within the interval. *)
Definition cubic (a b : knot) (u : R) : R :=
  let c0 := ky a in
  let c1 := kdd a in
  let c2 := -3 * ky a + 3 * ky b - 2 * kdd a - kds b in
  let c3 := 2 * ky a - 2 * ky b + kdd a + kds b in
  u * (u * (u * c3 + c2) + c1) + c0.

(** The interval that holds [t] is the first whose right end is not below
    [t]; the last interval takes what remains. *)
Fixpoint find_eval (ks : list knot) (t : R) : R :=
  match ks with
  | a :: ((b :: rest) as tl) =>
      match rest with
      | [] => cubic a b ((t - kx a) / (kx b - kx a))
      | _ :: _ =>
          if Rle_dec t (kx b)
          then cubic a b ((t - kx a) / (kx b - kx a))
          else find_eval tl t
      end
  | _ => 0
  end.

Definition clamp (lo hi t : R) : R :=
  let t := if Rlt_dec t lo then lo else t in
  if Rgt_dec t hi then hi else t.

Definition Evaluate (s : KochanekSpline) (t : R) : R :=
  match spline_points s with
  | p0 :: ((p1 :: _) as rest) =>
      let rest' :=
        if Closed s
        then rest ++ [(fst (last rest p0) + 1, snd p0)]
        else rest in
      match rest' with
      | [q] =>
          (* two points: a straight line *)
          let t := clamp (fst p0) (fst q) t in
          let u := (t - fst p0) / (fst q - fst p0) in
          u * ((snd q - snd p0) / (fst q - fst p0)) + snd p0
      | _ =>
          let ks := knots (DefaultBias s) (DefaultTension s)
                      (DefaultContinuity s) (Closed s) p0 rest' in
          find_eval ks (clamp (fst p0) (fst (last rest' p0)) t)
      end
  | _ => 0
  end.

(** [np.linspace(start, stop, num)] with the end point included. *)
Definition np_linspace (start stop : R) (num : nat) : list R :=
  match num with
  | O => []
  | S O => [start]
  | S (S _) =>
      map (fun i => start + INR i * ((stop - start) / INR (num - 1)))
          (seq 0 (num - 1)) ++ [stop]
  end.

(** The first loop of [KSpline]: the points enter the three splines at the
    parameters 0, 1, 2, ... *)
Fixpoint add_points (i : nat) (points : list coords)
  (xs ys zs : KochanekSpline)
  : result (KochanekSpline * KochanekSpline * KochanekSpline) :=
  match points with
  | [] => Ok (xs, ys, zs)
  | p :: points' =>
      p0 <~ item p 0 ;;
      p1 <~ item p 1 ;;
      zs' <~ (if (2 <? List.length p)%nat
              then p2 <~ item p 2 ;; Ok (AddPoint (INR i) p2 zs)
              else Ok zs) ;;
      add_points (S i) points' (AddPoint (INR i) p0 xs) (AddPoint (INR i) p1 ys) zs'
  end.

(** The second loop: [p] is the variable the first loop left behind. *)
Definition sample (xs ys zs : KochanekSpline) (p : option coords) (pos : R)
  : result coords :=
  let x := Evaluate xs pos in
  let y := Evaluate ys pos in
  match p with
  | None => Raise UnboundLocalError
  | Some p =>
      Ok [x; y; if (2 <? List.length p)%nat then Evaluate zs pos else 0]
  end.

Fixpoint sample_loop (xs ys zs : KochanekSpline) (p : option coords)
  (l : list R) : result (list coords) :=
  match l with
  | [] => Ok []
  | pos :: l' =>
      q <~ sample xs ys zs p pos ;;
      rest <~ sample_loop xs ys zs p l' ;;
      Ok (q :: rest)
  end.

Definition new_spline (bias tension continuity : R) (closed : bool)
  : KochanekSpline :=
  {| DefaultBias := bias; DefaultTension := tension;
     DefaultContinuity := continuity; Closed := closed;
     spline_points := [] |}.

Definition last_opt {A : Type} (l : list A) : option A :=
  match l with
  | [] => None
  | x :: l' => Some (last l' x)
  end.

Definition KSpline (points : list coords) (continuity tension bias : R)
  (closed : bool) (res : nat) : M ref :=
  let res := if (res =? 0)%nat then (List.length points * 20)%nat else res in
  let s0 := new_spline bias tension continuity closed in
  sp <- lift (add_points 0 points s0 s0 s0) ;;
  let '(xspline, yspline, zspline) := sp in
  ln <- lift (sample_loop xspline yspline zspline (last_opt points)
                (np_linspace 0 (INR (List.length points)) res)) ;;
  actor <- Line (LPoints ln) None (PStr "gray") 1 1 false None ;;
  match points with
  | [] => raise IndexError
  | p0 :: rest =>
      modify (Some actor) (set_base_top (Nd1 p0) (Nd1 (last rest p0))) ;;;
      collect (Some actor) ;;;
      modify (Some actor) (set_name "KSpline") ;;;
      ret actor
  end.

(** ** Spheres *)

Inductive radius_arg : Type :=
| RNum (r : R)
| RSeq (l : list R).

Definition radius_isSequence (r : radius_arg) : bool :=
  match r with
  | RSeq _ => true
  | RNum _ => false
  end.

Section ManySpheres.

Variable getColor : pyval -> R * R * R.

(** The colour an [Actor] built without [c] gets. *)
Variable Actor_default_c : pyval.

Definition rgb255 (t : R * R * R) : R * R * R :=
  let '(cx, cy, cz) := t in (cx * 255, cy * 255, cz * 255).

Fixpoint sphere_colors (c : pyval) (i : nat) (centers : list coords)
  : result (list (R * R * R)) :=
  match centers with
  | [] => Ok []
  | p :: centers' =>
      _ <~ vtk_point p ;;
      ci <~ py_index c i ;;
      rest <~ sphere_colors c (S i) centers' ;;
      Ok (rgb255 (getColor ci) :: rest)
  end.

Fixpoint sphere_radii (r : list R) (i : nat) (centers : list coords)
  : result (list R) :=
  match centers with
  | [] => Ok []
  | p :: centers' =>
      _ <~ vtk_point p ;;
      ri <~ item r i ;;
      rest <~ sphere_radii r (S i) centers' ;;
      Ok (ri :: rest)
  end.

(** [for i, p in enumerate(centers): vpts.SetPoint(i, p)] *)
Fixpoint sphere_points (centers : list coords) : result unit :=
  match centers with
  | [] => Ok tt
  | p :: centers' =>
      _ <~ vtk_point p ;;
      sphere_points centers'
  end.

Definition rgb_val (t : R * R * R) : pyval :=
  let '(x, y, z) := t in PSeq [PNum x; PNum y; PNum z].

Definition Spheres (centers : list coords) (r : radius_arg) (c : pyval)
  (alpha res : R) : M ref :=
  let cisseq := isSequence c in
  (if cisseq
   then
     lc <- lift (py_len c) ;;
     (if (lc <? List.length centers)%nat
      then printc "Mismatch in Spheres() colors" ;;; raise RuntimeError
      else ret tt) ;;;
     (if negb (List.length centers =? lc)%nat
      then printc "Warning: mismatch in Spheres() colors"
      else ret tt)
   else ret tt) ;;;
  let risseq := radius_isSequence r in
  (match r with
   | RSeq lr =>
       (if (List.length lr <? List.length centers)%nat
        then printc "Mismatch in Spheres() radius" ;;; raise RuntimeError
        else ret tt) ;;;
       (if negb (List.length centers =? List.length lr)%nat
        then printc "Warning: mismatch in Spheres() radius"
        else ret tt)
   | RNum _ => ret tt
   end) ;;;
  (if cisseq && risseq
   then printc "Limitation: c and r cannot be both sequences." ;;;
        raise RuntimeError
   else ret tt) ;;;
  let radius := match r with RNum x => Some x | RSeq _ => None end in
  pd <- (if cisseq
         then
           cols <- lift (sphere_colors c 0 centers) ;;
           ret (pd_glyphs centers (Some cols) None radius)
         else
           match r with
           | RSeq lr =>
               rads <- lift (sphere_radii lr 0 centers) ;;
               ret (pd_glyphs centers None (Some rads) radius)
           | RNum _ =>
               lift (sphere_points centers) ;;;
               ret (pd_glyphs centers None None radius)
           end) ;;
  actor <- alloc (add_style "phong" (new_Actor pd Actor_default_c alpha)) ;;
  (if cisseq
   then modify (Some actor) (set_scalarVisibility true)
   else
     modify (Some actor) (set_scalarVisibility false) ;;;
     modify (Some actor) (set_color (rgb_val (getColor c)))) ;;;
  collect (Some actor) ;;;
  modify (Some actor) (set_name "Spheres") ;;;
  ret actor.

End ManySpheres.

(** ** Tensors *)

(** Python's [sub in s] on strings. *)
Fixpoint contains (sub s : string) : bool :=
  String.prefix sub s
  || match s with
     | EmptyString => false
     | String _ s' => contains sub s'
     end.

Inductive tensor_source : Type :=
| SourceActor (r : ref)
| SourceName (s : string).

Definition b2r (b : bool) : R := if b then 1 else 0.

Definition Tensors (domain : PolyData) (source : tensor_source)
  (useEigenValues isSymmetric threeAxes : bool) (scale : R)
  (maxScale length : option R) (c : pyval) (alpha : R) : M ref :=
  src <- (match source with
          | SourceActor r =>
              fun w => match deref w r with
                       | Some a => (Ok (Some (poly a)), w)
                       | None => (Raise AttributeError, w)
                       end
          | SourceName source =>
              ret (if contains "ellip" source
                   then Some (pd_source "vtkSphereSource" [24; 12] [])
                   else if contains "cyl" source
                        then Some (pd_source "vtkCylinderSource" [48] [])
                        else if String.eqb source "cube"
                             then Some (pd_source "vtkCubeSource" [] [])
                             else None)
          end) ;;
  (* src.Update() reads [src], which no branch may have bound *)
  src <- (match src with
          | Some x => ret x
          | None => raise UnboundLocalError
          end) ;;
  (* src.GetOutput(): the polydata of an actor is no filter *)
  (match source with
   | SourceActor _ => raise AttributeError
   | SourceName _ => ret tt
   end) ;;;
  let maxScale' := match maxScale with
                   | None => scale * 10
                   | Some m => m
                   end in
  let tg := pd_source "vtkTensorGlyph"
              ([b2r isSymmetric; b2r useEigenValues; b2r threeAxes; scale;
                maxScale'] ++ match length with Some l => [l] | None => [] end)
              [domain; src] in
  let tgn := pd_source "vtkPolyDataNormals" [] [tg] in
  actor <- alloc (new_Actor tgn c alpha) ;;
  modify (Some actor) (set_name "Tensors") ;;;
  ret actor.

(** ** ParametricShape *)

Inductive shape_name : Type :=
| NameInt (i : Z)
| NameStr (s : string).

Definition shapes : list string :=
  ["Boy"; "ConicSpiral"; "CrossCap"; "Dini"; "Enneper";
   "Figure8Klein"; "Klein"; "Mobius"; "RandomHills"; "Roman";
   "SuperEllipsoid"; "BohemianDome"; "Bour"; "CatalanMinimal";
   "Henneberg"; "Kuen"; "PluckerConoid"; "Pseudosphere"].

(** The chain of comparisons [if name == 'Boy': ... elif ...]: the parametric
    function and the parameters set on it, or nothing in the final [else]. *)
Definition parametric_function (name : string) : option PolyData :=
  if String.eqb name "Boy" then Some (pd_source "vtkParametricBoy" [] [])
  else if String.eqb name "ConicSpiral"
  then Some (pd_source "vtkParametricConicSpiral" [] [])
  else if String.eqb name "CrossCap"
  then Some (pd_source "vtkParametricCrossCap" [] [])
  else if String.eqb name "Dini" then Some (pd_source "vtkParametricDini" [] [])
  else if String.eqb name "Enneper"
  then Some (pd_source "vtkParametricEnneper" [] [])
  else if String.eqb name "Figure8Klein"
  then Some (pd_source "vtkParametricFigure8Klein" [] [])
  else if String.eqb name "Klein" then Some (pd_source "vtkParametricKlein" [] [])
  else if String.eqb name "Mobius"
  then Some (pd_source "vtkParametricMobius" [2.0; -0.5; 0.5] [])
  else if String.eqb name "RandomHills"
  then Some (pd_source "vtkParametricRandomHills" [1; 25] [])
  else if String.eqb name "Roman" then Some (pd_source "vtkParametricRoman" [] [])
  else if String.eqb name "SuperEllipsoid"
  then Some (pd_source "vtkParametricSuperEllipsoid" [0.5; 0.4] [])
  else if String.eqb name "BohemianDome"
  then Some (pd_source "vtkParametricBohemianDome" [5.0; 1.0; 2.0] [])
  else if String.eqb name "Bour" then Some (pd_source "vtkParametricBour" [] [])
  else if String.eqb name "CatalanMinimal"
  then Some (pd_source "vtkParametricCatalanMinimal" [] [])
  else if String.eqb name "Henneberg"
  then Some (pd_source "vtkParametricHenneberg" [] [])
  else if String.eqb name "Kuen" then Some (pd_source "vtkParametricKuen" [0.001] [])
  else if String.eqb name "PluckerConoid"
  then Some (pd_source "vtkParametricPluckerConoid" [] [])
  else if String.eqb name "Pseudosphere"
  then Some (pd_source "vtkParametricPseudosphere" [] [])
  else None.

Definition ParametricShape (name : shape_name) (c : pyval) (alpha res : R)
  : M (option ref) :=
  let name := match name with
              | NameInt i =>
                  nth (Z.to_nat (i mod Z.of_nat (List.length shapes))) shapes EmptyString
              | NameStr s => s
              end in
  match parametric_function name with
  | None =>
      printc "Error in ParametricShape: unknown name" ;;;
      printc "Available shape names:" ;;;
      ret None
  | Some ps =>
      let pfs := pd_source "vtkParametricFunctionSource" [res; res; res] [ps] in
      actor <- alloc (new_Actor pfs c alpha) ;;
      (if negb (String.eqb name "Kuen")
       then modify (Some actor) (add_style "normalize")
       else ret tt) ;;;
      collect (Some actor) ;;;
      modify (Some actor) (set_name name) ;;;
      ret (Some actor)
  end.

(** ** Arc *)

Definition Arc (center point1 : coords) (point2 normal : option coords)
  (angle : option R) (invert : bool) (c : pyval) (alpha res : R)
  : M (option ref) :=
  ar <- lift
          (match point2 with
           | Some p2 =>
               _ <~ vtk_point point1 ;;
               _ <~ vtk_point p2 ;;
               _ <~ vtk_point center ;;
               Ok (Some (pd_source "vtkArcSource"
                           (point1 ++ p2 ++ center ++ [b2r invert; res]) []))
           | None =>
               match normal, angle with
               | Some n, Some a =>
                   _ <~ vtk_point point1 ;;
                   _ <~ vtk_point n ;;
                   Ok (Some (pd_source "vtkArcSource"
                               (a :: point1 ++ n ++ [b2r invert; res]) []))
               | _, _ => Ok None
               end
           end) ;;
  match ar with
  | None => printc "Error in Arc(): incorrect input." ;;; ret None
  | Some pd =>
      actor <- alloc (set_lw 2 (add_style "flat" (new_Actor pd c alpha))) ;;
      collect (Some actor) ;;;
      modify (Some actor) (set_name "Arc") ;;;
      ret (Some actor)
  end.

(** ** Latex *)

(** What the world outside answers to a call of [Latex]: the outcome of
    fetching the image from the web site, of rendering it with matplotlib, of
    loading the image file into a [Picture] (of [vtkplotter.actors]) and of
    removing the file. *)
Record LatexEnv : Type := {
  requests_get : result unit;
  plt_savefig : result unit;
  Picture : string -> result Actor;
  os_unlink : result unit
}.

Definition build_img_web (env : LatexEnv) : M unit :=
  try_except (lift (requests_get env))
    (fun e => match e with
              | ConnectionError =>
                  printc "Latex error. Web site unavailable?" ;;; ret tt
              | _ => raise e
              end).

Definition build_img_plt (env : LatexEnv) : M unit := lift (plt_savefig env).

Definition Latex (env : LatexEnv) (formula : string) (pos : coords)
  (c : pyval) (s : R) (bg : pyval) (alpha res : R) (usetex fromweb : bool)
  : M (option ref) :=
  vactor <-
    try_except
      ((if fromweb then build_img_web env else build_img_plt env) ;;;
       pic <- lift (Picture env "_lateximg.png") ;;
       vactor <- alloc pic ;;
       modify (Some vactor) (set_alpha alpha) ;;;
       modify (Some vactor) (add_style "SetOrigin") ;;;
       modify (Some vactor) (add_style "SetScale") ;;;
       modify (Some vactor) (set_position pos) ;;;
       try_except (lift (os_unlink env)) (fun _ => ret tt) ;;;
       ret (Some vactor))
      (fun _ =>
         printc "Error in Latex()" ;;;
         printc " latex or dvipng not installed?" ;;;
         printc " Try: usetex=False" ;;;
         printc " Try: sudo apt install dvipng" ;;;
         ret None) ;;
  collect vactor ;;;
  modify vactor (set_name "Latex") ;;;
  ret vactor.

(** ** Ribbon and FlatArrow *)

Definition Ribbon (line1 line2 : list coords) (c : pyval) (alpha : R)
  (res : R * R) : M ref :=
  let merged := pd_source "vtkAppendPolyData" []
                  [pd_polyline line1; pd_polyline line2] in
  let rsf := pd_source "vtkRuledSurfaceFilter" [fst res; snd res] [merged] in
  actor <- alloc (new_Actor rsf c alpha) ;;
  collect (Some actor) ;;;
  modify (Some actor) (set_name "Ribbon") ;;;
  ret actor.

(** A Python list of points the caller holds: a reference into [pylists]. *)
Definition lref : Type := nat.

Definition list_get (r : lref) : M (list coords) :=
  fun w => match nth_error (pylists w) r with
           | Some l => (Ok l, w)
           | None => (Raise TypeError, w)
           end.

Fixpoint lists_update (ls : list (list coords)) (i : nat) (p : coords)
  : list (list coords) :=
  match ls, i with
  | [], _ => []
  | l :: ls', O => (l ++ [p]) :: ls'
  | l :: ls', S i' => l :: lists_update ls' i' p
  end.

(** [line.append(p)] *)
Definition list_append (r : lref) (p : coords) : M unit :=
  fun w => (Ok tt, {| heap := heap w; pylists := lists_update (pylists w) r p;
                      collectable_actors := collectable_actors w;
                      stdout := stdout w |}).

(** [l[-k]] for [k] = 1, 2. *)
Definition item_back (l : list coords) (k : nat) : result coords :=
  match nth_error (rev l) (k - 1) with
  | Some p => Ok p
  | None => Raise IndexError
  end.

Definition FlatArrow (line1 line2 : lref) (c : pyval) (alpha : R)
  (tipSize tipWidth : R) : M ref :=
  l1 <- list_get line1 ;;
  l2 <- list_get line2 ;;
  sm1 <- lift (item_back l1 1) ;;
  sm2 <- lift (item_back l2 1) ;;
  d <- lift (np_sub sm1 sm2) ;;
  let v := np_scale tipWidth (map (fun x => x / 3) d) in
  p1 <- lift (np_add sm1 v) ;;
  p2 <- lift (np_sub sm2 v) ;;
  sm12 <- lift (np_add sm1 sm2) ;;
  let pm1 := map (fun x => x / 2) sm12 in
  a1 <- lift (item_back l1 2) ;;
  a2 <- lift (item_back l2 2) ;;
  a12 <- lift (np_add a1 a2) ;;
  let pm2 := map (fun x => x / 2) a12 in
  pm12 <- lift (np_sub pm1 pm2) ;;
  u <- lift (np_div pm12 (norm pm12)) ;;
  t <- lift (np_div (np_scale tipSize (np_scale 3 (np_scale (norm v) u))) tipWidth) ;;
  tip <- lift (np_add t pm1) ;;
  list_append line1 p1 ;;;
  list_append line1 tip ;;;
  list_append line2 p2 ;;;
  list_append line2 tip ;;;
  l1 <- list_get line1 ;;
  l2 <- list_get line2 ;;
  let resm := Rmax 100 (INR (List.length l1)) in
  actor <- Ribbon l1 l2 c alpha (resm, 1) ;;
  modify (Some actor) (add_style "phong") ;;;
  collect_pop ;;;
  collect (Some actor) ;;;
  modify (Some actor) (set_name "FlatArrow") ;;;
  ret actor.

(** ** Spring *)

Definition spring_point (length r r2 om t : R) : coords :=
  let f := (length - t) / length in
  let rd := r * f + r2 * (1 - f) in
  [rd * cos (om * t); rd * sin (om * t); t].

Definition Spring (startPoint endPoint : coords) (coils : nat) (r : R)
  (r2 thickness : option R) (c : pyval) (alpha : R) : M (option ref) :=
  diff <- lift (np_sub endPoint startPoint) ;;
  let length := norm diff in
  if negb (truthy length) then ret None
  else
    let r := if truthy r then r else length / 20 in
    let trange := np_linspace 0 length (50 * coils) in
    let om := 6.283 * (INR coils - 0.5) / length in
    let r2 := if truthy_opt r2 then match r2 with Some x => x | None => r end
              else r in
    let pts := map (spring_point length r r2 om) trange in
    let pts := [[0; 0; 0]] ++ pts ++ [[0; 0; length]] in
    diff <- lift (np_div diff length) ;;
    d2 <- lift (item diff 2) ;;
    let theta := acos d2 in
    d1 <- lift (item diff 1) ;;
    d0 <- lift (item diff 0) ;;
    let phi := arctan2 d1 d0 in
    ln <- Line (LPoints pts) None (PStr "r") 1 1 false None ;;
    sp <- (fun w => match deref w ln with
                    | Some a => (Ok (poly a), w)
                    | None => (Raise AttributeError, w)
                    end) ;;
    let tf := pd_transform [RotateZ (rad2deg phi); RotateY (rad2deg theta)] sp in
    let thickness := if truthy_opt thickness
                     then match thickness with Some x => x | None => 0 end
                     else r / 10 in
    let tuf := pd_source "vtkTubeFilter" [12; thickness] [tf] in
    actor <- alloc (add_style "phong" (new_Actor tuf c alpha)) ;;
    modify (Some actor) (set_position startPoint) ;;;
    modify (Some actor) (set_base_top (Nd1 startPoint) (Nd1 endPoint)) ;;;
    collect (Some actor) ;;;
    modify (Some actor) (set_name "Spring") ;;;
    ret (Some actor).

(** ** Polygon and Star *)

Definition Polygon (pos : coords) (nsides : nat) (r : R) (c : pyval) (alpha : R)
  : M ref :=
  let ps := pd_source "vtkRegularPolygonSource" [INR nsides; r] [] in
  actor <- alloc (new_Actor ps c alpha) ;;
  modify (Some actor) (set_position pos) ;;;
  collect (Some actor) ;;;
  modify (Some actor) (set_name "Polygon") ;;;
  ret actor.

Section StarShape.

(** The vertices the external regular polygon source generates for a number
    of sides and a radius. *)
Variable RegularPolygonSource_points : nat -> R -> list coords.

(** [(p + q) / 2 * r1 / r2] *)
Definition star_inner (p q : coords) (r1 r2 : R) : result coords :=
  pq <~ np_add p q ;;
  np_div (np_scale r1 (map (fun x => x / 2) pq)) r2.

Fixpoint star_loop (pts : list coords) (i n : nat) (l : list coords)
  (r1 r2 : R) : result (list coords) :=
  match l with
  | [] => Ok []
  | p :: l' =>
      mid <~ (if (i + 1 <? n)%nat
              then
                q <~ (match nth_error pts (i + 1) with
                      | Some q => Ok q
                      | None => Raise IndexError
                      end) ;;
                m <~ star_inner p q r1 r2 ;;
                Ok [m]
              else Ok []) ;;
      rest <~ star_loop pts (S i) n l' r1 r2 ;;
      Ok (p :: mid ++ rest)
  end.

(** [for i in range(2*n-1): cells.append([2*n, i, i+1])], then
    [cells.append([2*n, i+1, 0])]: when the range is empty, [i] is still what
    the loop over the points left in it ([i0]). *)
Definition star_cells (n : nat) (i0 : option nat) : result (list (list nat)) :=
  i <~ match (2 * n - 1)%nat with
       | O => match i0 with
              | Some i => Ok i
              | None => Raise UnboundLocalError
              end
       | S k => Ok k
       end ;;
  Ok (map (fun i => [2 * n; i; i + 1])%nat (seq 0 (2 * n - 1))
      ++ [[2 * n; i + 1; 0]%nat]).

Definition Star (pos : coords) (n : nat) (r1 r2 : R) (line : bool)
  (c : pyval) (alpha : R) : M ref :=
  let pts := RegularPolygonSource_points n r2 in
  apts <- lift (star_loop pts 0 n pts r1 r2) ;;
  plast <- lift (item_back pts 1) ;;
  pfirst <- lift (match pts with
                  | p :: _ => Ok p
                  | [] => Raise IndexError
                  end) ;;
  m <- lift (star_inner plast pfirst r1 r2) ;;
  let apts := apts ++ [m] in
  actor <- (if line
            then
              let apts := apts ++ [pfirst] in
              a <- Line (LPoints apts) None (PStr "r") 1 1 false None ;;
              modify (Some a) (set_color c) ;;;
              modify (Some a) (set_alpha alpha) ;;;
              ret a
            else
              let apts := apts ++ [[0; 0; 0]] in
              cells <- lift (star_cells n (match pts with
                                           | [] => None
                                           | _ :: l => Some (List.length l)
                                           end)) ;;
              alloc (new_Actor (pd_mesh apts cells) c alpha)) ;;
  modify (Some actor) (set_position pos) ;;;
  collect (Some actor) ;;;
  modify (Some actor) (set_name "Star") ;;;
  ret actor.

End StarShape.

(** ** Text *)

(** The settings and the file system [Text] consults: whether a plotter with
    a renderer exists and the sum of its background colour, the font names
    of [settings.fonts], and [os.path.exists]. *)
Record TextEnv : Type := {
  background_sum : option R;
  fonts : list string;
  os_path_exists : string -> bool
}.

Inductive text_pos : Type :=
| PosStr (s : string)
| PosInt (i : Z)
| PosSeq (p : coords).

(** The corner a position name stands for; a name that selects none is left
    as it is. *)
Definition corner_of (pos : string) : option Z :=
  if contains "top" pos
  then if contains "left" pos then Some 3%Z
       else if contains "mid" pos then Some 8%Z
       else if contains "right" pos then Some 4%Z
       else None
  else if contains "bottom" pos
  then if contains "left" pos then Some 1%Z
       else if contains "mid" pos then Some 5%Z
       else if contains "right" pos then Some 2%Z
       else None
  else if contains "left" pos then Some 7%Z
       else if contains "right" pos then Some 6%Z
       else Some 3%Z.

Fixpoint lower (s : string) : string :=
  match s with
  | EmptyString => EmptyString
  | String a s' =>
      let n := nat_of_ascii a in
      String (if ((65 <=? n) && (n <=? 90))%nat then ascii_of_nat (n + 32) else a)
             (lower s')
  end.

Definition builtin_font (font : string) : bool :=
  String.eqb (lower font) "courier" || String.eqb (lower font) "times"
  || String.eqb (lower font) "arial".

Definition truthy_val (v : pyval) : bool :=
  match v with
  | PNone => false
  | PNum x => truthy x
  | PStr s => negb (String.eqb s EmptyString)
  | PSeq l => negb (Nat.eqb (List.length l) 0)
  end.

Definition Text (env : TextEnv) (txt : string) (pos : text_pos) (s depth : R)
  (justify : string) (c : pyval) (alpha : R) (bc bg : pyval) (font : string)
  : M (option ref) :=
  let c := match c with
           | PNone =>
               match background_sum env with
               | Some b => if Rgt_dec b 1.5
                           then PSeq [PNum 0.1; PNum 0.1; PNum 0.1]
                           else PSeq [PNum 0.9; PNum 0.9; PNum 0.9]
               | None => PSeq [PNum 0.5; PNum 0.5; PNum 0.5]
               end
           | _ => c
           end in
  let pos := match pos with
             | PosStr p => match corner_of p with
                           | Some k => PosInt k
                           | None => pos
                           end
             | _ => pos
             end in
  match pos with
  | PosInt k =>
      let k := if (8 <? k)%Z then 8%Z else k in
      let k := if (k <? 1)%Z then 1%Z else k in
      let ca := pd_source "vtkCornerAnnotation" [IZR (k - 1); s / 2.7] [] in
      a <- alloc (add_style "PickableOff" (new_Actor ca c alpha)) ;;
      (if builtin_font font then modify (Some a) (add_style (lower font))
       else modify (Some a) (add_style font)) ;;;
      (if truthy_val bg then modify (Some a) (add_style "FrameOn") else ret tt) ;;;
      collect (Some a) ;;;
      ret (Some a)
  | PosStr p =>
      (* a name that selected no corner reaches SetPosition as a string *)
      raise TypeError
  | PosSeq p =>
      if (List.length p =? 2)%nat
      then
        let tm := pd_source "vtkTextMapper" [s * 20] [] in
        let found := builtin_font font
                     || (if in_dec string_dec font (fonts env) then true else false)
                     || os_path_exists env font in
        if negb found
        then printc "Font not found" ;;;
             printc "Available fonts are:" ;;;
             ret None
        else
          a <- alloc (set_position p (new_Actor tm c alpha)) ;;
          (if truthy_val bg then modify (Some a) (add_style "FrameOn") else ret tt) ;;;
          modify (Some a) (add_style "PickableOff") ;;;
          collect (Some a) ;;;
          ret (Some a)
      else
        let tt3 := pd_source "vtkVectorText" [] [] in
        let shifted := pd_source "vtkTransformPolyDataFilter"
                         [b2r (contains "bottom" justify);
                          b2r (contains "top" justify);
                          b2r (contains "left" justify);
                          b2r (contains "right" justify); s] [tt3] in
        let tpoly := if truthy depth
                     then pd_source "vtkLinearExtrusionFilter" [depth] [shifted]
                     else shifted in
        a <- alloc (new_Actor tpoly c alpha) ;;
        (match bc with
         | PNone => ret tt
         | _ => modify (Some a) (add_style "backColor")
         end) ;;;
        modify (Some a) (set_position p) ;;;
        collect (Some a) ;;;
        modify (Some a) (set_name "Text") ;;;
        ret (Some a)
  end.

(** ** Marker *)

Inductive marker_symbol : Type :=
| SymInt (i : Z)
| SymStr (s : string).

(** A size given as a Python integer or as a float. *)
Inductive pynum : Type :=
| NInt (i : Z)
| NFloat (x : R).

Definition num_val (n : pynum) : R :=
  match n with
  | NInt i => IZR i
  | NFloat x => x
  end.

Definition symbs : list string :=
  ["."; "p"; "*"; "h"; "D"; "d"; "o"; "v"; "^"; ">"; "<"; "s"; "x"; "a"].

(** [symbs[s]]: a list index is an integer, counted from the end when
    negative. *)
Definition symbs_at (s : pynum) : result string :=
  match s with
  | NFloat _ => Raise TypeError
  | NInt i =>
      let n := Z.of_nat (List.length symbs) in
      let j := if (i <? 0)%Z then (i + n)%Z else i in
      if ((j <? 0) || (n <=? j))%Z then Raise IndexError
      else Ok (nth (Z.to_nat j) symbs EmptyString)
  end.

Section Markers.

Variable RegularPolygonSource_points : nat -> R -> list coords.
Variable env : TextEnv.

Definition Marker (symbol : marker_symbol) (c : pyval) (alpha : R) (s : pynum)
  (filled : bool) : M ref :=
  symbol <- (match symbol with
             | SymInt _ => lift (symbs_at s)
             | SymStr x => ret x
             end) ;;
  let sz := num_val s in
  let origin := [0; 0; 0] in
  let polygon n r := a <- Polygon origin n r (PStr "coral") 1 ;; ret (Some a) in
  let tagged t (m : M (option ref)) := a <- m ;; modify a (add_style t) ;;; ret a in
  actor <-
    (if String.eqb symbol "." then polygon 24%nat (sz * 0.75)
     else if String.eqb symbol "p" then polygon 5%nat sz
     else if String.eqb symbol "*"
     then a <- Star RegularPolygonSource_points origin 5 (0.7 * sz) sz
                 (negb filled) (PStr "lb") 1 ;;
          ret (Some a)
     else if String.eqb symbol "h" then polygon 6%nat sz
     else if String.eqb symbol "D" then polygon 4%nat sz
     else if String.eqb symbol "d"
     then tagged "scale([0.5,1,1])" (polygon 4%nat (sz * 1.1))
     else if String.eqb symbol "o" then polygon 24%nat (sz * 0.75)
     else if String.eqb symbol "v" then tagged "rotateZ(180)" (polygon 3%nat sz)
     else if String.eqb symbol "^" then polygon 3%nat sz
     else if String.eqb symbol ">" then tagged "rotateZ(-90)" (polygon 3%nat sz)
     else if String.eqb symbol "<" then tagged "rotateZ(90)" (polygon 3%nat sz)
     else if String.eqb symbol "s" then tagged "rotateZ(45)" (polygon 4%nat sz)
     else if String.eqb symbol "x"
     then tagged "rotateZ(45)"
            (Text env "+" (PosSeq origin) (sz * 2.6) 0 "center" PNone 1
               PNone PNone "courier")
     else if String.eqb symbol "a"
     then Text env "*" (PosSeq origin) (sz * 3) 0 "center" PNone 1
            PNone PNone "courier"
     else Text env symbol (PosSeq origin) (sz * 2) 0 "center" PNone 1
            PNone PNone "courier") ;;
  modify actor (add_style "flat") ;;;
  modify actor (add_style "lighting(ambient)") ;;;
  modify actor (add_style (if negb filled then "wireframe(True)"
                           else "wireframe(False)")) ;;;
  modify actor (set_color c) ;;;
  modify actor (set_alpha alpha) ;;;
  modify actor (set_name "Marker") ;;;
  match actor with
  | Some a => ret a
  | None => raise AttributeError
  end.

End Markers.

(** ** Point *)

(** [if len(pos) == 2: pos = (pos[0], pos[1], 0)] *)
Definition pos3 (pos : coords) : coords :=
  match pos with
  | [x; y] => [x; y; 0]
  | _ => pos
  end.

Section SinglePoint.

Variable getColor : pyval -> R * R * R.

Definition Point (pos : coords) (r : R) (c : pyval) (alpha : alpha_arg)
  : M (option ref) :=
  let pos := pos3 pos in
  actor <- Points getColor [pos] r c alpha ;;
  modify actor (set_name "Point") ;;;
  ret actor.

End SinglePoint.

(** ** Lines *)

(** The two forms of the input: a list of pairs [[point1, point2], ...], or
    the start points with [endPoints] given. *)
Inductive lines_arg : Type :=
| LinesPairs (l : list (list coords))
| LinesStartEnd (startPoints endPoints : list coords).

(** A list of points that makes a two-dimensional array: all rows of one
    length. *)
Definition rectangular (l : list coords) : bool :=
  forallb (fun p => (List.length p =? List.length (hd [] l))%nat) l.

(** [np.stack((startPoints, endPoints), axis=1)]: the two arrays must have
    one shape; the rows of the result are the pairs [start, end]. *)
Definition np_stack_pairs (a b : list coords) : result (list (list coords)) :=
  if rectangular a && rectangular b
     && (List.length a =? List.length b)%nat
     && (List.length (hd [] a) =? List.length (hd [] b))%nat
  then Ok (map (fun pq => [fst pq; snd pq]) (combine a b))
  else Raise ValueError.

Definition point_at (l : list coords) (i : nat) : result coords :=
  match nth_error l i with
  | Some p => Ok p
  | None => Raise IndexError
  end.

(** One turn of the loop of [Lines]: the two ends of the segment. *)
Definition lines_segment (scale : R) (twopts : list coords)
  : result (coords * coords) :=
  p0 <~ point_at twopts 0 ;;
  _ <~ vtk_point p0 ;;
  pt2 <~ (if Req_dec_T scale 1
          then point_at twopts 1
          else
            p1 <~ point_at twopts 1 ;;
            d <~ np_sub p1 p0 ;;
            let vers := map (fun x => x * scale) d in
            np_add p0 vers) ;;
  _ <~ vtk_point pt2 ;;
  Ok (p0, pt2).

Fixpoint lines_loop (scale : R) (l : list (list coords))
  : result (list (coords * coords)) :=
  match l with
  | [] => Ok []
  | twopts :: l' =>
      s <~ lines_segment scale twopts ;;
      rest <~ lines_loop scale l' ;;
      Ok (s :: rest)
  end.

Definition Lines (points : lines_arg) (c : pyval) (alpha lw : R)
  (dotted : bool) (scale : R) : M ref :=
  startPoints <- lift (match points with
                       | LinesPairs l => Ok l
                       | LinesStartEnd s e => np_stack_pairs s e
                       end) ;;
  segs <- lift (lines_loop scale startPoints) ;;
  actor <- alloc (set_lw lw (new_Actor (pd_segments segs) c alpha)) ;;
  (if dotted then modify (Some actor) (add_style "dotted") else ret tt) ;;;
  collect (Some actor) ;;;
  modify (Some actor) (set_name "Lines") ;;;
  ret actor.

(** ** Plane, Rectangle and Grid *)

(** A transform switched to [PostMultiply] applies its operations in the
    order of the calls; [pd_transform] lists the operation applied last
    first. *)
Definition post_multiply (calls : list TransformOp) : list TransformOp :=
  rev calls.

(** [axis = np.array(normal) / np.linalg.norm(normal)] and the two angles
    taken from it.  A zero normal is outside the idealisation by real
    numbers (numpy gives not-a-number entries); the embedding marks it by a
    division fault. *)
Definition axis_angles (normal : coords) : result (R * R) :=
  axis <~ np_div normal (norm normal) ;;
  a2 <~ item axis 2 ;;
  let theta := acos a2 in
  a1 <~ item axis 1 ;;
  a0 <~ item axis 0 ;;
  let phi := arctan2 a1 a0 in
  Ok (theta, phi).

Definition Plane (pos normal : coords) (sx : R) (sy : option R) (c : pyval)
  (alpha : R) : M ref :=
  let sy := match sy with
            | None => sx
            | Some y => y
            end in
  let tri := pd_source "vtkTriangleFilter" []
               [pd_source "vtkPlaneSource" [1; 1] []] in
  tp <- lift (axis_angles normal) ;;
  let '(theta, phi) := tp in
  let t := post_multiply [Scale sx sy 1; RotateY (rad2deg theta);
                          RotateZ (rad2deg phi)] in
  actor <- alloc (new_Actor (pd_transform t tri) c alpha) ;;
  modify (Some actor) (set_position pos) ;;;
  collect (Some actor) ;;;
  modify (Some actor) (set_name "Plane") ;;;
  ret actor.

(** The line width [lw] is a parameter of [Rectangle] that its body does not
    use. *)
Definition Rectangle (p1 p2 : coords) (lw : R) (c : pyval) (alpha : R) : M ref :=
  s <- lift (np_add p1 p2) ;;
  let pos := map (fun x => x / 2) s in
  x2 <- lift (item p2 0) ;;
  x1 <- lift (item p1 0) ;;
  let length := Rabs (x2 - x1) in
  y2 <- lift (item p2 1) ;;
  y1 <- lift (item p1 1) ;;
  let height := Rabs (y2 - y1) in
  actor <- Plane pos [0; 0; 1] length (Some height) c alpha ;;
  modify (Some actor) (set_name "Rectangle") ;;;
  ret actor.

(** A size given as one number or as the list of the coordinates of the
    vertices. *)
Inductive size_arg : Type :=
| SizeNum (x : R)
| SizeSeq (l : list R).

(** [for y in sy: for x in sx: verts.append([x, y, 0])] *)
Definition grid_verts (sx sy : list R) : list coords :=
  flat_map (fun y => map (fun x => [x; y; 0]) sx) sy.

(** [for j in range(m-1): j1n = (j+1)*n;
       for i in range(n-1): faces.append([i+j*n, i+1+j*n, i+1+j1n, i+j1n])] *)
Definition grid_faces (n m : nat) : list (list nat) :=
  flat_map (fun j =>
              let j1n := ((j + 1) * n)%nat in
              map (fun i => [i + j * n; i + 1 + j * n; i + 1 + j1n; i + j1n]%nat)
                  (seq 0 (n - 1)))
           (seq 0 (m - 1)).

(** The method [orientation] of the actor is kept as a filter applied to the
    mesh; with one size a number and the other a list, the call of
    [t0.Scale(sx, sy, 1)] is refused by the transform.  The parameter [sz] is
    not used by the body. *)
Definition Grid (pos normal : coords) (sx sy : size_arg) (sz : coords)
  (c : pyval) (alpha lw : R) (resx resy : R) : M ref :=
  actor <- (match sx, sy with
            | SizeSeq lx, SizeSeq ly =>
                let verts := grid_verts lx ly in
                let faces := grid_faces (List.length lx) (List.length ly) in
                alloc (new_Actor
                         (pd_source "Actor.orientation" normal
                            [pd_mesh verts faces]) c alpha)
            | SizeNum x, SizeNum y =>
                let poly0 := pd_source "vtkPlaneSource" [resx; resy] [] in
                let poly := pd_transform [Scale x y 1] poly0 in
                tp <- lift (axis_angles normal) ;;
                let '(theta, phi) := tp in
                let t := post_multiply [RotateY (rad2deg theta);
                                        RotateZ (rad2deg phi)] in
                alloc (new_Actor (pd_transform t poly) c alpha)
            | _, _ => raise TypeError
            end) ;;
  modify (Some actor) (add_style "wireframe") ;;;
  modify (Some actor) (set_lw lw) ;;;
  modify (Some actor) (set_position pos) ;;;
  collect (Some actor) ;;;
  modify (Some actor) (set_name "Grid") ;;;
  ret actor.

(** ** Hyperboloid *)

(** The coefficient [-1 / a2] is a division of Python numbers.  The
    parameter [height] is not used by the body. *)
Definition Hyperboloid (pos : coords) (a2 value height : R) (c : pyval)
  (alpha res : R) : M ref :=
  q2 <- lift (checked_div (-1) a2) ;;
  let q := pd_source "vtkQuadric" [2; 2; q2; 0; 0; 0; 0; 0; 0; 0] [] in
  let sample := pd_source "vtkSampleFunction" [res; res; res] [q] in
  let contours := pd_source "vtkContourFilter" [1; value; value] [sample] in
  actor <- alloc (add_style "phong"
                    (add_style "flipNormals" (new_Actor contours c alpha))) ;;
  modify (Some actor) (set_scalarVisibility false) ;;;
  modify (Some actor) (set_position pos) ;;;
  collect (Some actor) ;;;
  modify (Some actor) (set_name "Hyperboloid") ;;;
  ret actor.

(** ** Notions used in the statements *)

(** The point array [Points] works on once the input layout is interpreted
    and two-dimensional points are completed. *)
Definition normalize (plist : list coords) : result (list coords) :=
  q <~ interpret_plist plist ;; make3d q.

(** The alpha of each of [n] points. *)
Definition alphas_of (alpha : alpha_arg) (n : nat) : list R :=
  match alpha with
  | AlphaSeq l => l
  | AlphaNum a => repeat a n
  end.

(** The colour tuple the SLOW loop stores for the colour [ci] and the alpha
    [a]. *)
Definition slow_entry (getColor : pyval -> R * R * R) (ci : pyval) (a : R)
  : pyval * pyval * pyval * pyval :=
  let '(rc, gc, bc) := getColor ci in
  (PNum (rc * 255), PNum (gc * 255), PNum (bc * 255), PNum (a * 255)).

(** An RGBA tuple of four numbers. *)
Definition is_rgba (ci : pyval) : Prop :=
  exists r g b a, ci = PSeq [PNum r; PNum g; PNum b; PNum a].

Definition rgba_entry (ci : pyval) (u : pyval * pyval * pyval * pyval) : Prop :=
  let '(a, b, c, d) := u in ci = PSeq [a; b; c; d].

(** The world after a message was printed. *)
Definition say (msg : string) (w : world) : world :=
  {| heap := heap w; pylists := pylists w;
     collectable_actors := collectable_actors w;
     stdout := stdout w ++ [msg] |}.

(** Concrete inputs for the examples. *)
Definition black (_ : pyval) : R * R * R := (0, 0, 0).

Definition five_points : list coords :=
  [[0; 0; 0]; [1; 0; 0]; [2; 0; 0]; [3; 0; 0]; [4; 0; 0]].

Definition three_points : list coords :=
  [[0; 0; 0]; [1; 0; 0]; [2; 0; 0]].

Definition rgb (r g b : R) : pyval := PSeq [PNum r; PNum g; PNum b].


(** [isSequence(c[0]) and len(c[0]) == 4] on the entries of a list. *)
Definition starts_with_rgba (l : list pyval) : bool :=
  match l with
  | PSeq [_; _; _; _] :: _ => true
  | _ => false
  end.

(** The three conditions under which [Spheres] is said to fail: more centers
    than colours, more centers than radii, or colours and radii both given
    as sequences. *)
Definition spheres_fails (centers : list coords) (r : radius_arg) (c : pyval)
  : bool :=
  match c with
  | PSeq l => (List.length l <? List.length centers)%nat
  | _ => false
  end
  || match r with
     | RSeq lr => (List.length lr <? List.length centers)%nat
     | RNum _ => false
     end
  || (isSequence c && radius_isSequence r).

(** The warnings for a colour or radius sequence longer than the centers. *)
Definition spheres_warnings (centers : list coords) (r : radius_arg) (c : pyval)
  : list string :=
  match c with
  | PSeq l => if (List.length centers <? List.length l)%nat
              then ["Warning: mismatch in Spheres() colors"] else []
  | _ => []
  end
  ++ match r with
     | RSeq lr => if (List.length centers <? List.length lr)%nat
                  then ["Warning: mismatch in Spheres() radius"] else []
     | RNum _ => []
     end.

(** An environment in which matplotlib cannot render the formula. *)
Definition no_latex_env : LatexEnv :=
  {| requests_get := Raise ConnectionError;
     plt_savefig := Raise OSError;
     Picture := fun _ => Raise OSError;
     os_unlink := Raise OSError |}.

Definition latex_messages : list string :=
  ["Error in Latex()"; " latex or dvipng not installed?";
   " Try: usetex=False"; " Try: sudo apt install dvipng"].


Definition dot3 (p q : vec3) : R :=
  let '(x, y, z) := p in
  let '(a, b, c) := q in
  x * a + y * b + z * c.

(** The factor by which [Arrow] scales the cross-section of the template:
    800 times [s] when [s] is given and not zero, the length of the arrow
    otherwise. *)
Definition arrow_section (s : option R) (length : R) : R :=
  match s with
  | Some s' => if truthy s' then 800.0 * s' else length
  | None => length
  end.

(** The sub-segment of rank [i] when the segment from [p0] to [p1], of
    direction [v], is cut into [n] parts: it runs from the fraction
    [(i-1)/n] to the fraction [i/n], or to [p1] past the last part. *)
Definition dash_at (p0 p1 v : coords) (n i : Z) : coords * coords :=
  (map2 Rplus p0 (np_scale ((IZR i - 1) / IZR n) v),
   if (i <=? n)%Z then map2 Rplus p0 (np_scale (IZR i / IZR n) v) else p1).

(** A segment of length 10 along the x axis. *)
Definition seg_start : coords := [0; 0; 0].
Definition seg_end : coords := [10; 0; 0].

(** The parameters of the points of a spline increase, and lie between 0 and
    [hi]. *)
Definition spline_ok (hi : R) (s : KochanekSpline) : Prop :=
  StronglySorted Rlt (map fst (spline_points s))
  /\ Forall (fun q => 0 <= fst q <= hi) (spline_points s).

(** The point of the curve at the parameter [pos], as the second loop of
    [KSpline] computes it when the last input point is [p]. *)
Definition curve_point (xs ys zs : KochanekSpline) (p : coords) (pos : R)
  : coords :=
  [Evaluate xs pos; Evaluate ys pos;
   if (2 <? List.length p)%nat then Evaluate zs pos else 0].

(** The point [Points] works with for an input point of two coordinates or
    more. *)
Definition pad3 (p : coords) : coords :=
  if (List.length p =? 2)%nat then p ++ [0] else p.

Definition four_xs : list R := [0; 1; 2; 3].
Definition four_ys : list R := [0; 1; 4; 9].
Definition four_zs : list R := [1; 1; 1; 1].

(** What a call leaves in the registry beyond what was there: the actor it
    returned, or nothing. *)
Definition collected (r : result (option ref)) : list (option ref) :=
  match r with
  | Ok (Some a) => [Some a]
  | _ => []
  end.

(** The points that [Arc] hands to the arc source. *)
Definition arc_points (center point1 : coords) (point2 normal : option coords)
  (angle : option R) : list coords :=
  match point2 with
  | Some p2 => [point1; p2; center]
  | None =>
      match normal, angle with
      | Some n, Some _ => [point1; n]
      | _, _ => []
      end
  end.

(** Settings with no additional font and no font file. *)
Definition plain_env : TextEnv :=
  {| background_sum := None; fonts := []; os_path_exists := fun _ => false |}.

(** A polygon source that gives the four corners of a square, whatever it
    is asked for. *)
Definition square_source (_ : nat) (r : R) : list coords :=
  [[r; 0; 0]; [0; r; 0]; [- r; 0; 0]; [0; - r; 0]].

(** A store with two lists of points, the two sides of a strip along x. *)
Definition two_lines_world : world :=
  {| heap := [];
     pylists := [[[0; 0; 0]; [1; 0; 0]]; [[0; 1; 0]; [1; 1; 0]]];
     collectable_actors := []; stdout := [] |}.

(** The segment [Lines] draws for the pair (start, end) and a scale. *)
Definition scaled_segment (scale : R) (pq : coords * coords) : coords * coords :=
  (fst pq,
   map2 Rplus (fst pq) (map (fun x => x * scale) (map2 Rminus (snd pq) (fst pq)))).

(** * Theorems *)

(** ** The monad *)

Lemma bind_Ok {A B : Type} (m : M A) (k : A -> M B) (w w' : world) (a : A) :
  m w = (Ok a, w') -> bind m k w = k a w'.
Proof. intros H. unfold bind. rewrite H. reflexivity. Qed.

Lemma bind_Raise {A B : Type} (m : M A) (k : A -> M B) (w w' : world) (e : exn) :
  m w = (Raise e, w') -> bind m k w = (Raise e, w').
Proof. intros H. unfold bind. rewrite H. reflexivity. Qed.

Lemma bind_lift_Ok {A B : Type} (a : A) (k : A -> M B) (w : world) :
  bind (lift (Ok a)) k w = k a w.
Proof. reflexivity. Qed.

Lemma bind_lift_Raise {A B : Type} (e : exn) (k : A -> M B) (w : world) :
  bind (lift (Raise e)) k w = (Raise e, w).
Proof. reflexivity. Qed.

Lemma bind_ret {A B : Type} (a : A) (k : A -> M B) (w : world) :
  bind (ret a) k w = k a w.
Proof. reflexivity. Qed.

Lemma bind_raise {A B : Type} (e : exn) (k : A -> M B) (w : world) :
  bind (raise e) k w = (Raise e, w).
Proof. reflexivity. Qed.

Lemma bind_printc {B : Type} (msg : string) (k : unit -> M B) (w : world) :
  bind (printc msg) k w = k tt (say msg w).
Proof. reflexivity. Qed.

Lemma bind_alloc {B : Type} (a : Actor) (k : ref -> M B) (w : world) :
  bind (alloc a) k w
  = k (List.length (heap w))
      {| heap := heap w ++ [a]; pylists := pylists w;
         collectable_actors := collectable_actors w; stdout := stdout w |}.
Proof. reflexivity. Qed.

Lemma bind_modify {B : Type} (i : ref) (f : Actor -> Actor) (k : unit -> M B)
  (w : world) :
  bind (modify (Some i) f) k w
  = k tt {| heap := list_update (heap w) i f; pylists := pylists w;
            collectable_actors := collectable_actors w; stdout := stdout w |}.
Proof. reflexivity. Qed.

Lemma bind_collect {B : Type} (r : option ref) (k : unit -> M B) (w : world) :
  bind (collect r) k w
  = k tt {| heap := heap w; pylists := pylists w;
            collectable_actors := collectable_actors w ++ [r];
            stdout := stdout w |}.
Proof. reflexivity. Qed.

Lemma bind_assoc {A B C : Type} (m : M A) (k : A -> M B) (h : B -> M C)
  (w : world) :
  bind (bind m k) h w = bind m (fun a => bind (k a) h) w.
Proof. unfold bind. destruct (m w) as [[a|e] w']; reflexivity. Qed.

(** One step of a computation whose head is a basic operation. *)
Ltac mstep :=
  first [ rewrite bind_assoc
        | rewrite bind_ret
        | rewrite bind_lift_Ok
        | rewrite bind_lift_Raise
        | rewrite bind_raise
        | rewrite bind_printc
        | rewrite bind_alloc
        | rewrite bind_modify
        | rewrite bind_collect ];
  cbv beta iota zeta; cbn [heap pylists collectable_actors stdout].

Lemma list_update_last {A : Type} (h : list A) (x : A) (f : A -> A) :
  list_update (h ++ [x]) (List.length h) f = h ++ [f x].
Proof. induction h as [|y h IH]; simpl; [reflexivity | now rewrite IH]. Qed.

Lemma nth_error_last {A : Type} (h : list A) (x : A) :
  nth_error (h ++ [x]) (List.length h) = Some x.
Proof. induction h as [|y h IH]; simpl; auto. Qed.

(** ** Points *)

Lemma make3d_length (q pts : list coords) :
  make3d q = Ok pts -> List.length pts = List.length q /\ q <> [].
Proof.
  unfold make3d. destruct q as [|p0 q']; [discriminate|].
  destruct (List.length p0 =? 2)%nat.
  - unfold np_c_zeros. destruct (forallb _ _); [|discriminate].
    intros H. injection H as <-.
    split; [apply (length_map _ (p0 :: q')) | discriminate].
  - intros H. injection H as <-. split; [reflexivity | discriminate].
Qed.

Section PointsFacts.

Variable getColor : pyval -> R * R * R.

Lemma nth_error_middle {A : Type} (pre : list A) (x : A) (l : list A) :
  nth_error (pre ++ x :: l) (List.length pre) = Some x.
Proof.
  induction pre as [|y pre IH]; simpl; auto.
Qed.

Lemma fast_loop_rgba (pre l : list pyval) :
  Forall is_rgba l ->
  exists u, fast_loop (PSeq (pre ++ l)) (List.length pre) (List.length l) = Ok u
            /\ Forall2 rgba_entry l u.
Proof.
  revert pre. induction l as [|ci l IH]; intros pre Hl.
  - exists []. split; [reflexivity | constructor].
  - inversion Hl as [|? ? Hci Hl']; subst.
    destruct Hci as (r & g & b & a & ->).
    destruct (IH (pre ++ [PSeq [PNum r; PNum g; PNum b; PNum a]]) Hl')
      as (u & Hu & HF).
    rewrite <- app_assoc in Hu. simpl in Hu.
    rewrite length_app in Hu. simpl in Hu. rewrite Nat.add_1_r in Hu.
    exists ((PNum r, PNum g, PNum b, PNum a) :: u). split.
    + simpl. rewrite nth_error_middle. simpl. rewrite Hu. reflexivity.
    + constructor; [reflexivity | exact HF].
Qed.

Lemma slow_loop_entries (pre l : list pyval) (prea la : list R) (i : nat) :
  i = List.length pre ->
  i = List.length prea ->
  List.length la = List.length l ->
  slow_loop getColor (PSeq (pre ++ l)) (prea ++ la) i (List.length l)
  = Ok (map (fun p => slow_entry getColor (fst p) (snd p)) (combine l la)).
Proof.
  revert pre prea la i. induction l as [|ci l IH]; intros pre prea la i Hi Hp Hl.
  - reflexivity.
  - destruct la as [|a la]; [discriminate|].
    simpl in Hl. injection Hl as Hl.
    specialize (IH (pre ++ [ci]) (prea ++ [a]) la (S i)).
    rewrite <- !app_assoc in IH. simpl in IH.
    assert (E1 : nth_error (pre ++ ci :: l) i = Some ci)
      by (rewrite Hi; apply nth_error_middle).
    assert (E2 : nth_error (prea ++ a :: la) i = Some a)
      by (rewrite Hp; apply nth_error_middle).
    simpl. rewrite E1. unfold alphas_at. rewrite E2.
    destruct (getColor ci) as [[rc gc] bc] eqn:Hg.
    rewrite IH; try (rewrite length_app; simpl; lia); auto.
    unfold slow_entry. simpl. rewrite Hg. reflexivity.
Qed.

Lemma Points_nonempty (plist : list coords) r c alpha w :
  plist <> [] ->
  Points getColor plist r c alpha w
  = bind (lift (interpret_plist plist))
      (fun plist =>
       bind (lift (make3d plist))
         (fun plist =>
          bind (lift (per_point_colors c alpha))
            (fun pp : bool =>
             bind (if pp
                   then _PointsColors getColor plist r c alpha
                   else
                     let n := List.length plist in
                     bind (lift (vertex_points plist))
                       (fun _ =>
                        let pts := if (n =? 1)%nat then [[0; 0; 0]] else plist in
                        let pd := pd_verts pts None in
                        bind (alloc (new_Actor pd c (alpha_num alpha)))
                          (fun a =>
                           bind (modify (Some a) (set_pointSize r))
                             (fun _ =>
                              bind (if (n =? 1)%nat
                                    then modify (Some a) (set_position (hd [] plist))
                                    else ret tt)
                                (fun _ => ret a)))))
               (fun actor =>
                bind (collect (Some actor))
                  (fun _ =>
                   bind (modify (Some actor) (set_name "Points"))
                     (fun _ => ret (Some actor))))))) w.
Proof.
  intros H. unfold Points. destruct plist; [congruence | reflexivity].
Qed.

Lemma PointsColors_colors_mismatch (pts : list coords) r cols alpha w lc :
  py_len cols = Ok lc ->
  List.length pts <> lc ->
  _PointsColors getColor pts r cols alpha w
  = (Raise RuntimeError, say "mismatch in Points() colors" w).
Proof.
  intros Hc Hl. apply Nat.eqb_neq in Hl.
  unfold _PointsColors, bind, lift. rewrite Hc, Hl. reflexivity.
Qed.




(** When [Points] takes the colour list as per-point colours and the list
    has one entry per point - RGBA tuples of numbers, or entries that
    [getColor] resolves, the first of them not of length 4 - the actor
    returned exposes exactly the N points, carries N colour tuples, the i-th
    made from the i-th colour, and is collected. *)
Theorem Points_per_point_colors
  (plist pts : list coords) (r : R) (l : list pyval) (alpha : alpha_arg)
  (w : world) (n0 : nat) :
  plist <> [] ->
  normalize plist = Ok pts ->
  List.length l = List.length pts ->
  per_point_colors (PSeq l) alpha = Ok true ->
  List.length (alphas_of alpha (List.length pts)) = List.length pts ->
  py_len (hd PNone l) = Ok n0 ->
  (n0 = 4%nat -> Forall is_rgba l) ->
  exists a w' ucols actor,
    Points getColor plist r (PSeq l) alpha w = (Ok (Some a), w')
    /\ deref w' a = Some actor
    /\ poly actor = pd_verts pts (Some ("pointsRGBA", ucols))
    /\ List.length ucols = List.length pts
    /\ (n0 = 4%nat -> Forall2 rgba_entry l ucols)
    /\ (n0 <> 4%nat ->
        ucols = map (fun p => slow_entry getColor (fst p) (snd p))
                    (combine l (alphas_of alpha (List.length pts))))
    /\ name actor = "Points"
    /\ collectable_actors w' = collectable_actors w ++ [Some a].
Proof.
  intros Hne Hnorm Hlen Hpp Hal Hc0 Hrgba.
  rewrite Points_nonempty by assumption.
  unfold normalize in Hnorm.
  destruct (interpret_plist plist) as [q|e] eqn:Hq; [|discriminate].
  simpl in Hnorm. rewrite bind_lift_Ok, Hnorm, bind_lift_Ok, Hpp, bind_lift_Ok.
  destruct (make3d_length _ _ Hnorm) as [Hpq Hqne].
  assert (Hl : exists c0 l', l = c0 :: l').
  { destruct l as [|c0 l']; [|eauto].
    destruct q; [congruence|]. simpl in Hlen. rewrite Hpq in Hlen. discriminate. }
  destruct Hl as (c0 & l' & ->). simpl in Hc0.
  assert (Hu : exists ucols,
             (if (n0 =? 4)%nat
              then fast_loop (PSeq (c0 :: l')) 0 (List.length pts)
              else slow_loop getColor (PSeq (c0 :: l'))
                     (alphas_of alpha (List.length pts)) 0 (List.length pts))
             = Ok ucols
             /\ List.length ucols = List.length pts
             /\ (n0 = 4%nat -> Forall2 rgba_entry (c0 :: l') ucols)
             /\ (n0 <> 4%nat ->
                 ucols = map (fun p => slow_entry getColor (fst p) (snd p))
                           (combine (c0 :: l')
                              (alphas_of alpha (List.length pts))))).
  { destruct (n0 =? 4)%nat eqn:E4.
    - apply Nat.eqb_eq in E4.
      destruct (fast_loop_rgba [] (c0 :: l') (Hrgba E4)) as (u & Hu & HF).
      simpl app in Hu. simpl (List.length []) in Hu. rewrite Hlen in Hu.
      exists u. repeat split; auto.
      + apply Forall2_length in HF. congruence.
      + intros; congruence.
    - apply Nat.eqb_neq in E4.
      pose proof (slow_loop_entries [] (c0 :: l') []
                    (alphas_of alpha (List.length pts)) 0%nat eq_refl eq_refl) as Hs.
      simpl app in Hs. rewrite Hlen in Hs. specialize (Hs Hal).
      eexists. split; [exact Hs|]. split; [|split; [intros; congruence | auto]].
      rewrite length_map, length_combine, Hal, Hlen. apply Nat.min_id. }
  destruct Hu as (ucols & Hu & Hlu & HF & HS).
  set (alpha1 := alpha_num alpha).
  set (act := set_pointSize r
                (add_style "flat"
                   (new_Actor (pd_verts pts (Some ("pointsRGBA", ucols)))
                      PNone alpha1))).
  assert (HPC : _PointsColors getColor pts r (PSeq (c0 :: l')) alpha w
                = (Ok (List.length (heap w)),
                   {| heap := heap w ++ [set_scalarVisibility true act];
                      pylists := pylists w;
                      collectable_actors := collectable_actors w;
                      stdout := stdout w |})).
  { assert (Hn : (List.length pts =? List.length (c0 :: l'))%nat = true)
      by (apply Nat.eqb_eq; congruence).
    unfold _PointsColors.
    change (py_len (PSeq (c0 :: l'))) with (Ok (List.length (c0 :: l'))).
    mstep. rewrite Hn. simpl negb. cbv iota. mstep.
    assert (Ha : forall B (k : list R * R -> M B),
               bind match alpha with
                    | AlphaNum a => ret (repeat a (List.length pts), a)
                    | AlphaSeq l0 =>
                        if negb (List.length l0 =? List.length pts)%nat
                        then bind (printc "mismatch in Points() alphas")
                               (fun _ => raise RuntimeError)
                        else ret (l0, 1)
                    end k w
               = k (alphas_of alpha (List.length pts), alpha1) w).
    { intros B k. destruct alpha as [a0|la]; [reflexivity|].
      simpl in Hal. rewrite Hal, Nat.eqb_refl. reflexivity. }
    rewrite Ha. cbv beta iota zeta.
    simpl isSequence. cbv iota.
    change (py_index (PSeq (c0 :: l')) 0) with (Ok c0).
    repeat mstep. rewrite Hc0. repeat mstep.
    destruct (n0 =? 4)%nat; repeat mstep; rewrite Hu; repeat mstep;
      unfold ret; rewrite list_update_last; reflexivity. }
  rewrite (bind_Ok _ _ _ _ _ HPC).
  unfold bind, collect, modify, ret. simpl.
  rewrite list_update_last.
  exists (List.length (heap w)). eexists. exists ucols. eexists.
  split; [reflexivity|]. split.
  { unfold deref. simpl. apply nth_error_last. }
  simpl. repeat split; auto.
Qed.




(** What the uniform path of [Points] returns, when it returns: the points,
    no colour array, and the colour argument kept as one colour. *)
Lemma Points_uniform_fit (plist q pts : list coords) r c alpha w a w' actor :
  plist <> [] ->
  interpret_plist plist = Ok q ->
  make3d q = Ok pts ->
  per_point_colors c alpha = Ok false ->
  Points getColor plist r c alpha w = (Ok (Some a), w') ->
  deref w' a = Some actor ->
  (exists vs, poly actor = pd_verts vs None
              /\ List.length vs = List.length pts)
  /\ color actor = c.
Proof.
  intros Hne Hq Hm Hpp. rewrite Points_nonempty by assumption.
  rewrite Hq. mstep. rewrite Hm. mstep. rewrite Hpp. mstep.
  destruct (vertex_points pts) as [v|e]; repeat mstep; [|discriminate].
  destruct (List.length pts =? 1)%nat eqn:E1; repeat mstep; unfold ret;
    rewrite !list_update_last; intros H; injection H as <- <-;
    unfold deref; cbn [heap]; rewrite nth_error_last; intros H;
    injection H as <-; (split; [|reflexivity]); eexists;
    (split; [reflexivity|]).
  - apply Nat.eqb_eq in E1. rewrite E1. reflexivity.
  - reflexivity.
Qed.


(** C2: a list of at most three colours that does not start with an RGBA
    tuple - three RGB triples for three points - is not taken per point.
    The test of [Points] sends it to the uniform path, where the whole list
    is handed to the wrapper as one colour: an actor that [Points] returns
    then carries no colour array. *)
Theorem Points_short_colour_list_uniform
  (plist pts : list coords) (r : R) (l : list pyval) (a : R) (w : world) :
  plist <> [] ->
  normalize plist = Ok pts ->
  Forall (fun p => List.length p = 3%nat) pts ->
  List.length l = List.length pts ->
  (List.length l <= 3)%nat ->
  starts_with_rgba l = false ->
  per_point_colors (PSeq l) (AlphaNum a) = Ok false
  /\ forall x w' actor,
      Points getColor plist r (PSeq l) (AlphaNum a) w = (Ok (Some x), w') ->
      deref w' x = Some actor ->
      (exists vs, poly actor = pd_verts vs None)
      /\ color actor = PSeq l.
Proof.
  intros Hne Hnorm H3 Hlen Hl3 Hrgba.
  assert (Hpp : per_point_colors (PSeq l) (AlphaNum a) = Ok false).
  { unfold per_point_colors. cbn [isSequence py_len].
    destruct (Nat.ltb_spec 3 (List.length l)); [lia|].
    destruct l as [|c0 l'].
    - exfalso. unfold normalize in Hnorm.
      destruct (interpret_plist plist) as [q|]; [|discriminate].
      cbn [rbind] in Hnorm. destruct (make3d_length _ _ Hnorm) as [Hq Hqne].
      simpl in Hlen. destruct pts; [destruct q; [congruence | discriminate]|].
      discriminate.
    - cbn [py_index nth_error].
      destruct c0 as [| | |l0]; try reflexivity.
      cbn [isSequence py_len].
      destruct l0 as [|x0 [|x1 [|x2 [|x3 [|x4 l4]]]]]; try reflexivity.
      discriminate. }
  split; [exact Hpp|].
  intros x w' actor Hrun Hd.
  unfold normalize in Hnorm.
  destruct (interpret_plist plist) as [q|e] eqn:Hq; [|discriminate].
  cbn [rbind] in Hnorm.
  destruct (Points_uniform_fit plist q pts r (PSeq l) (AlphaNum a) w x w' actor
              Hne Hq Hnorm Hpp Hrun Hd) as ((vs & Hp & _) & Hc).
  split; [eauto | exact Hc].
Qed.

End PointsFacts.

Lemma Points_per_point_colors_witness :
  exists a w' ucols actor,
    Points black five_points 5
      (PSeq [PStr "red"; PStr "green"; PStr "blue"; PStr "white"; PStr "red"])
      (AlphaNum 1) empty_world = (Ok (Some a), w')
    /\ deref w' a = Some actor
    /\ poly actor = pd_verts five_points (Some ("pointsRGBA", ucols))
    /\ List.length ucols = List.length five_points
    /\ (3%nat = 4%nat ->
        Forall2 rgba_entry
          [PStr "red"; PStr "green"; PStr "blue"; PStr "white"; PStr "red"] ucols)
    /\ (3%nat <> 4%nat ->
        ucols = map (fun p => slow_entry black (fst p) (snd p))
                  (combine
                     [PStr "red"; PStr "green"; PStr "blue"; PStr "white";
                      PStr "red"]
                     (alphas_of (AlphaNum 1) (List.length five_points))))
    /\ name actor = "Points"
    /\ collectable_actors w' = collectable_actors empty_world ++ [Some a].
Proof.
  apply (Points_per_point_colors black five_points five_points).
  - discriminate.
  - reflexivity.
  - reflexivity.
  - reflexivity.
  - reflexivity.
  - reflexivity.
  - intros H. discriminate.
Defined.


Lemma Points_short_colour_list_uniform_witness :
  per_point_colors (PSeq [rgb 1 0 0; rgb 0 1 0; rgb 0 0 1]) (AlphaNum 1) = Ok false
  /\ forall x w' actor,
      Points black three_points 5 (PSeq [rgb 1 0 0; rgb 0 1 0; rgb 0 0 1])
        (AlphaNum 1) empty_world = (Ok (Some x), w') ->
      deref w' x = Some actor ->
      (exists vs, poly actor = pd_verts vs None)
      /\ color actor = PSeq [rgb 1 0 0; rgb 0 1 0; rgb 0 0 1].
Proof.
  apply (Points_short_colour_list_uniform black three_points three_points).
  - discriminate.
  - reflexivity.
  - repeat constructor.
  - reflexivity.
  - simpl. lia.
  - reflexivity.
Defined.

(** ** Spheres *)

Section SpheresFacts.

Variable getColor : pyval -> R * R * R.
Variable Actor_default_c : pyval.

Lemma sphere_colors_ok (l : list pyval) (centers : list coords) (i : nat) :
  Forall (fun p => List.length p = 3%nat) centers ->
  (i + List.length centers <= List.length l)%nat ->
  exists cols, sphere_colors getColor (PSeq l) i centers = Ok cols
               /\ List.length cols = List.length centers.
Proof.
  intros H3. revert i. induction H3 as [|p centers Hp _ IH]; intros i Hi.
  - exists []. split; reflexivity.
  - simpl in Hi. simpl. unfold vtk_point. rewrite Hp. cbn [Nat.eqb rbind].
    destruct (nth_error l i) as [ci|] eqn:Hn.
    + destruct (IH (S i)) as (cols & Hc & Hl); [lia|].
      simpl. rewrite Hc. simpl. eexists. split; [reflexivity|]. simpl. now rewrite Hl.
    + apply nth_error_None in Hn. lia.
Qed.

Lemma sphere_radii_ok (lr : list R) (centers : list coords) (i : nat) :
  Forall (fun p => List.length p = 3%nat) centers ->
  (i + List.length centers <= List.length lr)%nat ->
  exists rads, sphere_radii lr i centers = Ok rads
               /\ List.length rads = List.length centers.
Proof.
  intros H3. revert i. induction H3 as [|p centers Hp _ IH]; intros i Hi.
  - exists []. split; reflexivity.
  - simpl in Hi. simpl. unfold vtk_point. rewrite Hp. cbn [Nat.eqb rbind].
    unfold item.
    destruct (nth_error lr i) as [ri|] eqn:Hn.
    + destruct (IH (S i)) as (rads & Hc & Hl); [lia|].
      simpl. rewrite Hc. simpl. eexists. split; [reflexivity|]. simpl. now rewrite Hl.
    + apply nth_error_None in Hn. lia.
Qed.

Lemma sphere_points_ok (centers : list coords) :
  Forall (fun p => List.length p = 3%nat) centers ->
  sphere_points centers = Ok tt.
Proof.
  induction 1 as [|p centers Hp _ IH]; [reflexivity|].
  simpl. unfold vtk_point. rewrite Hp. exact IH.
Qed.

(** C10: on centers of three coordinates [Spheres] raises exactly when
    there are more centers than colours, more centers than radii, or colours
    and radii are both sequences, and then builds and collects nothing; in
    every other call it returns an actor and collects it, and a colour or
    radius sequence longer than the centers only adds a warning to the
    output. *)
Theorem Spheres_fails_exactly
  (centers : list coords) (r : radius_arg) (c : pyval) (alpha res : R)
  (w : world) :
  Forall (fun p => List.length p = 3%nat) centers ->
  let out := Spheres getColor Actor_default_c centers r c alpha res w in
  if spheres_fails centers r c
  then fst out = Raise RuntimeError
       /\ heap (snd out) = heap w
       /\ collectable_actors (snd out) = collectable_actors w
  else exists a actor,
      fst out = Ok a
      /\ deref (snd out) a = Some actor
      /\ name actor = "Spheres"
      /\ collectable_actors (snd out) = collectable_actors w ++ [Some a]
      /\ stdout (snd out) = stdout w ++ spheres_warnings centers r c.
Proof.
  intros H3. cbv zeta. pose proof (sphere_points_ok centers H3) as Hpts.
  unfold spheres_fails, spheres_warnings, Spheres.
  destruct c as [| x | s | l]; destruct r as [x' | lr];
    cbn [isSequence radius_isSequence andb orb py_len];
    repeat mstep.
  all: try destruct (List.length l <? List.length centers)%nat eqn:Hl;
    try destruct (List.length lr <? List.length centers)%nat eqn:Hr;
    cbn [orb]; repeat mstep.
  all: try (split; [reflexivity | split; reflexivity]).
  all: try apply Nat.ltb_ge in Hl; try apply Nat.ltb_ge in Hr.
  all: try (destruct (sphere_radii_ok lr centers 0 H3) as (rads & Hrads & _);
            [simpl; lia|]).
  all: try (destruct (sphere_colors_ok l centers 0 H3) as (cols & Hcols & _);
            [simpl; lia|]).
  all: try (destruct (List.length centers =? List.length l)%nat eqn:El;
            [apply Nat.eqb_eq in El | apply Nat.eqb_neq in El]).
  all: try (destruct (List.length centers =? List.length lr)%nat eqn:Er;
            [apply Nat.eqb_eq in Er | apply Nat.eqb_neq in Er]).
  all: cbn [negb]; repeat mstep.
  all: try rewrite Hrads; try rewrite Hcols; try rewrite Hpts; repeat mstep.
  all: try (split; [reflexivity | split; reflexivity]).
  all: unfold ret; cbn [fst snd heap collectable_actors stdout];
    rewrite ?list_update_last; unfold deref; cbn [heap].
  all: eexists; eexists.
  all: (split; [reflexivity|]).
  all: (split; [apply nth_error_last|]).
  all: (split; [reflexivity|]).
  all: (split; [reflexivity|]).
  all: try replace (List.length centers <? List.length l)%nat with false
    by (symmetry; apply Nat.ltb_ge; lia).
  all: try replace (List.length centers <? List.length l)%nat with true
    by (symmetry; apply Nat.ltb_lt; lia).
  all: try replace (List.length centers <? List.length lr)%nat with false
    by (symmetry; apply Nat.ltb_ge; lia).
  all: try replace (List.length centers <? List.length lr)%nat with true
    by (symmetry; apply Nat.ltb_lt; lia).
  all: cbn [app]; rewrite ?app_nil_r; reflexivity.
Qed.

End SpheresFacts.

Lemma Spheres_fails_exactly_witness :
  let out := Spheres black (PStr "w") [[0; 0; 0]; [1; 0; 0]] (RNum 1)
               (PSeq [PStr "red"; PStr "green"; PStr "blue"]) 1 8 empty_world in
  if spheres_fails [[0; 0; 0]; [1; 0; 0]] (RNum 1)
       (PSeq [PStr "red"; PStr "green"; PStr "blue"])
  then fst out = Raise RuntimeError
       /\ heap (snd out) = heap empty_world
       /\ collectable_actors (snd out) = collectable_actors empty_world
  else exists a actor,
      fst out = Ok a
      /\ deref (snd out) a = Some actor
      /\ name actor = "Spheres"
      /\ collectable_actors (snd out) = collectable_actors empty_world ++ [Some a]
      /\ stdout (snd out)
         = stdout empty_world
           ++ spheres_warnings [[0; 0; 0]; [1; 0; 0]] (RNum 1)
                (PSeq [PStr "red"; PStr "green"; PStr "blue"]).
Proof.
  apply (Spheres_fails_exactly black (PStr "w") [[0; 0; 0]; [1; 0; 0]]).
  repeat constructor.
Defined.

(** ** Latex *)

Lemma try_except_Ok {A : Type} (m : M A) (h : exn -> M A) (w w' : world) (a : A) :
  m w = (Ok a, w') -> try_except m h w = (Ok a, w').
Proof. intros H. unfold try_except. now rewrite H. Qed.

Lemma try_except_Raise {A : Type} (m : M A) (h : exn -> M A) (w w' : world)
  (e : exn) :
  m w = (Raise e, w') -> try_except m h w = h e w'.
Proof. intros H. unfold try_except. now rewrite H. Qed.

(** The guarded block of [Latex] either binds [vactor] to a new object or
    leaves it [None] after printing the four messages. *)
Lemma Latex_block (env : LatexEnv) (pos : coords) (alpha : R) (fromweb : bool)
  (w : world) :
  let block :=
    try_except
      ((if fromweb then build_img_web env else build_img_plt env) ;;;
       pic <- lift (Picture env "_lateximg.png") ;;
       vactor <- alloc pic ;;
       modify (Some vactor) (set_alpha alpha) ;;;
       modify (Some vactor) (add_style "SetOrigin") ;;;
       modify (Some vactor) (add_style "SetScale") ;;;
       modify (Some vactor) (set_position pos) ;;;
       try_except (lift (os_unlink env)) (fun _ => ret tt) ;;;
       ret (Some vactor))
      (fun _ =>
         printc "Error in Latex()" ;;;
         printc " latex or dvipng not installed?" ;;;
         printc " Try: usetex=False" ;;;
         printc " Try: sudo apt install dvipng" ;;;
         ret None) in
  (exists a w', block w = (Ok (Some a), w')
                /\ collectable_actors w' = collectable_actors w)
  \/ (exists w', block w = (Ok None, w')
                 /\ collectable_actors w' = collectable_actors w).
Proof.
  intros block. subst block. unfold try_except, bind.
  destruct ((if fromweb then build_img_web env else build_img_plt env) w)
    as [[u|e] w1] eqn:Hb.
  - assert (Hw1 : collectable_actors w1 = collectable_actors w).
    { destruct fromweb.
      - unfold build_img_web, try_except, lift in Hb.
        destruct (requests_get env) as [u'|e'].
        + injection Hb as _ <-. reflexivity.
        + destruct e'; simpl in Hb; injection Hb as _ <-; reflexivity.
      - unfold build_img_plt, lift in Hb. injection Hb as _ <-. reflexivity. }
    unfold lift. destruct (Picture env "_lateximg.png") as [pic|e].
    + left. simpl. destruct (os_unlink env); simpl; eexists; eexists;
        (split; [reflexivity | exact Hw1]).
    + right. simpl. eexists. split; [reflexivity | exact Hw1].
  - right. simpl. eexists. split; [reflexivity|].
    destruct fromweb.
    + unfold build_img_web, try_except, lift in Hb.
      destruct (requests_get env) as [u'|e'].
      * discriminate.
      * destruct e'; simpl in Hb; injection Hb as _ <-; reflexivity.
    + unfold build_img_plt, lift in Hb. injection Hb as _ <-. reflexivity.
Qed.

(** C4: [Latex] never gives [None] back.  It returns an actor, or it raises
    [AttributeError] after it has put [None] into the registry. *)
Theorem Latex_never_returns_None
  (env : LatexEnv) (formula : string) (pos : coords) (c : pyval) (s : R)
  (bg : pyval) (alpha res : R) (usetex fromweb : bool) (w : world) :
  let out := Latex env formula pos c s bg alpha res usetex fromweb w in
  (exists a, fst out = Ok (Some a)
             /\ collectable_actors (snd out) = collectable_actors w ++ [Some a])
  \/ (fst out = Raise AttributeError
      /\ collectable_actors (snd out) = collectable_actors w ++ [None]).
Proof.
  intros out. subst out. unfold Latex.
  destruct (Latex_block env pos alpha fromweb w)
    as [(a & w' & Hb & Hc) | (w' & Hb & Hc)].
  - left. exists a. rewrite (bind_Ok _ _ _ _ _ Hb).
    repeat mstep. unfold ret. simpl. rewrite Hc. auto.
  - right. rewrite (bind_Ok _ _ _ _ _ Hb).
    repeat mstep. unfold modify. rewrite bind_raise. simpl. rewrite Hc. auto.
Qed.

(** When the formula cannot be rendered, [Latex] leaves [None] in the
    registry and raises [AttributeError]; it returns neither an actor nor
    [None]. *)
Lemma Latex_failure_corrupts_registry :
  Latex no_latex_env "x^2" [0; 0; 0] (PStr "k") 1 PNone 1 30 false false
    empty_world
  = (Raise AttributeError,
     {| heap := []; pylists := []; collectable_actors := [None];
        stdout := latex_messages |}).
Proof. reflexivity. Qed.

(** The same when the web site cannot be reached and loading the image
    fails. *)
Lemma Latex_web_failure :
  Latex no_latex_env "x^2" [0; 0; 0] (PStr "k") 1 PNone 1 30 false true
    empty_world
  = (Raise AttributeError,
     {| heap := []; pylists := []; collectable_actors := [None];
        stdout := "Latex error. Web site unavailable?" :: latex_messages |}).
Proof. reflexivity. Qed.



(** ** The guards that return [None] *)

Lemma Points_empty (getColor : pyval -> R * R * R) r c alpha w :
  Points getColor [] r c alpha w = (Ok None, w).
Proof. reflexivity. Qed.

Lemma Arc_incorrect_input center point1 normal angle invert c alpha res w :
  normal = None \/ angle = None ->
  Arc center point1 None normal angle invert c alpha res w
  = (Ok None, say "Error in Arc(): incorrect input." w).
Proof.
  intros [-> | ->]; unfold Arc; [|destruct normal]; reflexivity.
Qed.

Lemma norm_nil_diff (p : coords) : np_sub p p = Ok (map (fun _ => 0) p).
Proof.
  unfold np_sub, np_binop. rewrite Nat.eqb_refl. f_equal.
  induction p as [|x p IH]; simpl; [reflexivity|].
  rewrite IH. f_equal. lra.
Qed.

Lemma norm_zeros (p : coords) : norm (map (fun _ => 0) p) = 0.
Proof.
  unfold norm.
  replace (fold_right (fun x acc => x * x + acc) 0 (map (fun _ => 0) p)) with 0.
  - apply sqrt_0.
  - induction p as [|x p IH]; simpl; [reflexivity|]. rewrite <- IH. lra.
Qed.

Lemma Spring_zero_length p coils r r2 thickness c alpha w :
  Spring p p coils r r2 thickness c alpha w = (Ok None, w).
Proof.
  unfold Spring. rewrite norm_nil_diff. mstep.
  rewrite norm_zeros. unfold truthy.
  destruct (Req_dec_T 0 0) as [_|H]; [reflexivity | exfalso; apply H; reflexivity].
Qed.

(** ** Tensors and ParametricShape *)

(** C5: a source name that is none of the three presets leaves [src]
    unbound, and [Tensors] raises [UnboundLocalError]. *)
Theorem Tensors_unknown_source_raises
  (domain : PolyData) (source : string)
  (useEigenValues isSymmetric threeAxes : bool) (scale : R)
  (maxScale length : option R) (c : pyval) (alpha : R) (w : world) :
  contains "ellip" source = false ->
  contains "cyl" source = false ->
  String.eqb source "cube" = false ->
  Tensors domain (SourceName source) useEigenValues isSymmetric threeAxes
    scale maxScale length c alpha w
  = (Raise UnboundLocalError, w).
Proof.
  intros H1 H2 H3. unfold Tensors. rewrite H1, H2, H3. reflexivity.
Qed.

Lemma Tensors_unknown_source_raises_witness :
  Tensors (pd_verts [] None) (SourceName "sphere") true true false 1 None None
    PNone 1 empty_world
  = (Raise UnboundLocalError, empty_world).
Proof.
  apply Tensors_unknown_source_raises; reflexivity.
Defined.

Lemma ParametricShape_unknown_name (s : string) c alpha res w :
  parametric_function s = None ->
  ParametricShape (NameStr s) c alpha res w
  = (Ok None,
     say "Available shape names:"
       (say "Error in ParametricShape: unknown name" w)).
Proof. intros H. unfold ParametricShape. rewrite H. reflexivity. Qed.

(** C6: [Tensors] builds and names its actor and never touches the registry. *)
Theorem Tensors_not_collected
  (domain : PolyData) (useEigenValues isSymmetric threeAxes : bool) (scale : R)
  (maxScale length : option R) (c : pyval) (alpha : R) (w : world) :
  let out := Tensors domain (SourceName "ellipsoid") useEigenValues isSymmetric
               threeAxes scale maxScale length c alpha w in
  exists a actor,
    fst out = Ok a
    /\ deref (snd out) a = Some actor
    /\ name actor = "Tensors"
    /\ collectable_actors (snd out) = collectable_actors w.
Proof.
  intros out. subst out. unfold Tensors.
  change (contains "ellip" "ellipsoid") with true. cbv iota.
  repeat mstep. unfold ret. simpl. rewrite list_update_last.
  eexists. eexists. split; [reflexivity|]. split.
  - unfold deref. simpl. apply nth_error_last.
  - split; reflexivity.
Qed.

(** [Tensors] leaves the registry as it was in every call. *)
Lemma Tensors_registry_unchanged domain source ue sy th scale ms len c alpha w :
  collectable_actors
    (snd (Tensors domain source ue sy th scale ms len c alpha w))
  = collectable_actors w.
Proof.
  unfold Tensors, bind.
  destruct source as [r|s].
  - destruct (deref w r); reflexivity.
  - simpl. destruct (contains "ellip" s); [reflexivity|].
    destruct (contains "cyl" s); [reflexivity|].
    destruct (String.eqb s "cube"); reflexivity.
Qed.

(** ** Arrow *)

Lemma sqrt_scaled (x t : R) :
  0 <= x -> sqrt (x * x * (1 + t²)) = x * sqrt (1 + t²).
Proof.
  intros Hx. rewrite sqrt_mult.
  - now rewrite sqrt_square.
  - nra.
  - unfold Rsqr. nra.
Qed.

Lemma hyp_pos (x y : R) : 0 < x -> x * x + y * y = x * x * (1 + (y / x)²).
Proof. intros Hx. unfold Rsqr. field. lra. Qed.

Lemma hyp_neg (x y : R) :
  x < 0 -> x * x + y * y = (- x) * (- x) * (1 + (y / x)²).
Proof. intros Hx. unfold Rsqr. field. lra. Qed.

Lemma sqrt_1_t2_pos (t : R) : 0 < sqrt (1 + t²).
Proof. apply sqrt_lt_R0. unfold Rsqr. nra. Qed.

(** The angle [arctan2 y x] is the polar angle of the point (x, y). *)
Lemma arctan2_polar (x y : R) :
  sqrt (x * x + y * y) * cos (arctan2 y x) = x
  /\ sqrt (x * x + y * y) * sin (arctan2 y x) = y.
Proof.
  unfold arctan2.
  destruct (Rlt_dec 0 x) as [Hx|Hx].
  - rewrite (hyp_pos x y Hx), sqrt_scaled by lra.
    rewrite cos_atan, sin_atan.
    pose proof (sqrt_1_t2_pos (y / x)) as Hs.
    split; field; lra.
  - destruct (Rlt_dec x 0) as [Hx'|Hx'].
    + rewrite (hyp_neg x y Hx'), sqrt_scaled by lra.
      pose proof (sqrt_1_t2_pos (y / x)) as Hs.
      destruct (Rle_dec 0 y) as [Hy|Hy].
      * rewrite neg_cos, neg_sin, cos_atan, sin_atan. split; field; lra.
      * rewrite cos_minus, sin_minus, cos_PI, sin_PI, cos_atan, sin_atan.
        split; field; lra.
    + assert (x = 0) by lra. subst x.
      replace (0 * 0 + y * y) with (y * y) by ring.
      destruct (Rlt_dec 0 y) as [Hy|Hy].
      * rewrite sqrt_square, cos_PI2, sin_PI2 by lra. split; ring.
      * destruct (Rlt_dec y 0) as [Hy'|Hy'].
        -- replace (y * y) with ((- y) * (- y)) by ring.
           rewrite sqrt_square, cos_neg, sin_neg, cos_PI2, sin_PI2 by lra.
           split; ring.
        -- assert (y = 0) by lra. subst y.
           replace (0 * 0) with 0 by ring.
           rewrite sqrt_0, cos_0, sin_0. split; ring.
Qed.

Lemma deg2rad_rad2deg (x : R) : deg2rad (rad2deg x) = x.
Proof. unfold deg2rad, rad2deg. field. apply PI_neq0. Qed.

Lemma deg2rad_m90 : deg2rad (-90) = - (PI / 2).
Proof. unfold deg2rad. field. Qed.

(** A unit vector is recovered from the angles [Arrow] computes from it. *)
Lemma unit_from_angles (ax ay az : R) :
  ax * ax + ay * ay + az * az = 1 ->
  sin (acos az) * cos (arctan2 ay ax) = ax
  /\ sin (acos az) * sin (arctan2 ay ax) = ay
  /\ cos (acos az) = az.
Proof.
  intros Hu.
  assert (Hz : -1 <= az <= 1) by nra.
  rewrite sin_acos, cos_acos by assumption.
  replace (1 - az²) with (ax * ax + ay * ay) by (unfold Rsqr; lra).
  destruct (arctan2_polar ax ay) as [Hc Hs]. auto.
Qed.

Lemma norm3 (x y z : R) : norm [x; y; z] = sqrt (x * x + (y * y + (z * z + 0))).
Proof. reflexivity. Qed.

Lemma norm3_zero (x y z : R) :
  norm [x; y; z] = 0 -> x = 0 /\ y = 0 /\ z = 0.
Proof.
  rewrite norm3. intros H. apply sqrt_eq_0 in H; [|nra].
  repeat split; nra.
Qed.

Lemma norm3_unit (x y z : R) :
  norm [x; y; z] <> 0 ->
  let L := norm [x; y; z] in
  (x / L) * (x / L) + (y / L) * (y / L) + (z / L) * (z / L) = 1.
Proof.
  intros HL L.
  assert (HLL : L * L = x * x + y * y + z * z).
  { subst L. rewrite norm3. rewrite sqrt_sqrt; nra. }
  field_simplify_eq; [|exact HL]. lra.
Qed.

(** The transform of [Arrow] for a length [L], a section factor [k] and two
    angles whose sines and cosines describe the direction [d]: the axis of
    the template goes onto [d], a point at height [t] of the template onto
    the plane through [t d] perpendicular to [d], and the cross-section is
    scaled by [k]. *)
Lemma arrow_transform (L k phi theta dx dy dz : R) :
  L * (sin theta * cos phi) = dx ->
  L * (sin theta * sin phi) = dy ->
  L * cos theta = dz ->
  let ops := [RotateZ (rad2deg phi); RotateY (rad2deg theta); RotateY (-90);
              Scale L k k] in
  (forall t, apply_transform ops (t, 0, 0) = (t * dx, t * dy, t * dz))
  /\ (forall t u v,
        dot3 (apply_transform ops (t, u, v)) (dx, dy, dz)
        = t * dot3 (dx, dy, dz) (dx, dy, dz))
  /\ (forall u v,
        dot3 (apply_transform ops (0, u, v)) (apply_transform ops (0, u, v))
        = k * k * (u * u + v * v)).
Proof.
  intros Hx Hy Hz ops. subst ops.
  unfold apply_transform. simpl fold_right. unfold apply_op, dot3.
  rewrite !deg2rad_rad2deg, deg2rad_m90.
  rewrite cos_neg, sin_neg, cos_PI2, sin_PI2.
  pose proof (sin2_cos2 phi) as Hp. pose proof (sin2_cos2 theta) as Ht.
  unfold Rsqr in Hp, Ht.
  set (sp := sin phi) in *. set (cp := cos phi) in *.
  set (st := sin theta) in *. set (ct := cos theta) in *.
  clearbody sp cp st ct. subst dx dy dz.
  split; [|split].
  - intros t. f_equal; [f_equal|]; ring.
  - intros t u v. nsatz.
  - intros u v. nsatz.
Qed.

(** C7: for points of three coordinates [Arrow] returns for every pair, the
    two equal ones included - the division by the length is then skipped.
    The result is the arrow template of the library under a transform that
    carries the axis of the template, from its tail at the origin to its tip
    at (1, 0, 0), onto the segment from the origin to
    [endPoint - startPoint]; every cross-section of the template stays
    perpendicular to that direction and is scaled by the section factor; the
    actor is placed at [startPoint]. *)
Theorem Arrow_points_from_start_to_end
  (x0 y0 z0 x1 y1 z1 : R) (s : option R) (c : pyval) (al res : R)
  (w : world) :
  exists a w' actor ops params,
    Arrow [x0; y0; z0] [x1; y1; z1] s c al res w = (Ok a, w')
    /\ deref w' a = Some actor
    /\ poly actor = pd_transform ops (pd_source "vtkArrowSource" params [])
    /\ position actor = Some [x0; y0; z0]
    /\ (forall t,
          apply_transform ops (t, 0, 0)
          = (t * (x1 - x0), t * (y1 - y0), t * (z1 - z0)))
    /\ (forall t u v,
          dot3 (apply_transform ops (t, u, v)) (x1 - x0, y1 - y0, z1 - z0)
          = t * dot3 (x1 - x0, y1 - y0, z1 - z0)
                     (x1 - x0, y1 - y0, z1 - z0))
    /\ (forall u v,
          let k := arrow_section s (norm [x1 - x0; y1 - y0; z1 - z0]) in
          dot3 (apply_transform ops (0, u, v)) (apply_transform ops (0, u, v))
          = k * k * (u * u + v * v)).
Proof.
  unfold Arrow.
  change (np_sub [x1; y1; z1] [x0; y0; z0])
    with (Ok [x1 - x0; y1 - y0; z1 - z0]).
  mstep.
  set (dx := x1 - x0). set (dy := y1 - y0). set (dz := z1 - z0).
  set (L := norm [dx; dy; dz]).
  assert (Hsc : match s with
                | Some s' => if truthy s'
                             then Scale L (800.0 * s') (800.0 * s')
                             else Scale L L L
                | None => Scale L L L
                end = Scale L (arrow_section s L) (arrow_section s L)).
  { unfold arrow_section. destruct s as [s'|]; [destruct (truthy s')|];
      reflexivity. }
  rewrite Hsc. clear Hsc.
  unfold truthy at 1. fold L.
  destruct (Req_dec_T L 0) as [HL0|HL0].
  - mstep. cbn [item nth_error]. repeat mstep.
    unfold ret. cbn [fst snd]. rewrite !list_update_last.
    do 5 eexists. split; [reflexivity|]. split.
    { unfold deref. cbn [heap]. apply nth_error_last. }
    split; [reflexivity|]. split; [reflexivity|].
    destruct (norm3_zero dx dy dz HL0) as (Hx & Hy & Hz).
    apply arrow_transform;
      [rewrite HL0, Hx | rewrite HL0, Hy | rewrite HL0, Hz]; ring.
  - unfold np_div. destruct (Req_dec_T L 0) as [HL0'|_]; [contradiction|].
    mstep. cbn [map item nth_error]. repeat mstep.
    unfold ret. cbn [fst snd]. rewrite !list_update_last.
    do 5 eexists. split; [reflexivity|]. split.
    { unfold deref. cbn [heap]. apply nth_error_last. }
    split; [reflexivity|]. split; [reflexivity|].
    destruct (unit_from_angles (dx / L) (dy / L) (dz / L)
                (norm3_unit dx dy dz HL0)) as (Hx & Hy & Hz).
    apply arrow_transform; [rewrite Hx | rewrite Hy | rewrite Hz];
      field; exact HL0.
Qed.

(** ** DashedLine *)

Lemma length_map2 (f : R -> R -> R) (a b : coords) :
  List.length a = List.length b -> List.length (map2 f a b) = List.length a.
Proof.
  revert b. induction a as [|x a IH]; intros [|y b] H; simpl in *;
    try discriminate; auto.
Qed.

Lemma np_binop_same (f : R -> R -> R) (a b : coords) :
  List.length a = List.length b -> np_binop f a b = Ok (map2 f a b).
Proof.
  intros H. unfold np_binop. apply Nat.eqb_eq in H. now rewrite H.
Qed.

Lemma vtk_point_3 (p : coords) :
  List.length p = 3%nat -> vtk_point p = Ok tt.
Proof. intros H. unfold vtk_point. now rewrite H. Qed.

Lemma dash_ok (p0 p1 v : coords) (n i : Z) :
  List.length p0 = 3%nat -> List.length p1 = 3%nat ->
  List.length v = 3%nat ->
  (1 <= n)%Z -> (1 <= i <= n + 1)%Z ->
  dash p0 p1 v n i = Ok (if Z.odd i then [dash_at p0 p1 v n i] else []).
Proof.
  intros H0 H1 Hv Hn Hi.
  assert (Hlen : List.length p0 = List.length v) by congruence.
  assert (Hq : forall t, List.length (map2 Rplus p0 (np_scale t v)) = 3%nat).
  { intros t. rewrite length_map2; [exact H0|].
    unfold np_scale. now rewrite length_map. }
  unfold dash, dash_at.
  assert (Hn' : 0 < IZR n) by (apply IZR_lt; lia).
  assert (Hi1 : IZR i - 1 <= IZR n).
  { replace (IZR i - 1) with (IZR (i - 1)) by (rewrite minus_IZR; reflexivity).
    apply IZR_le. lia. }
  destruct (Rgt_dec ((IZR i - 1) / IZR n) 1) as [H|_].
  { exfalso. apply Rgt_lt in H.
    apply (Rmult_lt_compat_r (IZR n)) in H; [|exact Hn'].
    unfold Rdiv in H. rewrite Rmult_assoc, Rinv_l in H; lra. }
  destruct (Z.odd i); [|reflexivity].
  unfold np_add. rewrite np_binop_same
    by (unfold np_scale; now rewrite length_map).
  cbn [rbind].
  destruct (Z.leb_spec i n) as [Hle|Hgt].
  - destruct (Rgt_dec (IZR i / IZR n) 1) as [H|_].
    { exfalso. apply Rgt_lt in H.
      apply (Rmult_lt_compat_r (IZR n)) in H; [|exact Hn'].
      unfold Rdiv in H. rewrite Rmult_assoc, Rinv_l in H; [|lra].
      apply IZR_le in Hle. lra. }
    rewrite np_binop_same by (unfold np_scale; now rewrite length_map).
    cbn [rbind]. rewrite !vtk_point_3 by apply Hq. reflexivity.
  - destruct (Rgt_dec (IZR i / IZR n) 1) as [_|H];
      [cbn [rbind]; rewrite (vtk_point_3 _ (Hq _)), (vtk_point_3 _ H1);
       reflexivity|].
    exfalso. apply H. apply Rlt_gt.
    apply (Rmult_lt_reg_r (IZR n)); [exact Hn'|].
    unfold Rdiv. rewrite Rmult_assoc, Rinv_l by lra.
    apply IZR_lt in Hgt. lra.
Qed.

Lemma dash_loop_ok (p0 p1 v : coords) (n : Z) (l : list Z) :
  List.length p0 = 3%nat -> List.length p1 = 3%nat ->
  List.length v = 3%nat ->
  (1 <= n)%Z ->
  Forall (fun i => (1 <= i <= n + 1)%Z) l ->
  dash_loop p0 p1 v n l = Ok (map (dash_at p0 p1 v n) (filter Z.odd l)).
Proof.
  intros H0 H1 Hv Hn Hl. induction Hl as [|i l Hi Hl IH]; [reflexivity|].
  simpl. rewrite (dash_ok p0 p1 v n i H0 H1 Hv Hn Hi). cbn [rbind]. rewrite IH.
  cbn [rbind]. destruct (Z.odd i); reflexivity.
Qed.

Lemma dash_range_bounds (n : Z) :
  Forall (fun i => (1 <= i <= n + 1)%Z) (dash_range n).
Proof.
  unfold dash_range. apply Forall_forall. intros i Hi.
  apply in_map_iff in Hi. destruct Hi as (k & <- & Hk).
  apply in_seq in Hk. lia.
Qed.

Lemma Zodd_of_nat (k : nat) : Z.odd (Z.of_nat k) = Nat.odd k.
Proof.
  induction k as [|k IH]; [reflexivity|].
  rewrite Nat2Z.inj_succ, Z.odd_succ, Nat.odd_succ.
  rewrite <- Z.negb_odd, <- Nat.negb_odd, IH. reflexivity.
Qed.

Lemma count_odd (a m : nat) :
  List.length (filter Nat.odd (seq a m))
  = ((m + (if Nat.odd a then 1 else 0)) / 2)%nat.
Proof.
  revert a. induction m as [|m IH]; intros a.
  - simpl. destruct (Nat.odd a); reflexivity.
  - simpl seq. simpl filter. specialize (IH (S a)).
    rewrite Nat.odd_succ, <- Nat.negb_odd in IH.
    destruct (Nat.odd a); simpl negb in IH; simpl List.length; rewrite IH.
    + replace (S m + 1)%nat with (m + 0 + 1 * 2)%nat by lia.
      rewrite Nat.div_add by lia. lia.
    + f_equal. lia.
Qed.

Lemma filter_odd_map (l : list nat) :
  filter Z.odd (map Z.of_nat l) = map Z.of_nat (filter Nat.odd l).
Proof.
  induction l as [|k l IH]; [reflexivity|].
  simpl. rewrite Zodd_of_nat, IH. destruct (Nat.odd k); reflexivity.
Qed.

(** The loop emits one dash more than half the number of parts. *)
Lemma dash_count (n : Z) :
  (0 <= n)%Z ->
  List.length (filter Z.odd (dash_range n)) = Z.to_nat (n / 2 + 1).
Proof.
  intros Hn. unfold dash_range.
  rewrite filter_odd_map, length_map, count_odd.
  change (Nat.odd 1) with true. cbv iota.
  assert (H2 : (0 <= n / 2)%Z) by (apply Z.div_pos; lia).
  apply Nat2Z.inj. rewrite Nat2Z.inj_div, Nat2Z.inj_add, !Z2Nat.id by lia.
  change (Z.of_nat 1) with 1%Z. change (Z.of_nat 2) with 2%Z.
  replace (n + 1 + 1)%Z with (n + 1 * 2)%Z by lia.
  rewrite Z.div_add by lia. reflexivity.
Qed.

(** The number of parts [int(L/s)] and the size of a part. *)
Lemma parts_bounds (L s : R) :
  0 < s <= L ->
  let n := py_int (L / s) in
  (1 <= n)%Z
  /\ IZR n <= L / s < IZR n + 1
  /\ s <= L / IZR n < 2 * s.
Proof.
  intros [Hs HL] n.
  assert (Hr : 1 <= L / s).
  { apply (Rmult_le_reg_r s); [exact Hs|].
    unfold Rdiv. rewrite Rmult_assoc, Rinv_l; lra. }
  assert (Hn : n = Int_part (L / s)).
  { subst n. unfold py_int. destruct (Rle_dec 0 (L / s)); [reflexivity | lra]. }
  destruct (base_Int_part (L / s)) as [Hlo Hhi]. rewrite <- Hn in Hlo, Hhi.
  assert (H1 : (1 <= n)%Z).
  { assert (0 < IZR n) by lra. apply lt_IZR in H. lia. }
  assert (Hpos : 0 < IZR n) by (apply IZR_lt; lia).
  assert (Hn1 : 1 <= IZR n) by (apply IZR_le; lia).
  split; [exact H1|]. split; [lra|].
  assert (HLs : L = L / s * s) by (field; lra).
  split.
  - apply (Rmult_le_reg_r (IZR n)); [exact Hpos|].
    unfold Rdiv at 1. rewrite Rmult_assoc, Rinv_l by lra. nra.
  - apply (Rmult_lt_reg_r (IZR n)); [exact Hpos|].
    unfold Rdiv at 1. rewrite Rmult_assoc, Rinv_l by lra. nra.
Qed.

(** Half the number of parts, rounded up, is within 1/2 of L/(2s). *)
Lemma half_parts_close (n : Z) (r : R) :
  (1 <= n)%Z -> IZR n <= r < IZR n + 1 ->
  Rabs (IZR ((n + 1) / 2) - r / 2) <= 1 / 2.
Proof.
  intros Hn Hr.
  pose proof (Z.div_mod (n + 1) 2 ltac:(lia)) as Hdm.
  pose proof (Z.mod_pos_bound (n + 1) 2 ltac:(lia)) as Hmod.
  set (m := ((n + 1) / 2)%Z) in *.
  assert (Hlo : (2 * m <= n + 1)%Z) by lia.
  assert (Hhi : (n <= 2 * m)%Z) by lia.
  apply IZR_le in Hlo, Hhi.
  rewrite plus_IZR, mult_IZR in Hlo. rewrite mult_IZR in Hhi.
  apply Rabs_le. lra.
Qed.

(** When the number of parts is even the last dash, past the last part, has
    both ends at [p1]. *)
Lemma map2_add_sub (p0 p1 : coords) :
  List.length p0 = List.length p1 ->
  map2 Rplus p0 (np_scale 1 (map2 Rminus p1 p0)) = p1.
Proof.
  revert p1. induction p0 as [|x p0 IH]; intros [|y p1] H;
    try discriminate; auto.
  injection H as H. specialize (IH p1 H). unfold np_scale in *.
  cbn [map2 map]. rewrite IH. f_equal. lra.
Qed.

Lemma last_dash_degenerate (p0 p1 : coords) (n : Z) :
  List.length p0 = List.length p1 -> (1 <= n)%Z ->
  dash_at p0 p1 (map2 Rminus p1 p0) n (n + 1) = (p1, p1).
Proof.
  intros Hlen Hn. unfold dash_at.
  destruct (Z.leb_spec (n + 1) n) as [H|_]; [lia|].
  f_equal. rewrite plus_IZR.
  replace ((IZR n + 1 - 1) / IZR n) with 1.
  - now apply map2_add_sub.
  - field. apply not_0_IZR. lia.
Qed.

(** What [DashedLine] builds on one segment between two points of three
    coordinates with a spacing not above its length. *)
Lemma DashedLine_segment
  (p0 p1 : coords) (s : R) (c : pyval) (alpha lw : R) (w : world) :
  List.length p0 = 3%nat ->
  List.length p1 = 3%nat ->
  0 < s <= norm (map2 Rminus p1 p0) ->
  let v := map2 Rminus p1 p0 in
  let n := py_int (norm v / s) in
  exists a w' actor,
    DashedLine (LPoint p0) (Some p1) (Some s) c alpha lw w = (Ok a, w')
    /\ deref w' a = Some actor
    /\ poly actor
       = pd_segments (map (dash_at p0 p1 v n) (filter Z.odd (dash_range n))).
Proof.
  intros H0 H1 Hs v n.
  assert (Hlen : List.length p0 = List.length p1) by congruence.
  assert (Hdim : (1 <= List.length p0 <= 3)%nat) by lia.
  destruct (parts_bounds _ _ Hs) as (Hn & _ & _). fold v n in Hn.
  unfold DashedLine.
  assert (Hd : detect_xy (LPoint p0) (Some p1) = Ok (LPoint p0, Some p1)).
  { unfold detect_xy. cbn [line_len].
    destruct (Nat.ltb_spec 3 (List.length p0)); [lia | reflexivity]. }
  rewrite Hd. mstep.
  assert (Hf : first_isSequence (LPoint p0) = Ok false).
  { destruct p0; [simpl in Hdim; lia | reflexivity]. }
  rewrite Hf. repeat mstep.
  assert (Ht : truthy_opt (Some s) = true).
  { unfold truthy_opt, truthy. destruct (Req_dec_T s 0); [lra | reflexivity]. }
  rewrite Ht. repeat mstep.
  assert (Ho : dashed_outer [p0; p1] s
                 {| dl_segs := []; dl_poly := false;
                    dl_p0 := LPoint p0; dl_p1 := Some p1 |}
               = Ok {| dl_segs := map (dash_at p0 p1 v n)
                                    (filter Z.odd (dash_range n));
                       dl_poly := true;
                       dl_p0 := LPoint p0; dl_p1 := Some p1 |}).
  { cbn [dashed_outer]. unfold np_sub.
    rewrite np_binop_same by (symmetry; exact Hlen). cbn [rbind]. fold v.
    unfold int_quotient. destruct (Req_dec_T s 0) as [E|_]; [lra|].
    cbn [rbind]. fold n.
    destruct (Z.eqb_spec n 0) as [E|_]; [lia|].
    rewrite (dash_loop_ok p0 p1 v n (dash_range n)).
    - reflexivity.
    - exact H0.
    - exact H1.
    - subst v. rewrite length_map2 by (symmetry; exact Hlen). exact H1.
    - exact Hn.
    - apply dash_range_bounds. }
  rewrite Ho. repeat mstep. cbn [dl_poly dl_segs dl_p0 dl_p1]. repeat mstep.
  unfold ret. rewrite !list_update_last.
  do 3 eexists. split; [reflexivity|]. split.
  - unfold deref. cbn [heap]. apply nth_error_last.
  - reflexivity.
Qed.

(** The size of a part is the spacing exactly when the spacing divides the
    length. *)
Lemma part_is_spacing (L s : R) :
  0 < s <= L ->
  let n := py_int (L / s) in
  L / IZR n = s <-> exists k : Z, L = IZR k * s.
Proof.
  intros Hs n. destruct (parts_bounds L s Hs) as (Hn & Hr & _). fold n in Hn, Hr.
  assert (Hpos : 0 < IZR n) by (apply IZR_lt; lia).
  split.
  - intros H. exists n. rewrite <- H. field. lra.
  - intros [k Hk].
    assert (Hq : L / s = IZR k) by (rewrite Hk; field; lra).
    assert (Hkn : k = n).
    { rewrite Hq in Hr. destruct Hr as [Hlo Hhi].
      apply le_IZR in Hlo. rewrite <- plus_IZR in Hhi. apply lt_IZR in Hhi.
      lia. }
    subst k. rewrite Hk. field. lra.
Qed.

(** C8, as amended: between two points of three coordinates at distance L,
    with a spacing s not above L and n = int(L/s), [DashedLine] cuts the
    segment into n parts of size L/n, which is at least s and below 2s and
    equals s exactly when s divides L, and emits the parts of odd rank; with
    the dash past the last part that makes n/2 + 1 dashes, and the number of
    dashes within the segment, n/2 rounded up, is within 1/2 of L/(2s). *)
Theorem DashedLine_dashes
  (p0 p1 : coords) (s : R) (c : pyval) (alpha lw : R) (w : world) :
  List.length p0 = 3%nat ->
  List.length p1 = 3%nat ->
  0 < s <= norm (map2 Rminus p1 p0) ->
  let v := map2 Rminus p1 p0 in
  let L := norm v in
  let n := py_int (L / s) in
  exists a w' actor,
    DashedLine (LPoint p0) (Some p1) (Some s) c alpha lw w = (Ok a, w')
    /\ deref w' a = Some actor
    /\ poly actor
       = pd_segments (map (dash_at p0 p1 v n) (filter Z.odd (dash_range n)))
    /\ (1 <= n)%Z
    /\ List.length (filter Z.odd (dash_range n)) = Z.to_nat (n / 2 + 1)
    /\ s <= L / IZR n < 2 * s
    /\ (L / IZR n = s <-> exists k : Z, L = IZR k * s)
    /\ Rabs (IZR ((n + 1) / 2) - L / (2 * s)) <= 1 / 2.
Proof.
  intros H0 H1 Hs v L n.
  destruct (DashedLine_segment p0 p1 s c alpha lw w H0 H1 Hs)
    as (a & w' & actor & Hrun & Hd & Hp).
  destruct (parts_bounds _ _ Hs) as (Hn & Hr & Hsize).
  fold v L n in Hn, Hr, Hsize.
  exists a, w', actor.
  split; [exact Hrun|]. split; [exact Hd|]. split; [exact Hp|].
  split; [exact Hn|]. split; [apply dash_count; lia|].
  split; [exact Hsize|]. split; [apply (part_is_spacing _ _ Hs)|].
  replace (L / (2 * s)) with (L / s / 2) by (field; lra).
  apply half_parts_close; assumption.
Qed.

Lemma seg_norm : norm (map2 Rminus seg_end seg_start) = 10.
Proof.
  unfold norm, seg_end, seg_start. cbn [map2 fold_right].
  replace ((10 - 0) * (10 - 0) + ((0 - 0) * (0 - 0) + ((0 - 0) * (0 - 0) + 0)))
    with (10 * 10) by ring.
  apply sqrt_square. lra.
Qed.

Lemma seg_parts : py_int (norm (map2 Rminus seg_end seg_start) / 3) = 3%Z.
Proof.
  rewrite seg_norm. unfold py_int.
  destruct (Rle_dec 0 (10 / 3)) as [_|H]; [|lra].
  symmetry. apply Int_part_spec. lra.
Qed.

(** C8, as stated, fails on the size of the parts: a segment of length 10
    with spacing 3 is cut into 3 parts, and the first dash has length 10/3. *)
Lemma DashedLine_part_longer_than_spacing :
  exists a w' actor q0 q1 rest,
    DashedLine (LPoint seg_start) (Some seg_end) (Some 3) (PStr "red") 1 1
      empty_world = (Ok a, w')
    /\ deref w' a = Some actor
    /\ poly actor = pd_segments ((q0, q1) :: rest)
    /\ norm (map2 Rminus q1 q0) = 10 / 3
    /\ 10 / 3 <> 3.
Proof.
  destruct (DashedLine_segment seg_start seg_end 3 (PStr "red") 1 1 empty_world)
    as (a & w' & actor & Hrun & Hd & Hp).
  - reflexivity.
  - reflexivity.
  - rewrite seg_norm. lra.
  - rewrite seg_parts in Hp. cbn [dash_range Z.to_nat Z.add Pos.add Pos.to_nat
      Pos.iter_op Nat.add seq map filter Z.odd Z.of_nat Pos.of_succ_nat
      Pos.succ] in Hp.
    do 6 eexists. split; [exact Hrun|]. split; [exact Hd|].
    split; [exact Hp|]. split; [|lra].
    unfold dash_at, seg_start, seg_end, np_scale, norm.
    cbn [Z.leb Z.compare Pos.compare Pos.compare_cont map2 map fold_right].
    match goal with
    | |- sqrt ?x = _ => replace x with ((10 / 3) * (10 / 3)) by field
    end.
    apply sqrt_square. lra.
Qed.

Lemma DashedLine_dashes_witness :
  let v := map2 Rminus seg_end seg_start in
  let L := norm v in
  let n := py_int (L / 3) in
  exists a w' actor,
    DashedLine (LPoint seg_start) (Some seg_end) (Some 3) (PStr "red") 1 1
      empty_world = (Ok a, w')
    /\ deref w' a = Some actor
    /\ poly actor
       = pd_segments (map (dash_at seg_start seg_end v n)
                        (filter Z.odd (dash_range n)))
    /\ (1 <= n)%Z
    /\ List.length (filter Z.odd (dash_range n)) = Z.to_nat (n / 2 + 1)
    /\ 3 <= L / IZR n < 2 * 3
    /\ (L / IZR n = 3 <-> exists k : Z, L = IZR k * 3)
    /\ Rabs (IZR ((n + 1) / 2) - L / (2 * 3)) <= 1 / 2.
Proof.
  apply (DashedLine_dashes seg_start seg_end 3 (PStr "red") 1 1 empty_world).
  - reflexivity.
  - reflexivity.
  - rewrite seg_norm. lra.
Defined.

(** ** KSpline *)

Lemma cubic_0 (a b : knot) : cubic a b 0 = ky a.
Proof. unfold cubic. ring. Qed.

Lemma cubic_1 (a b : knot) : cubic a b 1 = ky b.
Proof. unfold cubic. ring. Qed.

Lemma StronglySorted_snoc (l : list R) (x : R) :
  StronglySorted Rlt l -> Forall (fun y => y < x) l ->
  StronglySorted Rlt (l ++ [x]).
Proof.
  intros Hs Hf. induction Hs as [|y l Hs IH Hy]; simpl.
  - constructor; constructor.
  - inversion Hf as [|? ? Hyx Hf']; subst.
    constructor; [apply IH; assumption|].
    apply Forall_app. split; [assumption | constructor; [assumption | constructor]].
Qed.

Lemma last_In_or_default {A : Type} (l : list A) (d : A) :
  l <> [] -> In (last l d) l.
Proof.
  induction l as [|x l IH]; [congruence|]. intros _.
  destruct l as [|y l]; [left; reflexivity|].
  right. apply IH. discriminate.
Qed.

Lemma last_cons {A : Type} (l : list A) (c b : A) :
  last (c :: l) b = last l c.
Proof.
  revert c b. induction l as [|d l IH]; intros c b; [reflexivity|].
  change (last (c :: d :: l) b) with (last (d :: l) b).
  rewrite !IH. reflexivity.
Qed.

(** The first interval answers at its left end. *)
Lemma find_eval_first (a b : knot) (rest : list knot) :
  kx a < kx b ->
  find_eval (a :: b :: rest) (kx a) = ky a.
Proof.
  intros Hab. simpl.
  replace ((kx a - kx a) / (kx b - kx a)) with 0 by (unfold Rdiv; ring).
  destruct rest; [apply cubic_0|].
  destruct (Rle_dec (kx a) (kx b)); [apply cubic_0 | lra].
Qed.

(** The last interval answers at its right end. *)
Lemma find_eval_last (a b : knot) (rest : list knot) :
  StronglySorted Rlt (map kx (a :: b :: rest)) ->
  find_eval (a :: b :: rest) (kx (last rest b)) = ky (last rest b).
Proof.
  revert a b. induction rest as [|c rest IH]; intros a b Hs.
  - simpl. inversion Hs as [|? ? _ Hab]; subst.
    inversion Hab as [|? ? Hlt _]; subst.
    replace ((kx b - kx a) / (kx b - kx a)) with 1 by (field; lra).
    apply cubic_1.
  - inversion Hs as [|? ? Hs' _]; subst.
    rewrite (last_cons rest c b).
    assert (Hb : kx b < kx (last rest c)).
    { inversion Hs' as [|? ? _ Hbl]; subst.
      rewrite Forall_forall in Hbl. apply Hbl.
      change (kx c :: map kx rest) with (map kx (c :: rest)).
      apply in_map. rewrite <- (last_cons rest c b).
      apply last_In_or_default. discriminate. }
    change (find_eval (a :: b :: c :: rest) (kx (last rest c)))
      with (if Rle_dec (kx (last rest c)) (kx b)
            then cubic a b ((kx (last rest c) - kx a) / (kx b - kx a))
            else find_eval (b :: c :: rest) (kx (last rest c))).
    destruct (Rle_dec (kx (last rest c)) (kx b)) as [H|_]; [lra|].
    apply IH. exact Hs'.
Qed.

Section KnotFacts.

Variables (bias tension continuity : R).

Lemma interior_knots_kx (prev : R * R) (l : list (R * R)) :
  map kx (interior_knots bias tension continuity prev l)
  = map fst (removelast l).
Proof.
  revert prev. induction l as [|cur l IH]; intros prev; [reflexivity|].
  destruct l as [|next l]; [reflexivity|].
  change (interior_knots bias tension continuity prev (cur :: next :: l))
    with (interior_knot bias tension continuity prev cur next
          :: interior_knots bias tension continuity cur (next :: l)).
  change (removelast (cur :: next :: l)) with (cur :: removelast (next :: l)).
  rewrite !map_cons, IH. reflexivity.
Qed.

Lemma knots_kx (closed : bool) (p0 : R * R) (rest : list (R * R)) :
  rest <> [] ->
  map kx (knots bias tension continuity closed p0 rest) = map fst (p0 :: rest).
Proof.
  intros Hne. unfold knots. cbn [map kx].
  rewrite map_app, interior_knots_kx. cbn [map kx]. f_equal.
  transitivity (map fst (removelast rest ++ [last rest p0])).
  - rewrite map_app. reflexivity.
  - now rewrite <- app_removelast_last.
Qed.

(** The knots start with the knot of the first point and end with the knot
    of the last. *)
Lemma knots_shape (closed : bool) (p0 : R * R) (rest : list (R * R)) :
  exists a b tl,
    knots bias tension continuity closed p0 rest = a :: b :: tl
    /\ kx a = fst p0 /\ ky a = snd p0
    /\ kx (last tl b) = fst (last rest p0)
    /\ ky (last tl b) = snd (last rest p0).
Proof.
  unfold knots.
  destruct (interior_knots bias tension continuity p0 rest) as [|i1 il].
  - do 3 eexists. split; [reflexivity|]. repeat split.
  - do 3 eexists. split; [reflexivity|]. rewrite last_last. repeat split.
Qed.

End KnotFacts.

Lemma last_of_map {A B : Type} (f : A -> B) (l : list A) (d : A) :
  last (map f l) (f d) = f (last l d).
Proof.
  induction l as [|x l IH]; [reflexivity|].
  destruct l as [|y l]; [reflexivity|]. exact IH.
Qed.

Lemma sorted_le_last (l : list R) (d : R) :
  StronglySorted Rlt l -> Forall (fun y => y <= last l d) l.
Proof.
  intros Hs. induction Hs as [|x l Hs IH Hx]; [constructor|].
  destruct l as [|y l].
  - constructor; [simpl; lra | constructor].
  - rewrite !last_cons.
    assert (Hl : last (y :: l) d = last l y) by apply last_cons.
    rewrite Hl in IH. constructor; [|exact IH].
    rewrite Forall_forall in Hx. apply Rlt_le. apply Hx.
    rewrite <- Hl. apply last_In_or_default. discriminate.
Qed.

Lemma clamp_below (lo hi t : R) : lo < hi -> t <= lo -> clamp lo hi t = lo.
Proof.
  intros Hlh Ht. unfold clamp.
  destruct (Rlt_dec t lo); destruct (Rgt_dec _ hi); lra.
Qed.

Lemma clamp_above (lo hi t : R) : lo < hi -> hi <= t -> clamp lo hi t = hi.
Proof.
  intros Hlh Ht. unfold clamp.
  destruct (Rlt_dec t lo); [lra|]. destruct (Rgt_dec t hi); lra.
Qed.

(** The closure of a closed spline: before the first parameter and from one
    unit after the last on, it takes the value of its first point. *)
Lemma Evaluate_closed_ends (s : KochanekSpline) (p0 : R * R)
  (rest : list (R * R)) (t : R) :
  Closed s = true ->
  spline_points s = p0 :: rest ->
  rest <> [] ->
  StronglySorted Rlt (map fst (p0 :: rest)) ->
  t <= fst p0 \/ fst (last rest p0) + 1 <= t ->
  Evaluate s t = snd p0.
Proof.
  intros Hc Hp Hne Hs Ht. unfold Evaluate. rewrite Hp, Hc.
  destruct rest as [|p1 rest2]; [congruence|].
  set (rest := p1 :: rest2) in *.
  set (closing := (fst (last rest p0) + 1, snd p0)).
  set (rest' := rest ++ [closing]).
  assert (Hlast : last rest' p0 = closing) by apply last_last.
  assert (Hne' : rest' <> []).
  { unfold rest'. intros E. apply app_eq_nil in E. destruct E; discriminate. }
  assert (Hs' : StronglySorted Rlt (map fst (p0 :: rest'))).
  { change (p0 :: rest') with ((p0 :: rest) ++ [closing]).
    rewrite map_app. apply StronglySorted_snoc; [exact Hs|].
    pose proof (sorted_le_last _ 0 Hs) as Hle.
    change (map fst (p0 :: rest)) with (fst p0 :: map fst rest) in Hle.
    rewrite last_cons in Hle.
    rewrite last_of_map in Hle.
    eapply Forall_impl; [|exact Hle]. cbn. intros y Hy. lra. }
  assert (Hlohi : fst p0 < fst (last rest' p0)).
  { rewrite Hlast. cbn [fst closing].
    pose proof (sorted_le_last _ 0 Hs) as Hle.
    change (map fst (p0 :: rest)) with (fst p0 :: map fst rest) in Hle.
    rewrite last_cons in Hle.
    rewrite last_of_map in Hle.
    inversion Hle; subst. lra. }
  destruct (knots_shape (DefaultBias s) (DefaultTension s) (DefaultContinuity s)
              true p0 rest') as (a & b & tl & Hk & Hax & Hay & Hlx & Hly).
  assert (Hsk : StronglySorted Rlt (map kx (a :: b :: tl))).
  { rewrite <- Hk, knots_kx by exact Hne'. exact Hs'. }
  assert (Hgoal :
    find_eval (knots (DefaultBias s) (DefaultTension s) (DefaultContinuity s)
                 true p0 rest')
      (clamp (fst p0) (fst (last rest' p0)) t) = snd p0).
  { rewrite Hk. destruct Ht as [Ht|Ht].
    - rewrite clamp_below by assumption. rewrite <- Hax, <- Hay.
      apply find_eval_first.
      inversion Hsk as [|? ? _ Hab]; subst. inversion Hab; subst. assumption.
    - rewrite clamp_above; [|assumption | rewrite Hlast; exact Ht].
      rewrite <- Hlx. rewrite find_eval_last by exact Hsk.
      rewrite Hly, Hlast. reflexivity. }
  unfold rest' at 1. unfold rest at 1. cbn [app].
  destruct (rest2 ++ [closing]) as [|q tl'] eqn:E.
  { apply app_eq_nil in E. destruct E; discriminate. }
  exact Hgoal.
Qed.

Lemma spline_ok_mono (hi hi' : R) (s : KochanekSpline) :
  hi <= hi' -> spline_ok hi s -> spline_ok hi' s.
Proof.
  intros Hh [Hs Hb]. split; [exact Hs|].
  eapply Forall_impl; [|exact Hb]. cbn. intros q Hq. lra.
Qed.

Lemma AddPoint_ok (i : nat) (x : R) (s : KochanekSpline) :
  spline_ok (INR i - 1) s -> spline_ok (INR (S i) - 1) (AddPoint (INR i) x s).
Proof.
  intros [Hs Hb]. rewrite S_INR. unfold spline_ok, AddPoint. cbn [spline_points].
  split.
  - rewrite map_app. apply StronglySorted_snoc; [exact Hs|].
    apply Forall_map. eapply Forall_impl; [|exact Hb]. cbn. intros q Hq. lra.
  - apply Forall_app. split.
    + eapply Forall_impl; [|exact Hb]. cbn. intros q Hq. lra.
    + constructor; [|constructor]. cbn. pose proof (pos_INR i). lra.
Qed.

Lemma add_points_ok (points : list coords) :
  forall (i : nat) (xs ys zs : KochanekSpline),
    Forall (fun p => (2 <= List.length p)%nat) points ->
    spline_ok (INR i - 1) xs -> spline_ok (INR i - 1) ys ->
    spline_ok (INR i - 1) zs ->
    exists xs' ys' zs',
      add_points i points xs ys zs = Ok (xs', ys', zs')
      /\ spline_ok (INR (i + List.length points) - 1) xs'
      /\ spline_ok (INR (i + List.length points) - 1) ys'
      /\ spline_ok (INR (i + List.length points) - 1) zs'
      /\ Closed xs' = Closed xs /\ Closed ys' = Closed ys
      /\ Closed zs' = Closed zs.
Proof.
  induction points as [|p points IH]; intros i xs ys zs Hp Hx Hy Hz.
  - exists xs, ys, zs. rewrite Nat.add_0_r.
    exact (conj eq_refl (conj Hx (conj Hy (conj Hz
             (conj eq_refl (conj eq_refl eq_refl)))))).
  - inversion Hp as [|? ? Hp0 Hp']; subst.
    destruct p as [|c0 [|c1 p]]; try (simpl in Hp0; lia).
    cbn [add_points item nth_error rbind].
    assert (Hz' : exists zs1,
               (if (2 <? List.length (c0 :: c1 :: p))%nat
                then rbind (item (c0 :: c1 :: p) 2)
                       (fun p2 => Ok (AddPoint (INR i) p2 zs))
                else Ok zs) = Ok zs1
               /\ spline_ok (INR (S i) - 1) zs1 /\ Closed zs1 = Closed zs).
    { destruct p as [|c2 p].
      - exists zs. split; [reflexivity|]. split; [|reflexivity].
        apply (spline_ok_mono (INR i - 1)); [rewrite S_INR; lra | exact Hz].
      - exists (AddPoint (INR i) c2 zs). split; [reflexivity|].
        split; [|reflexivity]. apply AddPoint_ok. exact Hz. }
    destruct Hz' as (zs1 & -> & Hz1 & Hcz). cbn [rbind].
    destruct (IH (S i) (AddPoint (INR i) c0 xs) (AddPoint (INR i) c1 ys) zs1 Hp'
                (AddPoint_ok i c0 xs Hx) (AddPoint_ok i c1 ys Hy) Hz1)
      as (xs' & ys' & zs' & Hrun & Hx' & Hy' & Hz'' & Hcx & Hcy & Hcz').
    exists xs', ys', zs'. split; [exact Hrun|].
    cbn [Datatypes.length]. rewrite Nat.add_succ_r.
    change (S (i + List.length points))%nat with (S i + List.length points)%nat.
    refine (conj Hx' (conj Hy' (conj Hz'' (conj _ (conj _ _)))));
      [exact Hcx | exact Hcy | congruence].
Qed.

(** A closed spline whose parameters lie between 0 and n - 1 takes the same
    value at 0 and at n. *)
Lemma Evaluate_closure (s : KochanekSpline) (n : nat) :
  Closed s = true -> spline_ok (INR n - 1) s ->
  Evaluate s 0 = Evaluate s (INR n).
Proof.
  intros Hc [Hs Hb].
  destruct (spline_points s) as [|p0 rest] eqn:Hp.
  { unfold Evaluate. rewrite Hp. reflexivity. }
  destruct rest as [|p1 rest].
  { unfold Evaluate. rewrite Hp. reflexivity. }
  assert (Hne : p1 :: rest <> []) by discriminate.
  rewrite (Evaluate_closed_ends s p0 (p1 :: rest) 0 Hc Hp Hne Hs).
  - rewrite (Evaluate_closed_ends s p0 (p1 :: rest) (INR n) Hc Hp Hne Hs);
      [reflexivity|].
    right. rewrite Forall_forall in Hb.
    assert (Hin : In (last (p1 :: rest) p0) (p0 :: p1 :: rest)).
    { right. apply last_In_or_default. discriminate. }
    specialize (Hb _ Hin). lra.
  - left. inversion Hb; subst. lra.
Qed.

Lemma sample_loop_ok (xs ys zs : KochanekSpline) (p : coords) (l : list R) :
  sample_loop xs ys zs (Some p) l = Ok (map (curve_point xs ys zs p) l).
Proof.
  induction l as [|pos l IH]; [reflexivity|].
  cbn [sample_loop sample rbind]. rewrite IH. reflexivity.
Qed.

Lemma new_spline_ok (bias tension continuity : R) (closed : bool) :
  spline_ok (INR 0 - 1) (new_spline bias tension continuity closed).
Proof. split; constructor. Qed.

Lemma np_linspace_ends (n : R) (res : nat) :
  res <> 0%nat ->
  exists first l, np_linspace 0 n res = first :: l
                  /\ first = 0
                  /\ (res = 1%nat \/ last l first = n).
Proof.
  intros Hres. destruct res as [|[|res]]; [congruence| |].
  - exists 0, []. repeat split. now left.
  - unfold np_linspace.
    replace (S (S res) - 1)%nat with (S res) by lia.
    cbn [seq map app].
    eexists. eexists. split; [reflexivity|]. split.
    + cbn [INR]. ring.
    + right. apply last_last.
Qed.

(** What [KSpline] returns on points of two or more coordinates: the
    polyline through the curve points at the parameters of [np.linspace]. *)
Lemma KSpline_run (p0 : coords) (rest : list coords)
  (continuity tension bias : R) (closed : bool) (res : nat) (w : world)
  (xs ys zs : KochanekSpline) :
  let points := p0 :: rest in
  let s0 := new_spline bias tension continuity closed in
  let res' := if (res =? 0)%nat then (List.length points * 20)%nat else res in
  let ln := map (curve_point xs ys zs (last rest p0))
              (np_linspace 0 (INR (List.length points)) res') in
  add_points 0 points s0 s0 s0 = Ok (xs, ys, zs) ->
  exists a w' actor,
    KSpline points continuity tension bias closed res w = (Ok a, w')
    /\ deref w' a = Some actor
    /\ poly actor = pd_polyline ln
    /\ name actor = "KSpline"
    /\ collectable_actors w' = collectable_actors w ++ [Some a; Some a].
Proof.
  intros points s0 res' ln Hadd.
  assert (Hres : res' <> 0%nat).
  { subst res'. destruct (Nat.eqb_spec res 0); [simpl; lia | assumption]. }
  destruct (np_linspace_ends (INR (List.length points)) res' Hres)
    as (first & l & Hl & _).
  unfold KSpline. fold points s0 res'. rewrite Hadd. mstep.
  change (last_opt points) with (Some (last rest p0)).
  rewrite sample_loop_ok. fold ln. mstep.
  assert (Hln : ln = curve_point xs ys zs (last rest p0) first
                     :: map (curve_point xs ys zs (last rest p0)) l).
  { subst ln. rewrite Hl. reflexivity. }
  unfold Line.
  assert (Hd : detect_xy (LPoints ln) None = Ok (LPoints ln, None)).
  { unfold detect_xy. destruct (3 <? line_len (LPoints ln))%nat; reflexivity. }
  rewrite Hd. repeat mstep.
  assert (Hf : first_isSequence (LPoints ln) = Ok true)
    by (rewrite Hln; reflexivity).
  rewrite Hf. repeat mstep.
  assert (H2 : (List.length (hd [] ln) =? 2)%nat = false)
    by (rewrite Hln; reflexivity).
  rewrite H2. repeat mstep.
  unfold points at 1. cbv iota. repeat mstep.
  unfold ret. rewrite !list_update_last.
  do 3 eexists. split; [reflexivity|]. split.
  { unfold deref. cbn [heap]. apply nth_error_last. }
  split; [reflexivity|]. split; [reflexivity|].
  rewrite <- app_assoc. reflexivity.
Qed.

(** C9: the three splines of a closed [KSpline] give the same point at the
    parameter 0 and at the parameter n, the number of input points; the
    polyline that [KSpline] returns starts and ends at that point. *)
Theorem KSpline_closed_closure
  (points : list coords) (continuity tension bias : R) (res : nat) (w : world) :
  points <> [] ->
  Forall (fun p => (2 <= List.length p)%nat) points ->
  let s0 := new_spline bias tension continuity true in
  let n := List.length points in
  exists xs ys zs p q,
    add_points 0 points s0 s0 s0 = Ok (xs, ys, zs)
    /\ last_opt points = Some p
    /\ sample xs ys zs (Some p) 0 = Ok q
    /\ sample xs ys zs (Some p) (INR n) = Ok q
    /\ exists a w' actor ln,
        KSpline points continuity tension bias true res w = (Ok a, w')
        /\ deref w' a = Some actor
        /\ poly actor = pd_polyline ln
        /\ hd_error ln = Some q
        /\ last_opt ln = Some q.
Proof.
  intros Hne Hdim s0 n.
  destruct points as [|p0 rest]; [congruence|].
  destruct (add_points_ok (p0 :: rest) 0 s0 s0 s0 Hdim
              (new_spline_ok _ _ _ _) (new_spline_ok _ _ _ _)
              (new_spline_ok _ _ _ _))
    as (xs & ys & zs & Hadd & Hx & Hy & Hz & Hcx & Hcy & Hcz).
  change (0 + List.length (p0 :: rest))%nat with n in Hx, Hy, Hz.
  set (p := last rest p0).
  assert (Hclose : curve_point xs ys zs p (INR n) = curve_point xs ys zs p 0).
  { unfold curve_point.
    rewrite <- (Evaluate_closure xs n Hcx Hx), <- (Evaluate_closure ys n Hcy Hy),
      <- (Evaluate_closure zs n Hcz Hz). reflexivity. }
  exists xs, ys, zs, p, (curve_point xs ys zs p 0).
  split; [exact Hadd|]. split; [reflexivity|]. split; [reflexivity|].
  split; [cbn [sample]; fold (curve_point xs ys zs p (INR n));
          now rewrite Hclose|].
  destruct (KSpline_run p0 rest continuity tension bias true res w xs ys zs Hadd)
    as (a & w' & actor & Hrun & Hd & Hp & _ & _).
  exists a, w', actor. eexists. split; [exact Hrun|]. split; [exact Hd|].
  split; [exact Hp|].
  set (res' := if (res =? 0)%nat
               then (List.length (p0 :: rest) * 20)%nat else res).
  assert (Hres : res' <> 0%nat).
  { subst res'. destruct (Nat.eqb_spec res 0); [simpl; lia | assumption]. }
  destruct (np_linspace_ends (INR (List.length (p0 :: rest))) res' Hres)
    as (first & l & Hl & Hfirst & Hlast).
  rewrite Hl. cbn [map hd_error last_opt]. fold p. subst first.
  split; [reflexivity|]. f_equal.
  rewrite last_of_map.
  destruct Hlast as [H1|Hlast].
  - rewrite H1 in Hl. cbn in Hl. injection Hl as <-. reflexivity.
  - rewrite Hlast. exact Hclose.
Qed.

Lemma KSpline_closed_closure_witness :
  let points := [[0; 0; 0]; [1; 0; 0]; [1; 1; 0]] in
  let s0 := new_spline 0 0 0 true in
  exists xs ys zs p q,
    add_points 0 points s0 s0 s0 = Ok (xs, ys, zs)
    /\ last_opt points = Some p
    /\ sample xs ys zs (Some p) 0 = Ok q
    /\ sample xs ys zs (Some p) (INR (List.length points)) = Ok q
    /\ exists a w' actor ln,
        KSpline points 0 0 0 true 0 empty_world = (Ok a, w')
        /\ deref w' a = Some actor
        /\ poly actor = pd_polyline ln
        /\ hd_error ln = Some q
        /\ last_opt ln = Some q.
Proof.
  apply (KSpline_closed_closure [[0; 0; 0]; [1; 0; 0]; [1; 1; 0]] 0 0 0 0
           empty_world).
  - discriminate.
  - repeat constructor.
Defined.

(** [KSpline] collects its actor twice: once in [Line], once again itself. *)
Lemma KSpline_collects_twice (p0 : coords) (rest : list coords)
  (continuity tension bias : R) (closed : bool) (res : nat) (w : world) :
  Forall (fun p => (2 <= List.length p)%nat) (p0 :: rest) ->
  exists a w',
    KSpline (p0 :: rest) continuity tension bias closed res w = (Ok a, w')
    /\ collectable_actors w' = collectable_actors w ++ [Some a; Some a].
Proof.
  intros Hdim.
  destruct (add_points_ok (p0 :: rest) 0
              (new_spline bias tension continuity closed)
              (new_spline bias tension continuity closed)
              (new_spline bias tension continuity closed) Hdim
              (new_spline_ok _ _ _ _) (new_spline_ok _ _ _ _)
              (new_spline_ok _ _ _ _))
    as (xs & ys & zs & Hadd & _).
  destruct (KSpline_run p0 rest continuity tension bias closed res w xs ys zs
              Hadd) as (a & w' & actor & Hrun & _ & _ & _ & Hc).
  exists a, w'. split; assumption.
Qed.

(** ** Points: the input layouts *)

Section PointsLayouts.

Variable getColor : pyval -> R * R * R.

(** [Points] gives [None] back for the empty list and for no other input. *)
Theorem Points_None_iff_empty
  (plist : list coords) (r : R) (c : pyval) (alpha : alpha_arg) (w : world) :
  fst (Points getColor plist r c alpha w) = Ok None <-> plist = [].
Proof.
  split.
  - intros H. destruct plist as [|p0 plist]; [reflexivity|]. exfalso.
    rewrite Points_nonempty in H by discriminate.
    unfold bind in H.
    destruct (lift (interpret_plist (p0 :: plist)) w) as [[q|e] w1];
      [|discriminate].
    destruct (lift (make3d q) w1) as [[q'|e] w2]; [|discriminate].
    destruct (lift (per_point_colors c alpha) w2) as [[pp|e] w3];
      [|discriminate].
    match type of H with
    | context [match ?m w3 with _ => _ end] =>
        destruct (m w3) as [[a|e] w4]
    end; simpl in H; discriminate.
  - intros ->. reflexivity.
Qed.

Lemma zip3_length (xs ys zs : list R) :
  List.length ys = List.length xs -> List.length zs = List.length xs ->
  List.length (zip3 xs ys zs) = List.length xs.
Proof.
  revert ys zs. induction xs as [|x xs IH]; intros [|y ys] [|z zs] Hy Hz;
    simpl in *; try discriminate; auto.
Qed.

Lemma interpret_long (q : list coords) :
  (3 < List.length q)%nat -> interpret_plist q = Ok q.
Proof.
  intros H. destruct q as [|a [|b [|c [|d q]]]]; simpl in H; try lia.
  reflexivity.
Qed.

Lemma Points_of_interpreted (plist q : list coords) r c alpha w :
  plist <> [] -> q <> [] ->
  interpret_plist plist = Ok q -> interpret_plist q = Ok q ->
  Points getColor plist r c alpha w = Points getColor q r c alpha w.
Proof.
  intros Hp Hq H1 H2.
  rewrite !Points_nonempty by assumption.
  rewrite H1, H2. reflexivity.
Qed.

(** The two layouts of the input: three rows [all_x, all_y, all_z] of more
    than three entries are read as the points they list column by column,
    and two rows [all_x, all_y] as points in the plane z = 0. *)
Theorem Points_transposed
  (xs ys : list R) (r : R) (c : pyval) (alpha : alpha_arg) (w : world) :
  (3 < List.length xs)%nat ->
  List.length ys = List.length xs ->
  (forall zs, List.length zs = List.length xs ->
     Points getColor [xs; ys; zs] r c alpha w
     = Points getColor (zip3 xs ys zs) r c alpha w)
  /\ Points getColor [xs; ys] r c alpha w
     = Points getColor (zip3 xs ys (np_zeros (List.length xs))) r c alpha w.
Proof.
  intros Hx Hy.
  assert (Hz0 : List.length (np_zeros (List.length xs)) = List.length xs)
    by apply repeat_length.
  assert (Hgen : forall zs, List.length zs = List.length xs ->
            zip3 xs ys zs <> []
            /\ np_stack3 xs ys zs = Ok (zip3 xs ys zs)
            /\ interpret_plist (zip3 xs ys zs) = Ok (zip3 xs ys zs)).
  { intros zs Hz. pose proof (zip3_length xs ys zs Hy Hz) as Hl. split.
    - intros E. rewrite E in Hl. simpl in Hl. lia.
    - split.
      + unfold np_stack3. rewrite Hy, Hz, !Nat.eqb_refl. reflexivity.
      + apply interpret_long. lia. }
  apply Nat.ltb_lt in Hx. split.
  - intros zs Hz. destruct (Hgen zs Hz) as (Hne & Hst & Hin).
    apply Points_of_interpreted; try assumption; try discriminate.
    simpl. rewrite Hx. exact Hst.
  - destruct (Hgen _ Hz0) as (Hne & Hst & Hin).
    apply Points_of_interpreted; try assumption; try discriminate.
    simpl. rewrite Hx. exact Hst.
Qed.

End PointsLayouts.

Lemma Points_transposed_witness :
  (forall zs, List.length zs = List.length four_xs ->
     Points black [four_xs; four_ys; zs] 5 (PStr "red") (AlphaNum 1) empty_world
     = Points black (zip3 four_xs four_ys zs) 5 (PStr "red") (AlphaNum 1)
         empty_world)
  /\ Points black [four_xs; four_ys] 5 (PStr "red") (AlphaNum 1) empty_world
     = Points black (zip3 four_xs four_ys (np_zeros (List.length four_xs))) 5
         (PStr "red") (AlphaNum 1) empty_world.
Proof.
  apply (Points_transposed black four_xs four_ys).
  - simpl. lia.
  - reflexivity.
Defined.

(** ** Points: one point, points in the plane *)

Section PointsUniform.

Variable getColor : pyval -> R * R * R.

Lemma pad3_long (p : coords) : (2 <= List.length p)%nat -> (2 <? List.length (pad3 p))%nat = true.
Proof.
  intros H. unfold pad3. destruct (List.length p =? 2)%nat eqn:E.
  - apply Nat.eqb_eq in E. rewrite length_app, E. reflexivity.
  - apply Nat.eqb_neq in E. apply Nat.ltb_lt. lia.
Qed.

Lemma make3d_one (p : coords) : make3d [p] = Ok [pad3 p].
Proof.
  unfold make3d, pad3, np_c_zeros. simpl.
  destruct (List.length p =? 2)%nat; reflexivity.
Qed.

Lemma pad3_3 (p : coords) :
  (2 <= List.length p <= 3)%nat -> List.length (pad3 p) = 3%nat.
Proof.
  intros H. unfold pad3. destruct (List.length p =? 2)%nat eqn:E.
  - apply Nat.eqb_eq in E. rewrite length_app, E. reflexivity.
  - apply Nat.eqb_neq in E. lia.
Qed.

Lemma vertex_points_3d (l : list coords) :
  l <> [] -> Forall (fun p => List.length p = 3%nat) l ->
  vertex_points l = Ok l.
Proof.
  intros Hne H. unfold vertex_points.
  destruct l as [|p0 q]; [congruence|].
  assert (H0 : (2 <? List.length p0)%nat = true).
  { inversion H as [|? ? Hp0 _]; subst. now rewrite Hp0. }
  rewrite H0. clear H0 Hne.
  inversion_clear H as [|? ? Hp0 Hq]. rewrite (vtk_point_3 p0 Hp0).
  match goal with
  | |- match ?f q with _ => _ end = _ => assert (Hl : f q = Ok q)
  end.
  { induction Hq as [|p l Hp _ IH]; [reflexivity|].
    cbv beta iota fix. rewrite (vtk_point_3 p Hp).
    cbv beta iota fix in IH. rewrite IH. reflexivity. }
  rewrite Hl. reflexivity.
Qed.

Lemma Points_single_run (p : coords) (r : R) (c : pyval) (a : R) (w : world) :
  (2 <= List.length p <= 3)%nat ->
  per_point_colors c (AlphaNum a) = Ok false ->
  Points getColor [p] r c (AlphaNum a) w
  = (Ok (Some (List.length (heap w))),
     {| heap := heap w
                ++ [set_name "Points"
                      (set_position (pad3 p)
                         (set_pointSize r
                            (new_Actor (pd_verts [[0; 0; 0]] None) c a)))];
        pylists := pylists w;
        collectable_actors := collectable_actors w
                              ++ [Some (List.length (heap w))];
        stdout := stdout w |}).
Proof.
  intros Hp Hc.
  rewrite Points_nonempty by discriminate.
  change (interpret_plist [p]) with (Ok [p]). mstep.
  rewrite make3d_one. mstep. rewrite Hc. mstep.
  rewrite vertex_points_3d
    by (try discriminate; repeat constructor; apply pad3_3; exact Hp).
  change (List.length [pad3 p] =? 1)%nat with true.
  repeat mstep. simpl hd. unfold ret.
  rewrite !list_update_last. reflexivity.
Qed.

(** A single point is stored at the origin of the mesh and the actor is moved
    to the point: [Points] on one point of two or three coordinates, with a
    colour that is a name or a number, returns an actor whose only vertex is
    (0, 0, 0) and whose position is the point (completed with z = 0). *)
Theorem Points_single_point
  (p : coords) (r : R) (c : pyval) (a : R) (w : world) :
  (2 <= List.length p <= 3)%nat ->
  isSequence c = false ->
  exists w' actor,
    Points getColor [p] r c (AlphaNum a) w = (Ok (Some (List.length (heap w))), w')
    /\ deref w' (List.length (heap w)) = Some actor
    /\ poly actor = pd_verts [[0; 0; 0]] None
    /\ position actor = Some (pad3 p)
    /\ pointSize actor = Some r
    /\ name actor = "Points"
    /\ collectable_actors w'
       = collectable_actors w ++ [Some (List.length (heap w))].
Proof.
  intros Hp Hc.
  assert (Hpp : per_point_colors c (AlphaNum a) = Ok false)
    by (unfold per_point_colors; now rewrite Hc).
  rewrite (Points_single_run p r c a w Hp Hpp).
  eexists. eexists. split; [reflexivity|]. split.
  { unfold deref. cbn [heap]. apply nth_error_last. }
  repeat split.
Qed.

Lemma forallb_2d (plist : list coords) :
  Forall (fun p => List.length p = 2%nat) plist ->
  forallb (fun p => (List.length p =? 2)%nat) plist = true.
Proof.
  induction 1 as [|p l Hp _ IH]; simpl; [reflexivity|].
  rewrite Hp, IH. reflexivity.
Qed.

Lemma interpret_2d (plist : list coords) :
  Forall (fun p => List.length p = 2%nat) plist ->
  interpret_plist plist = Ok plist.
Proof.
  intros H. destruct plist as [|x [|y [|z [|t l]]]]; try reflexivity.
  - inversion H as [|? ? Hx _]; subst. simpl. rewrite Hx. reflexivity.
  - inversion H as [|? ? Hx _]; subst. simpl. rewrite Hx. reflexivity.
Qed.

(** Points given with two coordinates are completed with z = 0: for two or
    more such points and one colour, the vertices of the actor are the input
    points with a third coordinate 0, in the order of the input. *)
Theorem Points_in_the_plane
  (plist : list coords) (r : R) (c : pyval) (a : R) (w : world) :
  (2 <= List.length plist)%nat ->
  Forall (fun p => List.length p = 2%nat) plist ->
  per_point_colors c (AlphaNum a) = Ok false ->
  exists w' actor,
    Points getColor plist r c (AlphaNum a) w = (Ok (Some (List.length (heap w))), w')
    /\ deref w' (List.length (heap w)) = Some actor
    /\ poly actor = pd_verts (map (fun p => p ++ [0]) plist) None
    /\ position actor = None
    /\ collectable_actors w'
       = collectable_actors w ++ [Some (List.length (heap w))].
Proof.
  intros Hn H2 Hc.
  assert (Hne : plist <> []) by (intros ->; simpl in Hn; lia).
  rewrite Points_nonempty by assumption.
  rewrite (interpret_2d plist H2). mstep.
  destruct plist as [|p0 plist]; [congruence|].
  inversion H2 as [|? ? Hp0 H2']; subst.
  unfold make3d. rewrite Hp0. simpl Nat.eqb. cbv iota.
  unfold np_c_zeros. rewrite (forallb_2d _ H2). mstep.
  rewrite Hc. mstep.
  assert (H3 : Forall (fun p => List.length p = 3%nat)
                 (map (fun p => p ++ [0]) (p0 :: plist))).
  { apply Forall_map. eapply Forall_impl; [|exact H2].
    intros p Hp. cbn beta in *. rewrite length_app, Hp. reflexivity. }
  rewrite vertex_points_3d by (try discriminate; exact H3).
  cbn [map]. mstep.
  destruct plist as [|p1 plist]; [simpl in Hn; lia|].
  cbn [map List.length Nat.eqb]. repeat mstep. unfold ret.
  rewrite !list_update_last.
  eexists. eexists. split; [reflexivity|]. split.
  { unfold deref. cbn [heap]. apply nth_error_last. }
  repeat split.
Qed.

End PointsUniform.

Lemma Points_single_point_witness :
  exists w' actor,
    Points black [[1; 2]] 5 (PStr "red") (AlphaNum 1) empty_world
    = (Ok (Some (List.length (heap empty_world))), w')
    /\ deref w' (List.length (heap empty_world)) = Some actor
    /\ poly actor = pd_verts [[0; 0; 0]] None
    /\ position actor = Some (pad3 [1; 2])
    /\ pointSize actor = Some 5
    /\ name actor = "Points"
    /\ collectable_actors w'
       = collectable_actors empty_world
         ++ [Some (List.length (heap empty_world))].
Proof.
  apply (Points_single_point black [1; 2] 5 (PStr "red") 1 empty_world).
  - simpl. lia.
  - reflexivity.
Defined.

Lemma Points_in_the_plane_witness :
  exists w' actor,
    Points black [[1; 2]; [3; 4]] 5 (PStr "red") (AlphaNum 1) empty_world
    = (Ok (Some (List.length (heap empty_world))), w')
    /\ deref w' (List.length (heap empty_world)) = Some actor
    /\ poly actor = pd_verts (map (fun p => p ++ [0]) [[1; 2]; [3; 4]]) None
    /\ position actor = None
    /\ collectable_actors w'
       = collectable_actors empty_world
         ++ [Some (List.length (heap empty_world))].
Proof.
  apply (Points_in_the_plane black [[1; 2]; [3; 4]] 5 (PStr "red") 1 empty_world).
  - simpl. lia.
  - repeat constructor.
  - reflexivity.
Defined.

(** ** Line: the two input forms *)

Lemma zip2_length (xs ys : list R) :
  List.length ys = List.length xs -> List.length (zip2 xs ys) = List.length xs.
Proof.
  revert ys. induction xs as [|x xs IH]; intros [|y ys] H; simpl in *;
    try discriminate; auto.
Qed.

Lemma insert_2d_zip2 (xs ys : list R) :
  insert_2d (zip2 xs ys) = Ok (map (fun p => p ++ [0]) (zip2 xs ys)).
Proof.
  revert ys. induction xs as [|x xs IH]; intros [|y ys]; try reflexivity.
  simpl. rewrite IH. reflexivity.
Qed.

(** Coordinates given as two lists, [p0] = all x and [p1] = all y, of one
    length above 3: [Line] joins the points (x_i, y_i, 0), exactly as when it
    is given the list of the pairs (x_i, y_i). *)
Theorem Line_xy_lists
  (xs ys : list R) (c : pyval) (alpha lw : R) (dotted : bool) (res : option R)
  (w : world) :
  (3 < List.length xs)%nat ->
  List.length ys = List.length xs ->
  Line (LPoint xs) (Some ys) c alpha lw dotted res w
  = Line (LPoints (zip2 xs ys)) None c alpha lw dotted res w
  /\ exists w' actor,
      Line (LPoint xs) (Some ys) c alpha lw dotted res w
      = (Ok (List.length (heap w)), w')
      /\ deref w' (List.length (heap w)) = Some actor
      /\ poly actor = pd_polyline (map (fun p => p ++ [0]) (zip2 xs ys))
      /\ base actor = Nd2 (zip2 xs ys)
      /\ top actor = NdNone
      /\ name actor = "Line"
      /\ collectable_actors w'
         = collectable_actors w ++ [Some (List.length (heap w))].
Proof.
  intros Hx Hy.
  assert (Hz : List.length (zip2 xs ys) = List.length xs)
    by (apply zip2_length; exact Hy).
  assert (H1 : detect_xy (LPoint xs) (Some ys) = Ok (LPoints (zip2 xs ys), None)).
  { unfold detect_xy. cbn [line_len]. apply Nat.ltb_lt in Hx. rewrite Hx.
    destruct ys as [|y ys]; [destruct xs; simpl in *; discriminate|].
    cbn [item nth_error rbind]. rewrite Hy, Nat.eqb_refl. reflexivity. }
  assert (H2 : detect_xy (LPoints (zip2 xs ys)) None
               = Ok (LPoints (zip2 xs ys), None)).
  { unfold detect_xy. cbn [line_len]. rewrite Hz. apply Nat.ltb_lt in Hx.
    rewrite Hx. reflexivity. }
  split.
  - unfold Line. rewrite H1, H2. reflexivity.
  - unfold Line. rewrite H1. mstep.
    destruct xs as [|x xs]; [simpl in Hx; lia|].
    destruct ys as [|y ys]; [discriminate|].
    change (first_isSequence (LPoints (zip2 (x :: xs) (y :: ys)))) with
      (@Ok bool true).
    mstep.
    change (List.length (hd [] (zip2 (x :: xs) (y :: ys))) =? 2)%nat with true.
    cbv iota. rewrite insert_2d_zip2. repeat mstep.
    destruct dotted; repeat mstep; unfold ret; rewrite !list_update_last;
      (eexists; eexists; split; [reflexivity|]; split;
       [unfold deref; cbn [heap]; apply nth_error_last | repeat split]).
Qed.

Lemma Line_xy_lists_witness :
  Line (LPoint four_xs) (Some four_ys) (PStr "r") 1 1 false None empty_world
  = Line (LPoints (zip2 four_xs four_ys)) None (PStr "r") 1 1 false None
      empty_world
  /\ exists w' actor,
      Line (LPoint four_xs) (Some four_ys) (PStr "r") 1 1 false None empty_world
      = (Ok (List.length (heap empty_world)), w')
      /\ deref w' (List.length (heap empty_world)) = Some actor
      /\ poly actor = pd_polyline (map (fun p => p ++ [0]) (zip2 four_xs four_ys))
      /\ base actor = Nd2 (zip2 four_xs four_ys)
      /\ top actor = NdNone
      /\ name actor = "Line"
      /\ collectable_actors w'
         = collectable_actors empty_world
           ++ [Some (List.length (heap empty_world))].
Proof.
  apply (Line_xy_lists four_xs four_ys).
  - simpl. lia.
  - reflexivity.
Defined.

(** ** KSpline without points *)

Lemma sample_loop_unbound (xs ys zs : KochanekSpline) (pos : R) (l : list R) :
  sample_loop xs ys zs None (pos :: l) = Raise UnboundLocalError.
Proof. reflexivity. Qed.

Lemma np_linspace_nonempty (a b : R) (num : nat) :
  num <> 0%nat -> exists x l, np_linspace a b num = x :: l.
Proof.
  intros H. destruct num as [|[|n]]; [congruence | simpl; eauto |].
  unfold np_linspace. cbn [Nat.sub seq map app]. eauto.
Qed.

(** [KSpline] on an empty list of points raises and leaves the registry and
    the store as they were: with the default resolution the empty polyline
    makes [Line] fail on its first point ([IndexError]); with a resolution
    given, the sampling loop reads the point variable that the loop over the
    points never bound ([UnboundLocalError]). *)
Theorem KSpline_no_points
  (continuity tension bias : R) (closed : bool) (res : nat) (w : world) :
  KSpline [] continuity tension bias closed res w
  = (Raise (if (res =? 0)%nat then IndexError else UnboundLocalError), w).
Proof.
  unfold KSpline. cbn [add_points]. mstep.
  destruct (Nat.eqb_spec res 0) as [->|Hres].
  - reflexivity.
  - destruct (np_linspace_nonempty 0 (INR (List.length (@nil coords))) res Hres)
      as (x & l & Hl).
    rewrite Hl. cbn [last_opt]. rewrite sample_loop_unbound. reflexivity.
Qed.

(** ** DashedLine: a spacing above the length *)

Lemma norm_nonneg (v : coords) : 0 <= norm v.
Proof. apply sqrt_pos. Qed.

Lemma py_int_small (x : R) : 0 <= x < 1 -> py_int x = 0%Z.
Proof.
  intros [H0 H1]. unfold py_int. destruct (Rle_dec 0 x); [|lra].
  destruct (base_Int_part x) as [Hlo Hhi].
  assert (Ha : IZR (Int_part x) < 1) by lra.
  assert (Hb : -1 < IZR (Int_part x)) by lra.
  apply lt_IZR in Ha. apply lt_IZR in Hb. lia.
Qed.

(** When the spacing is above the length of the segment no dash fits, the
    variable [poly] is never bound, and [DashedLine] raises
    [UnboundLocalError]; nothing is built or collected. *)
Theorem DashedLine_spacing_above_length
  (p0 p1 : coords) (s : R) (c : pyval) (alpha lw : R) (w : world) :
  List.length p0 = List.length p1 ->
  (1 <= List.length p0 <= 3)%nat ->
  norm (map2 Rminus p1 p0) < s ->
  DashedLine (LPoint p0) (Some p1) (Some s) c alpha lw w
  = (Raise UnboundLocalError, w).
Proof.
  intros Hlen Hdim Hs.
  pose proof (norm_nonneg (map2 Rminus p1 p0)) as H0.
  unfold DashedLine.
  assert (Hd : detect_xy (LPoint p0) (Some p1) = Ok (LPoint p0, Some p1)).
  { unfold detect_xy. cbn [line_len].
    destruct (Nat.ltb_spec 3 (List.length p0)); [lia | reflexivity]. }
  rewrite Hd. mstep.
  assert (Hf : first_isSequence (LPoint p0) = Ok false).
  { destruct p0; [simpl in Hdim; lia | reflexivity]. }
  rewrite Hf. repeat mstep.
  assert (Ht : truthy_opt (Some s) = true).
  { unfold truthy_opt, truthy. destruct (Req_dec_T s 0); [lra | reflexivity]. }
  rewrite Ht. repeat mstep.
  assert (Ho : dashed_outer [p0; p1] s
                 {| dl_segs := []; dl_poly := false;
                    dl_p0 := LPoint p0; dl_p1 := Some p1 |}
               = Ok {| dl_segs := []; dl_poly := false;
                       dl_p0 := LPoint p0; dl_p1 := Some p1 |}).
  { cbn [dashed_outer]. unfold np_sub.
    rewrite np_binop_same by (symmetry; exact Hlen). cbn [rbind].
    unfold int_quotient. destruct (Req_dec_T s 0) as [E|_]; [lra|].
    cbn [rbind].
    rewrite py_int_small; [reflexivity|].
    split.
    - apply Rmult_le_pos; [exact H0 | left; apply Rinv_0_lt_compat; lra].
    - apply (Rmult_lt_reg_r s); [lra|].
      unfold Rdiv. rewrite Rmult_assoc, Rinv_l by lra. lra. }
  rewrite Ho. repeat mstep. reflexivity.
Qed.

Lemma DashedLine_spacing_above_length_witness :
  DashedLine (LPoint [0; 0; 0]) (Some [0; 0; 0]) (Some 1) (PStr "red") 1 1
    empty_world
  = (Raise UnboundLocalError, empty_world).
Proof.
  apply DashedLine_spacing_above_length.
  - reflexivity.
  - simpl. lia.
  - replace (map2 Rminus [0; 0; 0] [0; 0; 0]) with (map (fun _ : R => 0) [0; 0; 0]).
    + rewrite norm_zeros. lra.
    + simpl. repeat f_equal; lra.
Defined.

(** ** Arc *)

Lemma vtk_point_cases (p : coords) :
  (vtk_point p = Ok tt /\ List.length p = 3%nat)
  \/ (vtk_point p = Raise TypeError /\ List.length p <> 3%nat).
Proof.
  unfold vtk_point. destruct (Nat.eqb_spec (List.length p) 3); auto.
Qed.

(** [Arc] gives [None] back exactly when neither a second point nor both a
    normal and an angle are given; it returns, an actor or [None], exactly
    when every point it hands to the arc source has three coordinates, and
    raises [TypeError] otherwise; the registry gets the actor when one is
    returned and nothing otherwise. *)
Theorem Arc_None_iff
  (center point1 : coords) (point2 normal : option coords) (angle : option R)
  (invert : bool) (c : pyval) (al res : R) (w : world) :
  let out := Arc center point1 point2 normal angle invert c al res w in
  (fst out = Ok None <-> point2 = None /\ (normal = None \/ angle = None))
  /\ ((exists r, fst out = Ok r)
      <-> Forall (fun p => List.length p = 3%nat)
            (arc_points center point1 point2 normal angle))
  /\ (forall e, fst out = Raise e -> e = TypeError)
  /\ collectable_actors (snd out) = collectable_actors w ++ collected (fst out).
Proof.
  intros out. subst out. unfold Arc, arc_points.
  destruct point2 as [p2|]; [|destruct normal as [n|]; [destruct angle as [a|]|]].
  - destruct (vtk_point_cases point1) as [[E1 L1]|[E1 L1]]; rewrite E1;
      [destruct (vtk_point_cases p2) as [[E2 L2]|[E2 L2]]; rewrite E2;
       [destruct (vtk_point_cases center) as [[E3 L3]|[E3 L3]]; rewrite E3|]|];
      cbn [rbind]; repeat mstep; unfold ret;
      cbn [fst snd collectable_actors collected];
      (split; [split; [discriminate | intros [H _]; discriminate]|]);
      (split; [|split; [intros e H; try discriminate; now inversion H|]]);
      rewrite ?app_nil_r; try reflexivity.
    + split; [intros _; repeat constructor; assumption | eauto].
    + split; [intros [r H]; discriminate|].
      intros H. inversion_clear H as [|? ? _ H']. inversion_clear H' as [|? ? _ H].
      inversion_clear H as [|? ? H' _]. contradiction.
    + split; [intros [r H]; discriminate|].
      intros H. inversion_clear H as [|? ? _ H']. inversion_clear H' as [|? ? H _].
      contradiction.
    + split; [intros [r H]; discriminate|].
      intros H. inversion_clear H as [|? ? H' _]. contradiction.
  - destruct (vtk_point_cases point1) as [[E1 L1]|[E1 L1]]; rewrite E1;
      [destruct (vtk_point_cases n) as [[E2 L2]|[E2 L2]]; rewrite E2|];
      cbn [rbind]; repeat mstep; unfold ret;
      cbn [fst snd collectable_actors collected];
      (split; [split; [discriminate | intros [_ [H|H]]; discriminate]|]);
      (split; [|split; [intros e H; try discriminate; now inversion H|]]);
      rewrite ?app_nil_r; try reflexivity.
    + split; [intros _; repeat constructor; assumption | eauto].
    + split; [intros [r H]; discriminate|].
      intros H. inversion_clear H as [|? ? _ H']. inversion_clear H' as [|? ? H _].
      contradiction.
    + split; [intros [r H]; discriminate|].
      intros H. inversion_clear H as [|? ? H' _]. contradiction.
  - repeat mstep; unfold ret; cbn [fst snd collectable_actors collected].
    split; [split; [auto | reflexivity]|].
    split; [split; [constructor | eauto]|].
    split; [intros e H; discriminate | now rewrite app_nil_r].
  - repeat mstep; unfold ret; cbn [fst snd collectable_actors collected].
    split; [split; [auto | reflexivity]|].
    split; [split; [constructor | eauto]|].
    split; [intros e H; discriminate | now rewrite app_nil_r].
Qed.

(** ** ParametricShape *)

Lemma parametric_function_None (s : string) :
  parametric_function s = None <-> ~ In s shapes.
Proof.
  unfold parametric_function.
  repeat match goal with
         | |- context [String.eqb s ?n] =>
             destruct (String.eqb_spec s n) as [->|?];
             [split; [discriminate | intros H; exfalso; apply H; simpl; tauto]|]
         end.
  split; [|reflexivity].
  intros _ H. simpl in H. intuition congruence.
Qed.

Lemma ParametricShape_known (s : string) (c : pyval) (alpha res : R) (w : world) :
  In s shapes ->
  exists actor,
    fst (ParametricShape (NameStr s) c alpha res w)
    = Ok (Some (List.length (heap w)))
    /\ deref (snd (ParametricShape (NameStr s) c alpha res w))
         (List.length (heap w)) = Some actor
    /\ name actor = s
    /\ collectable_actors (snd (ParametricShape (NameStr s) c alpha res w))
       = collectable_actors w ++ [Some (List.length (heap w))].
Proof.
  intros Hin. unfold ParametricShape.
  destruct (parametric_function s) as [ps|] eqn:Hps.
  - destruct (negb (s =? "Kuen")%string); repeat mstep; unfold ret;
      cbn [fst snd]; rewrite !list_update_last;
      (eexists; split; [reflexivity|]; split;
       [unfold deref; cbn [heap]; apply nth_error_last
       | split; reflexivity]).
  - apply parametric_function_None in Hps. contradiction.
Qed.

(** The names [ParametricShape] accepts are exactly those of its list
    [shapes]: for one of them it returns an actor that carries the name and
    is collected once; for any other string it prints the two messages,
    returns [None] and leaves the registry as it was. *)
Theorem ParametricShape_names
  (s : string) (c : pyval) (alpha res : R) (w : world) :
  let out := ParametricShape (NameStr s) c alpha res w in
  (In s shapes ->
   exists actor,
     fst out = Ok (Some (List.length (heap w)))
     /\ deref (snd out) (List.length (heap w)) = Some actor
     /\ name actor = s
     /\ collectable_actors (snd out)
        = collectable_actors w ++ [Some (List.length (heap w))])
  /\ (~ In s shapes ->
      out = (Ok None,
             say "Available shape names:"
               (say "Error in ParametricShape: unknown name" w))).
Proof.
  intros out. subst out. split.
  - apply ParametricShape_known.
  - intros Hn. apply parametric_function_None in Hn.
    unfold ParametricShape. rewrite Hn. reflexivity.
Qed.

Lemma ParametricShape_names_witness :
  (exists actor,
     fst (ParametricShape (NameStr "Klein") (PStr "powderblue") 1 51 empty_world)
     = Ok (Some (List.length (heap empty_world)))
     /\ deref (snd (ParametricShape (NameStr "Klein") (PStr "powderblue") 1 51
                      empty_world))
          (List.length (heap empty_world)) = Some actor
     /\ name actor = "Klein"
     /\ collectable_actors
          (snd (ParametricShape (NameStr "Klein") (PStr "powderblue") 1 51
                  empty_world))
        = collectable_actors empty_world
          ++ [Some (List.length (heap empty_world))])
  /\ ParametricShape (NameStr "Sphere") (PStr "powderblue") 1 51 empty_world
     = (Ok None,
        say "Available shape names:"
          (say "Error in ParametricShape: unknown name" empty_world)).
Proof.
  split.
  - apply (proj1 (ParametricShape_names "Klein" (PStr "powderblue") 1 51
                    empty_world)).
    simpl. tauto.
  - apply (proj2 (ParametricShape_names "Sphere" (PStr "powderblue") 1 51
                    empty_world)).
    simpl. intuition discriminate.
Defined.

(** An integer name is taken modulo the number of shapes, so every integer,
    negative ones included, selects a shape: the call returns an actor named
    after the entry [i mod 18] of the list, and [i + 18] selects what [i]
    does. *)
Theorem ParametricShape_integer_name
  (i : Z) (c : pyval) (alpha res : R) (w : world) :
  let out := ParametricShape (NameInt i) c alpha res w in
  (exists actor,
     fst out = Ok (Some (List.length (heap w)))
     /\ deref (snd out) (List.length (heap w)) = Some actor
     /\ name actor = nth (Z.to_nat (i mod 18)) shapes EmptyString
     /\ In (name actor) shapes)
  /\ ParametricShape (NameInt (i + 18)) c alpha res w = out.
Proof.
  intros out. subst out.
  assert (Hin : In (nth (Z.to_nat (i mod 18)) shapes EmptyString) shapes).
  { apply nth_In. change (List.length shapes) with 18%nat.
    pose proof (Z.mod_pos_bound i 18 ltac:(lia)). lia. }
  split.
  - destruct (ParametricShape_known _ c alpha res w Hin) as (actor & H).
    exists actor. change (ParametricShape (NameInt i) c alpha res w)
      with (ParametricShape
              (NameStr (nth (Z.to_nat (i mod 18)) shapes EmptyString))
              c alpha res w).
    destruct H as (H1 & H2 & H3 & _). repeat split; try assumption.
    rewrite H3. exact Hin.
  - unfold ParametricShape. change (Z.of_nat (List.length shapes)) with 18%Z.
    replace ((i + 18) mod 18)%Z with (i mod 18)%Z; [reflexivity|].
    rewrite <- (Z.mul_1_l 18) at 2. now rewrite Z.mod_add by lia.
Qed.

(** ** Text *)

Lemma clamp_corner (k : Z) :
  (let k1 := if (8 <? k)%Z then 8%Z else k in
   if (k1 <? 1)%Z then 1%Z else k1) = Z.max 1 (Z.min 8 k).
Proof.
  cbv zeta. destruct (Z.ltb_spec 8 k).
  - change (8 <? 1)%Z with false. cbv iota. lia.
  - destruct (Z.ltb_spec k 1); lia.
Qed.

(** An integer position is clamped to the corners 1..8: for every integer
    [Text] returns a corner annotation, never [None], whose corner index is
    [max 1 (min 8 pos) - 1], between 0 and 7, and collects it; the font is
    not looked up. *)
Theorem Text_corner_clamped
  (env : TextEnv) (txt : string) (k : Z) (s depth : R) (justify : string)
  (c : pyval) (alpha : R) (bc bg : pyval) (font : string) (w : world) :
  let out := Text env txt (PosInt k) s depth justify c alpha bc bg font w in
  let corner := (Z.max 1 (Z.min 8 k) - 1)%Z in
  exists actor,
    fst out = Ok (Some (List.length (heap w)))
    /\ deref (snd out) (List.length (heap w)) = Some actor
    /\ poly actor = pd_source "vtkCornerAnnotation" [IZR corner; s / 2.7] []
    /\ (0 <= corner <= 7)%Z
    /\ collectable_actors (snd out)
       = collectable_actors w ++ [Some (List.length (heap w))].
Proof.
  intros out corner. subst out. unfold Text.
  pose proof (clamp_corner k) as Hk. cbv zeta in Hk. rewrite Hk. fold corner.
  destruct (builtin_font font); destruct (truthy_val bg);
    repeat mstep; unfold ret; cbn [fst snd]; rewrite !list_update_last;
    (eexists; split; [reflexivity|]; split;
     [unfold deref; cbn [heap]; apply nth_error_last|];
     split; [reflexivity|];
     split; [subst corner; lia | reflexivity]).
Qed.

(** A text placed at screen coordinates (x, y) needs a font that is found:
    with a font that is neither built in, nor one of [settings.fonts], nor an
    existing file, [Text] prints the two messages and returns [None]; nothing
    is built and the registry is left as it was. *)
Theorem Text_2d_font_not_found
  (env : TextEnv) (txt : string) (x y s depth : R) (justify : string)
  (c : pyval) (alpha : R) (bc bg : pyval) (font : string) (w : world) :
  builtin_font font = false ->
  ~ In font (fonts env) ->
  os_path_exists env font = false ->
  Text env txt (PosSeq [x; y]) s depth justify c alpha bc bg font w
  = (Ok None, say "Available fonts are:" (say "Font not found" w)).
Proof.
  intros Hb Hf Hp. unfold Text. cbn [List.length Nat.eqb].
  rewrite Hb, Hp. destruct (in_dec string_dec font (fonts env)); [contradiction|].
  reflexivity.
Qed.

Lemma Text_2d_font_not_found_witness :
  Text plain_env "hello" (PosSeq [10; 20]) 1 0.1 "bottom-left" PNone 1 PNone
    PNone "Komiko" empty_world
  = (Ok None, say "Available fonts are:" (say "Font not found" empty_world)).
Proof.
  apply Text_2d_font_not_found.
  - reflexivity.
  - simpl. tauto.
  - reflexivity.
Defined.

(** ** Marker *)

Lemma Polygon_run (pos : coords) (n : nat) (r : R) (c : pyval) (a : R) (w : world) :
  Polygon pos n r c a w
  = (Ok (List.length (heap w)),
     {| heap := heap w
                ++ [set_name "Polygon"
                      (set_position pos
                         (new_Actor
                            (pd_source "vtkRegularPolygonSource" [INR n; r] [])
                            c a))];
        pylists := pylists w;
        collectable_actors := collectable_actors w ++ [Some (List.length (heap w))];
        stdout := stdout w |}).
Proof.
  unfold Polygon. repeat mstep. unfold ret. rewrite !list_update_last.
  reflexivity.
Qed.

Lemma Text_3d_run (env : TextEnv) (txt : string) (p : coords) (s : R)
  (justify : string) (c : pyval) (a : R) (font : string) (w : world) :
  List.length p <> 2%nat ->
  exists x,
    Text env txt (PosSeq p) s 0 justify c a PNone PNone font w
    = (Ok (Some (List.length (heap w))),
       {| heap := heap w ++ [x]; pylists := pylists w;
          collectable_actors := collectable_actors w
                                ++ [Some (List.length (heap w))];
          stdout := stdout w |}).
Proof.
  intros Hp. apply Nat.eqb_neq in Hp. unfold Text. rewrite Hp.
  unfold truthy. destruct (Req_dec_T 0 0) as [_|H]; [|exfalso; apply H; reflexivity].
  repeat mstep. unfold ret. rewrite !list_update_last. eexists. reflexivity.
Qed.

Section MarkerFacts.

Variable RegularPolygonSource_points : nat -> R -> list coords.
Variable env : TextEnv.

(** An integer symbol is not consulted: the entry of the symbol table is
    taken at the size [s].  With a size that is a float, the default
    included, the call raises [TypeError]; with an integer size [k] the
    marker is the one of the symbol of rank [k], whatever integer was passed
    as symbol, and a rank past the table raises [IndexError]. *)
Theorem Marker_integer_symbol
  (i : Z) (c : pyval) (alpha : R) (filled : bool) (w : world) :
  (forall x,
     Marker RegularPolygonSource_points env (SymInt i) c alpha (NFloat x) filled w
     = (Raise TypeError, w))
  /\ (forall k, (0 <= k < 14)%Z ->
        Marker RegularPolygonSource_points env (SymInt i) c alpha (NInt k) filled w
        = Marker RegularPolygonSource_points env
            (SymStr (nth (Z.to_nat k) symbs EmptyString)) c alpha (NInt k)
            filled w)
  /\ (forall k, (14 <= k)%Z ->
        Marker RegularPolygonSource_points env (SymInt i) c alpha (NInt k) filled w
        = (Raise IndexError, w)).
Proof.
  split; [|split].
  - intros x. reflexivity.
  - intros k Hk. unfold Marker, symbs_at.
    change (Z.of_nat (List.length symbs)) with 14%Z.
    destruct (Z.ltb_spec k 0); [lia|].
    destruct (Z.ltb_spec k 0); [lia|].
    destruct (Z.leb_spec 14 k); [lia|]. reflexivity.
  - intros k Hk. unfold Marker, symbs_at.
    change (Z.of_nat (List.length symbs)) with 14%Z.
    destruct (Z.ltb_spec k 0); [lia|].
    destruct (Z.ltb_spec k 0); [lia|].
    destruct (Z.leb_spec 14 k); [|lia]. reflexivity.
Qed.

(** For every symbol given as a string other than the star, known or not,
    [Marker] returns an actor named "Marker" with the colour and the alpha of
    the call, flat, with ambient lighting, and collected once - by the
    factory that built the shape; an unknown symbol is drawn as text. *)
Theorem Marker_string_symbol
  (symbol : string) (c : pyval) (al : R) (s : pynum) (filled : bool)
  (w : world) :
  symbol <> "*" ->
  exists w' actor,
    Marker RegularPolygonSource_points env (SymStr symbol) c al s filled w
    = (Ok (List.length (heap w)), w')
    /\ deref w' (List.length (heap w)) = Some actor
    /\ name actor = "Marker"
    /\ color actor = c
    /\ alpha actor = al
    /\ In "flat" (style actor)
    /\ collectable_actors w'
       = collectable_actors w ++ [Some (List.length (heap w))].
Proof.
  intros Hstar. apply String.eqb_neq in Hstar.
  unfold Marker. mstep.
  assert (HT : forall txt sz k,
             exists x, bind (Text env txt (PosSeq [0; 0; 0]) sz 0 "center" PNone 1
                               PNone PNone "courier") k w
                       = k (Some (List.length (heap w)))
                           {| heap := heap w ++ [x]; pylists := pylists w;
                              collectable_actors :=
                                collectable_actors w
                                ++ [Some (List.length (heap w))];
                              stdout := stdout w |} :> (result ref * world)).
  { intros txt sz k.
    destruct (Text_3d_run env txt [0; 0; 0] sz "center" PNone 1 "courier" w)
      as (x & Hx); [discriminate|].
    exists x. now rewrite (bind_Ok _ _ _ _ _ Hx). }
  rewrite Hstar.
  repeat match goal with
         | |- context [String.eqb symbol ?n] => destruct (String.eqb symbol n)
         end.
  all: repeat first [ rewrite bind_assoc | rewrite (bind_Ok _ _ _ _ _ (Polygon_run _ _ _ _ _ _)) | mstep ].
  all: try (match goal with
            | |- context [bind (Text _ ?txt _ ?sz _ _ _ _ _ _ _) ?k _] =>
                destruct (HT txt sz k) as (x & Hx); rewrite Hx; clear Hx
            end).
  all: repeat mstep.
  all: unfold ret; rewrite !list_update_last.
  all: eexists; eexists; split; [reflexivity|]; split;
    [unfold deref; cbn [heap]; apply nth_error_last|].
  all: cbn [name color alpha style set_name set_alpha set_color add_style].
  all: split; [reflexivity|]; split; [reflexivity|]; split; [reflexivity|].
  all: split; [|reflexivity].
  all: rewrite !in_app_iff; simpl; tauto.
Qed.

End MarkerFacts.

Lemma Marker_string_symbol_witness :
  exists w' actor,
    Marker (fun _ _ => []) plain_env (SymStr "o") (PStr "lb") 1 (NFloat 0.1) true
      empty_world
    = (Ok (List.length (heap empty_world)), w')
    /\ deref w' (List.length (heap empty_world)) = Some actor
    /\ name actor = "Marker"
    /\ color actor = PStr "lb"
    /\ alpha actor = 1
    /\ In "flat" (style actor)
    /\ collectable_actors w'
       = collectable_actors empty_world
         ++ [Some (List.length (heap empty_world))].
Proof.
  apply Marker_string_symbol. discriminate.
Defined.

(** ** Line on a list of points *)

Lemma Line_polyline_run (p : coords) (l : list coords) (c : pyval) (a lw : R)
  (w : world) :
  List.length p <> 2%nat ->
  Line (LPoints (p :: l)) None c a lw false None w
  = (Ok (List.length (heap w)),
     {| heap := heap w
                ++ [set_name "Line"
                      (set_base_top (Nd2 (p :: l)) NdNone
                         (set_lw lw (new_Actor (pd_polyline (p :: l)) c a)))];
        pylists := pylists w;
        collectable_actors := collectable_actors w ++ [Some (List.length (heap w))];
        stdout := stdout w |}).
Proof.
  intros Hp. apply Nat.eqb_neq in Hp. unfold Line.
  assert (Hd : detect_xy (LPoints (p :: l)) None = Ok (LPoints (p :: l), None)).
  { unfold detect_xy. destruct (3 <? line_len (LPoints (p :: l)))%nat; reflexivity. }
  rewrite Hd. repeat mstep. cbn [first_isSequence]. mstep.
  cbn [hd]. rewrite Hp. repeat mstep. unfold ret. rewrite !list_update_last.
  reflexivity.
Qed.

(** ** Spring *)

(** Between two distinct points of three coordinates [Spring] returns an
    actor placed at the start point, and leaves two entries in the registry:
    the helper line it builds the coil from, then the spring itself.  The
    transform of the coil carries the end of its axis, (0, 0, length), onto
    [endPoint - startPoint]. *)
Theorem Spring_between_points
  (x0 y0 z0 x1 y1 z1 : R) (coils : nat) (r : R) (r2 thickness : option R)
  (c : pyval) (alpha : R) (w : world) :
  norm [x1 - x0; y1 - y0; z1 - z0] <> 0 ->
  let length := norm [x1 - x0; y1 - y0; z1 - z0] in
  let line := List.length (heap w) in
  let spring := S (List.length (heap w)) in
  exists w' helper actor ops th,
    Spring [x0; y0; z0] [x1; y1; z1] coils r r2 thickness c alpha w
    = (Ok (Some spring), w')
    /\ deref w' line = Some helper
    /\ name helper = "Line"
    /\ deref w' spring = Some actor
    /\ name actor = "Spring"
    /\ position actor = Some [x0; y0; z0]
    /\ poly actor
       = pd_source "vtkTubeFilter" [12; th] [pd_transform ops (poly helper)]
    /\ apply_transform ops (0, 0, length) = (x1 - x0, y1 - y0, z1 - z0)
    /\ collectable_actors w'
       = collectable_actors w ++ [Some line; Some spring].
Proof.
  intros HL length line spring.
  set (dx := x1 - x0) in *. set (dy := y1 - y0) in *. set (dz := z1 - z0) in *.
  unfold Spring.
  change (np_sub [x1; y1; z1] [x0; y0; z0]) with (Ok [dx; dy; dz]).
  mstep. fold length.
  unfold truthy at 1. destruct (Req_dec_T length 0) as [E|_]; [contradiction|].
  cbn [negb]. cbv iota.
  unfold np_div. destruct (Req_dec_T length 0) as [E|_]; [contradiction|].
  mstep. cbn [map item nth_error]. repeat mstep.
  cbn [app].
  match goal with
  | |- context [Line (LPoints ([0; 0; 0] :: ?l)) None _ _ _ false None] =>
      set (pts := l)
  end.
  assert (H3 : List.length [0; 0; 0] <> 2%nat) by discriminate.
  pose proof (Line_polyline_run [0; 0; 0] pts (PStr "r") 1 1 w H3) as HLine.
  match type of HLine with
  | _ = (_, {| heap := _ ++ [?x]; pylists := _; collectable_actors := _;
               stdout := _ |}) =>
      remember x as helper eqn:Hhelper in HLine
  end.
  rewrite (bind_Ok _ _ _ _ _ HLine).
  unfold bind at 1. unfold deref at 1. cbn [heap]. rewrite nth_error_last.
  repeat mstep. unfold ret.
  assert (Hlen : List.length (heap w ++ [helper]) = spring)
    by (rewrite length_app; simpl; subst spring; lia).
  rewrite Hlen.
  assert (Hup : forall (b : Actor) (f : Actor -> Actor),
             list_update ((heap w ++ [helper]) ++ [b]) spring f
             = (heap w ++ [helper]) ++ [f b]).
  { intros b f. rewrite <- Hlen. apply list_update_last. }
  rewrite !Hup.
  exists {| heap := (heap w ++ [helper])
                    ++ [set_name "Spring"
                          (set_base_top (Nd1 [x0; y0; z0]) (Nd1 [x1; y1; z1])
                             (set_position [x0; y0; z0]
                                (add_style "phong"
                                   (new_Actor
                                      (pd_source "vtkTubeFilter"
                                         [12;
                                          if truthy_opt thickness
                                          then match thickness with
                                               | Some x => x
                                               | None => 0
                                               end
                                          else (if truthy r then r
                                                else length / 20) / 10]
                                         [pd_transform
                                            [RotateZ
                                               (rad2deg
                                                  (arctan2 (dy / length)
                                                     (dx / length)));
                                             RotateY
                                               (rad2deg (acos (dz / length)))]
                                            (poly helper)])
                                      c alpha))))];
            pylists := pylists w;
            collectable_actors :=
              (collectable_actors w ++ [Some line]) ++ [Some spring];
            stdout := stdout w |}.
  exists helper. eexists. eexists. eexists.
  split; [reflexivity|].
  split.
  { unfold deref. cbn [heap]. rewrite <- app_assoc. cbn [app].
    apply nth_error_middle. }
  split; [rewrite Hhelper; reflexivity|]. split.
  { unfold deref. cbn [heap]. rewrite <- Hlen. apply nth_error_last. }
  split; [reflexivity|]. split; [reflexivity|]. split; [reflexivity|].
  split.
  - destruct (unit_from_angles (dx / length) (dy / length) (dz / length)
                (norm3_unit dx dy dz HL)) as (Hx & Hy & Hz).
    unfold apply_transform. simpl fold_right. unfold apply_op.
    rewrite !deg2rad_rad2deg.
    assert (Ex : length * (dx / length) = dx) by (field; exact HL).
    assert (Ey : length * (dy / length) = dy) by (field; exact HL).
    assert (Ez : length * (dz / length) = dz) by (field; exact HL).
    rewrite <- Hx in Ex at 1. rewrite <- Hy in Ey at 1. rewrite <- Hz in Ez at 1.
    f_equal; [f_equal|]; nra.
  - cbn [collectable_actors]. rewrite <- app_assoc. reflexivity.
Qed.

Lemma Spring_between_points_witness :
  let length := norm [1 - 0; 0 - 0; 0 - 0] in
  let line := List.length (heap empty_world) in
  let spring := S (List.length (heap empty_world)) in
  exists w' helper actor ops th,
    Spring [0; 0; 0] [1; 0; 0] 20 0.1 None None (PStr "grey") 1 empty_world
    = (Ok (Some spring), w')
    /\ deref w' line = Some helper
    /\ name helper = "Line"
    /\ deref w' spring = Some actor
    /\ name actor = "Spring"
    /\ position actor = Some [0; 0; 0]
    /\ poly actor
       = pd_source "vtkTubeFilter" [12; th] [pd_transform ops (poly helper)]
    /\ apply_transform ops (0, 0, length) = (1 - 0, 0 - 0, 0 - 0)
    /\ collectable_actors w'
       = collectable_actors empty_world ++ [Some line; Some spring].
Proof.
  apply (Spring_between_points 0 0 0 1 0 0).
  rewrite norm3. intros H. apply sqrt_eq_0 in H; lra.
Defined.

(** ** Star *)

Lemma star_inner_ok (p q : coords) (r1 r2 : R) :
  List.length p = List.length q -> r2 <> 0 ->
  exists m, star_inner p q r1 r2 = Ok m.
Proof.
  intros Hl Hr. unfold star_inner, np_add.
  rewrite np_binop_same by exact Hl. cbn [rbind].
  unfold np_div. destruct (Req_dec_T r2 0); [contradiction | eauto].
Qed.

Lemma star_loop_ok (pts : list coords) (n : nat) (r1 r2 : R) (d : nat) :
  List.length pts = n ->
  Forall (fun p => List.length p = d) pts ->
  r2 <> 0 ->
  forall (l : list coords) (i : nat),
    Forall (fun p => List.length p = d) l ->
    (i + List.length l = n)%nat ->
    exists res, star_loop pts i n l r1 r2 = Ok res
                /\ List.length res = (2 * List.length l - 1)%nat
                /\ hd_error res = hd_error l.
Proof.
  intros Hn Hd Hr l. induction l as [|p l IH]; intros i Hl Hi.
  - exists []. repeat split.
  - inversion_clear Hl as [|? ? Hp Hl'].
    cbn [List.length] in Hi.
    destruct (IH (S i) Hl' ltac:(lia)) as (rest & Hrest & Hlen & _).
    cbn [star_loop]. destruct (Nat.ltb_spec (i + 1) n) as [Hlt|Hge].
    + destruct (nth_error pts (i + 1)) as [q|] eqn:Hq;
        [|apply nth_error_None in Hq; lia].
      assert (Hqd : List.length q = List.length p).
      { apply nth_error_In in Hq. rewrite Forall_forall in Hd.
        rewrite (Hd q Hq). symmetry. exact Hp. }
      destruct (star_inner_ok p q r1 r2 (eq_sym Hqd) Hr) as (m & Hm).
      cbn [rbind]. rewrite Hm. cbn [rbind]. rewrite Hrest. cbn [rbind].
      eexists. split; [reflexivity|]. split; [|reflexivity].
      cbn [List.length app]. rewrite Hlen. lia.
    + cbn [rbind]. rewrite Hrest. cbn [rbind].
      eexists. split; [reflexivity|]. split; [|reflexivity].
      cbn [List.length app]. rewrite Hlen. lia.
Qed.

Lemma star_cells_ok (n : nat) (i0 : option nat) :
  (1 <= n)%nat ->
  exists cells,
    star_cells n i0 = Ok cells
    /\ List.length cells = (2 * n)%nat
    /\ Forall (Forall (fun i => (i < 2 * n + 1)%nat)) cells.
Proof.
  intros Hn. unfold star_cells.
  destruct (2 * n - 1)%nat as [|k] eqn:Hk; [lia|].
  cbn [rbind]. eexists. split; [reflexivity|]. split.
  - rewrite length_app, length_map, length_seq. simpl. lia.
  - apply Forall_app. split.
    + apply Forall_forall. intros cell Hc. apply in_map_iff in Hc.
      destruct Hc as (i & <- & Hi). apply in_seq in Hi.
      repeat constructor; lia.
    + repeat constructor; lia.
Qed.

Section StarFacts.

Variable RegularPolygonSource_points : nat -> R -> list coords.

(** The points of the star, before the closing point of the line or the
    centre of the mesh is added. *)
Lemma Star_points (n : nat) (r1 r2 : R) (d : nat) :
  (1 <= n)%nat ->
  List.length (RegularPolygonSource_points n r2) = n ->
  Forall (fun p => List.length p = d) (RegularPolygonSource_points n r2) ->
  r2 <> 0 ->
  exists p0 rest apts plast m,
    RegularPolygonSource_points n r2 = p0 :: rest
    /\ star_loop (RegularPolygonSource_points n r2) 0 n
         (RegularPolygonSource_points n r2) r1 r2 = Ok (p0 :: apts)
    /\ List.length (p0 :: apts) = (2 * n - 1)%nat
    /\ item_back (RegularPolygonSource_points n r2) 1 = Ok plast
    /\ star_inner plast p0 r1 r2 = Ok m.
Proof.
  intros Hn Hlen Hd Hr.
  destruct (star_loop_ok _ n r1 r2 d Hlen Hd Hr _ 0%nat Hd Hlen)
    as (res & Hres & Hrl & Hhd).
  destruct (RegularPolygonSource_points n r2) as [|p0 rest] eqn:Hpts;
    [simpl in Hlen; lia|].
  destruct res as [|q apts]; [discriminate|].
  cbn [hd_error] in Hhd. injection Hhd as ->.
  assert (Hlast : exists plast, item_back (p0 :: rest) 1 = Ok plast
                                /\ In plast (p0 :: rest)).
  { unfold item_back. cbn [Nat.sub].
    destruct (nth_error (rev (p0 :: rest)) 0) as [pl|] eqn:Hpl.
    - exists pl. split; [reflexivity|].
      apply nth_error_In in Hpl. now apply in_rev.
    - apply nth_error_None in Hpl. rewrite length_rev in Hpl. simpl in Hpl. lia. }
  destruct Hlast as (plast & Hlast & Hin).
  assert (Hpl : List.length plast = List.length p0).
  { rewrite Forall_forall in Hd.
    rewrite (Hd plast Hin), (Hd p0 (or_introl eq_refl)). reflexivity. }
  destruct (star_inner_ok plast p0 r1 r2 Hpl Hr) as (m & Hm).
  exists p0, rest, apts, plast, m. rewrite Hlen in Hrl.
  repeat split; assumption.
Qed.

(** The star as a mesh: for [n >= 1] cusps, a polygon source that gives [n]
    points of one dimension and an outer radius other than 0, [Star] returns
    a mesh of [2n + 1] vertices, the centre (0, 0, 0) last, and [2n]
    triangles whose corners are all vertices of the mesh; the actor is
    placed at [pos] and collected once. *)
Theorem Star_mesh
  (pos : coords) (n : nat) (r1 r2 : R) (c : pyval) (alpha : R) (d : nat)
  (w : world) :
  (1 <= n)%nat ->
  List.length (RegularPolygonSource_points n r2) = n ->
  Forall (fun p => List.length p = d) (RegularPolygonSource_points n r2) ->
  r2 <> 0 ->
  exists w' actor apts cells,
    Star RegularPolygonSource_points pos n r1 r2 false c alpha w
    = (Ok (List.length (heap w)), w')
    /\ deref w' (List.length (heap w)) = Some actor
    /\ poly actor = pd_mesh apts cells
    /\ List.length apts = (2 * n + 1)%nat
    /\ last apts [] = [0; 0; 0]
    /\ List.length cells = (2 * n)%nat
    /\ Forall (Forall (fun i => (i < List.length apts)%nat)) cells
    /\ name actor = "Star"
    /\ position actor = Some pos
    /\ collectable_actors w'
       = collectable_actors w ++ [Some (List.length (heap w))].
Proof.
  intros Hn Hlen Hd Hr.
  destruct (Star_points n r1 r2 d Hn Hlen Hd Hr)
    as (p0 & rest & apts & plast & m & Hpts & Hloop & Hal & Hlast & Hm).
  unfold Star. rewrite Hloop. mstep. rewrite Hlast. mstep.
  rewrite Hpts. mstep. rewrite Hm. mstep.
  destruct (star_cells_ok n (Some (List.length rest)) Hn)
    as (cells & Hcells & Hcl & Hci).
  rewrite Hcells. repeat mstep. unfold ret. rewrite !list_update_last.
  assert (Hla : List.length (((p0 :: apts) ++ [m]) ++ [[0; 0; 0]])
                = (2 * n + 1)%nat).
  { rewrite !length_app, Hal. simpl. lia. }
  eexists. eexists. exists (((p0 :: apts) ++ [m]) ++ [[0; 0; 0]]), cells.
  split; [reflexivity|]. split.
  { unfold deref. cbn [heap]. apply nth_error_last. }
  split; [reflexivity|]. split; [exact Hla|].
  split; [apply last_last|]. split; [exact Hcl|].
  split; [rewrite Hla; exact Hci|].
  repeat split.
Qed.

(** The star as a line: under the same conditions [Star] with [line=True]
    returns the closed outline of [2n + 1] points, which ends at the point
    it starts from, and the actor is in the registry twice - [Line] appended
    it and [Star] appends it again. *)
Theorem Star_line_collected_twice
  (pos : coords) (n : nat) (r1 r2 : R) (c : pyval) (alpha : R) (d : nat)
  (w : world) :
  (1 <= n)%nat ->
  d <> 2%nat ->
  List.length (RegularPolygonSource_points n r2) = n ->
  Forall (fun p => List.length p = d) (RegularPolygonSource_points n r2) ->
  r2 <> 0 ->
  exists w' actor p0 apts,
    Star RegularPolygonSource_points pos n r1 r2 true c alpha w
    = (Ok (List.length (heap w)), w')
    /\ deref w' (List.length (heap w)) = Some actor
    /\ poly actor = pd_polyline (p0 :: apts)
    /\ List.length (p0 :: apts) = (2 * n + 1)%nat
    /\ last apts p0 = p0
    /\ name actor = "Star"
    /\ color actor = c
    /\ collectable_actors w'
       = collectable_actors w
         ++ [Some (List.length (heap w)); Some (List.length (heap w))].
Proof.
  intros Hn Hd2 Hlen Hd Hr.
  destruct (Star_points n r1 r2 d Hn Hlen Hd Hr)
    as (p0 & rest & apts & plast & m & Hpts & Hloop & Hal & Hlast & Hm).
  assert (Hp0 : List.length p0 <> 2%nat).
  { rewrite Hpts in Hd. inversion_clear Hd as [|? ? H0 _]. rewrite H0. exact Hd2. }
  unfold Star. rewrite Hloop. mstep. rewrite Hlast. mstep.
  rewrite Hpts. mstep. rewrite Hm. mstep.
  cbn [app].
  rewrite bind_assoc.
  rewrite (bind_Ok _ _ _ _ _
             (Line_polyline_run p0 ((apts ++ [m]) ++ [p0]) (PStr "r") 1 1 w Hp0)).
  repeat mstep. unfold ret. rewrite !list_update_last.
  eexists. eexists. exists p0, ((apts ++ [m]) ++ [p0]).
  split; [reflexivity|]. split.
  { unfold deref. cbn [heap]. apply nth_error_last. }
  split; [reflexivity|]. split.
  { cbn [List.length] in *. rewrite !length_app. simpl. lia. }
  split; [apply last_last|].
  split; [reflexivity|]. split; [reflexivity|].
  cbn [collectable_actors]. rewrite <- app_assoc. reflexivity.
Qed.

End StarFacts.

Lemma square_source_ok (r : R) :
  List.length (square_source 4 r) = 4%nat
  /\ Forall (fun p => List.length p = 3%nat) (square_source 4 r).
Proof. split; [reflexivity | repeat constructor]. Qed.

Lemma Star_mesh_witness :
  exists w' actor apts cells,
    Star square_source [0; 0; 0] 4 0.7 1 false (PStr "lb") 1 empty_world
    = (Ok (List.length (heap empty_world)), w')
    /\ deref w' (List.length (heap empty_world)) = Some actor
    /\ poly actor = pd_mesh apts cells
    /\ List.length apts = (2 * 4 + 1)%nat
    /\ last apts [] = [0; 0; 0]
    /\ List.length cells = (2 * 4)%nat
    /\ Forall (Forall (fun i => (i < List.length apts)%nat)) cells
    /\ name actor = "Star"
    /\ position actor = Some [0; 0; 0]
    /\ collectable_actors w'
       = collectable_actors empty_world
         ++ [Some (List.length (heap empty_world))].
Proof.
  apply (Star_mesh square_source [0; 0; 0] 4 0.7 1 (PStr "lb") 1 3).
  - lia.
  - apply square_source_ok.
  - apply square_source_ok.
  - lra.
Defined.

Lemma Star_line_collected_twice_witness :
  exists w' actor p0 apts,
    Star square_source [0; 0; 0] 4 0.7 1 true (PStr "lb") 1 empty_world
    = (Ok (List.length (heap empty_world)), w')
    /\ deref w' (List.length (heap empty_world)) = Some actor
    /\ poly actor = pd_polyline (p0 :: apts)
    /\ List.length (p0 :: apts) = (2 * 4 + 1)%nat
    /\ last apts p0 = p0
    /\ name actor = "Star"
    /\ color actor = PStr "lb"
    /\ collectable_actors w'
       = collectable_actors empty_world
         ++ [Some (List.length (heap empty_world));
             Some (List.length (heap empty_world))].
Proof.
  apply (Star_line_collected_twice square_source [0; 0; 0] 4 0.7 1 (PStr "lb")
           1 3).
  - lia.
  - discriminate.
  - apply square_source_ok.
  - apply square_source_ok.
  - lra.
Defined.

(** ** FlatArrow *)

Lemma lists_update_same (ls : list (list coords)) (i : nat) (p : coords)
  (l : list coords) :
  nth_error ls i = Some l -> nth_error (lists_update ls i p) i = Some (l ++ [p]).
Proof.
  revert i. induction ls as [|x ls IH]; intros [|i] H; simpl in *;
    try discriminate.
  - injection H as ->. reflexivity.
  - apply IH. exact H.
Qed.

Lemma lists_update_other (ls : list (list coords)) (i j : nat) (p : coords) :
  i <> j -> nth_error (lists_update ls i p) j = nth_error ls j.
Proof.
  revert i j. induction ls as [|x ls IH]; intros [|i] [|j] H; simpl;
    try reflexivity; try congruence.
  apply IH. congruence.
Qed.

Lemma item_back_1 (l : list coords) (q p : coords) :
  item_back (l ++ [q; p]) 1 = Ok p.
Proof. unfold item_back. rewrite rev_app_distr. reflexivity. Qed.

Lemma item_back_2 (l : list coords) (q p : coords) :
  item_back (l ++ [q; p]) 2 = Ok q.
Proof. unfold item_back. rewrite rev_app_distr. reflexivity. Qed.

Lemma np_scale_length (t : R) (v : coords) :
  List.length (np_scale t v) = List.length v.
Proof. apply length_map. Qed.

Lemma list_get_run {B : Type} (r : lref) (l : list coords) (k : list coords -> M B)
  (w : world) :
  nth_error (pylists w) r = Some l -> bind (list_get r) k w = k l w.
Proof. intros H. unfold bind, list_get. rewrite H. reflexivity. Qed.

Lemma list_get_rec {B : Type} (r : lref) (l : list coords)
  (k : list coords -> M B) (h : list Actor) (pl : list (list coords))
  (reg : list (option ref)) (out : list string) :
  nth_error pl r = Some l ->
  bind (list_get r) k
    {| heap := h; pylists := pl; collectable_actors := reg; stdout := out |}
  = k l {| heap := h; pylists := pl; collectable_actors := reg; stdout := out |}.
Proof. intros H. unfold bind, list_get. cbn [pylists]. rewrite H. reflexivity. Qed.

Lemma bind_list_append {B : Type} (r : lref) (p : coords) (k : unit -> M B)
  (w : world) :
  bind (list_append r p) k w
  = k tt {| heap := heap w; pylists := lists_update (pylists w) r p;
            collectable_actors := collectable_actors w; stdout := stdout w |}.
Proof. reflexivity. Qed.

Lemma collect_pop_last {B : Type} (k : unit -> M B) (h : list Actor)
  (pl : list (list coords)) (reg : list (option ref)) (x : option ref)
  (out : list string) :
  bind collect_pop k
    {| heap := h; pylists := pl; collectable_actors := reg ++ [x]; stdout := out |}
  = k tt {| heap := h; pylists := pl; collectable_actors := reg; stdout := out |}.
Proof.
  unfold bind, collect_pop. cbn [collectable_actors].
  rewrite rev_app_distr. cbn [rev app]. rewrite rev_involutive. reflexivity.
Qed.

(** [FlatArrow] changes the lists it is given: two distinct lists whose last
    two points have one dimension each get two more points, the corner of the
    tip and the tip itself, which is the same point in both; the ribbon is
    built on the lists so extended.  The entry that [Ribbon] put in the
    registry is taken out before the arrow is appended, so the registry gets
    one entry. *)
Theorem FlatArrow_extends_its_lists
  (line1 line2 : lref) (l1 l2 : list coords) (a1 s1 a2 s2 : coords)
  (c : pyval) (alpha tipSize tipWidth : R) (w : world) :
  line1 <> line2 ->
  nth_error (pylists w) line1 = Some (l1 ++ [a1; s1]) ->
  nth_error (pylists w) line2 = Some (l2 ++ [a2; s2]) ->
  List.length s2 = List.length s1 ->
  List.length a1 = List.length s1 ->
  List.length a2 = List.length s1 ->
  tipWidth <> 0 ->
  norm (map2 Rminus (map (fun x => x / 2) (map2 Rplus s1 s2))
          (map (fun x => x / 2) (map2 Rplus a1 a2))) <> 0 ->
  exists w' actor p1 p2 tip resm,
    FlatArrow line1 line2 c alpha tipSize tipWidth w
    = (Ok (List.length (heap w)), w')
    /\ nth_error (pylists w') line1 = Some (l1 ++ [a1; s1; p1; tip])
    /\ nth_error (pylists w') line2 = Some (l2 ++ [a2; s2; p2; tip])
    /\ deref w' (List.length (heap w)) = Some actor
    /\ poly actor
       = pd_source "vtkRuledSurfaceFilter" [resm; 1]
           [pd_source "vtkAppendPolyData" []
              [pd_polyline (l1 ++ [a1; s1; p1; tip]);
               pd_polyline (l2 ++ [a2; s2; p2; tip])]]
    /\ name actor = "FlatArrow"
    /\ collectable_actors w'
       = collectable_actors w ++ [Some (List.length (heap w))].
Proof.
  intros Hne H1 H2 Ls2 La1 La2 Htw Hn.
  unfold FlatArrow.
  rewrite (list_get_run _ _ _ _ H1), (list_get_run _ _ _ _ H2).
  rewrite !item_back_1. repeat mstep.
  unfold np_sub, np_add.
  rewrite (np_binop_same Rminus s1 s2) by (symmetry; exact Ls2). mstep.
  set (v := np_scale tipWidth (map (fun x => x / 3) (map2 Rminus s1 s2))).
  assert (Lv : List.length v = List.length s1).
  { subst v. rewrite np_scale_length, length_map, length_map2; auto. }
  rewrite (np_binop_same Rplus s1 v) by (symmetry; exact Lv). mstep.
  rewrite (np_binop_same Rminus s2 v) by congruence. mstep.
  rewrite (np_binop_same Rplus s1 s2) by (symmetry; exact Ls2). mstep.
  rewrite !item_back_2. repeat mstep.
  rewrite (np_binop_same Rplus a1 a2) by congruence. mstep.
  set (pm1 := map (fun x => x / 2) (map2 Rplus s1 s2)) in *.
  set (pm2 := map (fun x => x / 2) (map2 Rplus a1 a2)) in *.
  assert (Lpm1 : List.length pm1 = List.length s1).
  { subst pm1. rewrite length_map, length_map2; auto. }
  assert (Lpm2 : List.length pm2 = List.length s1).
  { subst pm2. rewrite length_map, length_map2; congruence. }
  rewrite (np_binop_same Rminus pm1 pm2) by congruence. mstep.
  unfold np_div at 1. destruct (Req_dec_T (norm (map2 Rminus pm1 pm2)) 0) as [E|_];
    [contradiction|].
  mstep.
  unfold np_div at 1. destruct (Req_dec_T tipWidth 0) as [E|_]; [contradiction|].
  mstep.
  match goal with
  | |- context [np_binop Rplus ?t pm1] => set (tp := t)
  end.
  assert (Ltp : List.length tp = List.length pm1).
  { subst tp. rewrite length_map, !np_scale_length, length_map, length_map2;
      congruence. }
  rewrite (np_binop_same Rplus tp pm1) by exact Ltp. mstep.
  rewrite !bind_list_append. cbn [heap pylists collectable_actors stdout].
  set (p1 := map2 Rplus s1 v). set (p2 := map2 Rminus s2 v).
  set (tip := map2 Rplus tp pm1).
  set (pl := lists_update
               (lists_update
                  (lists_update (lists_update (pylists w) line1 p1) line1 tip)
                  line2 p2) line2 tip).
  assert (G1 : nth_error pl line1 = Some (l1 ++ [a1; s1; p1; tip])).
  { subst pl. rewrite !lists_update_other by congruence.
    erewrite lists_update_same;
      [|erewrite lists_update_same; [reflexivity | exact H1]].
    rewrite <- !app_assoc. reflexivity. }
  assert (G2 : nth_error pl line2 = Some (l2 ++ [a2; s2; p2; tip])).
  { subst pl.
    erewrite lists_update_same;
      [|erewrite lists_update_same;
        [reflexivity | rewrite !lists_update_other by congruence; exact H2]].
    rewrite <- !app_assoc. reflexivity. }
  rewrite (list_get_rec _ _ _ _ _ _ _ G1), (list_get_rec _ _ _ _ _ _ _ G2).
  unfold Ribbon. repeat mstep.
  rewrite collect_pop_last. repeat mstep. unfold ret.
  rewrite !list_update_last.
  eexists. eexists. exists p1, p2, tip. eexists.
  split; [reflexivity|]. cbn [pylists].
  split; [exact G1|]. split; [exact G2|]. split.
  { unfold deref. cbn [heap]. apply nth_error_last. }
  repeat split.
Qed.

Lemma FlatArrow_extends_its_lists_witness :
  exists w' actor p1 p2 tip resm,
    FlatArrow 0%nat 1%nat (PStr "m") 1 1 1 two_lines_world
    = (Ok (List.length (heap two_lines_world)), w')
    /\ nth_error (pylists w') 0%nat
       = Some ([] ++ [[0; 0; 0]; [1; 0; 0]; p1; tip])
    /\ nth_error (pylists w') 1%nat
       = Some ([] ++ [[0; 1; 0]; [1; 1; 0]; p2; tip])
    /\ deref w' (List.length (heap two_lines_world)) = Some actor
    /\ poly actor
       = pd_source "vtkRuledSurfaceFilter" [resm; 1]
           [pd_source "vtkAppendPolyData" []
              [pd_polyline ([] ++ [[0; 0; 0]; [1; 0; 0]; p1; tip]);
               pd_polyline ([] ++ [[0; 1; 0]; [1; 1; 0]; p2; tip])]]
    /\ name actor = "FlatArrow"
    /\ collectable_actors w'
       = collectable_actors two_lines_world
         ++ [Some (List.length (heap two_lines_world))].
Proof.
  apply (FlatArrow_extends_its_lists 0%nat 1%nat [] []
           [0; 0; 0] [1; 0; 0] [0; 1; 0] [1; 1; 0]).
  - discriminate.
  - reflexivity.
  - reflexivity.
  - reflexivity.
  - reflexivity.
  - reflexivity.
  - lra.
  - unfold norm. cbn [map map2 fold_right]. intros H.
    apply sqrt_eq_0 in H; nra.
Defined.

(** ** Point *)

Section PointFacts.

Variable getColor : pyval -> R * R * R.

Lemma pos3_long (pos : coords) :
  (2 <= List.length pos)%nat -> pad3 (pos3 pos) = pos3 pos
                                /\ (2 <= List.length (pos3 pos))%nat
                                /\ pos3 pos = pad3 pos.
Proof.
  intros H. destruct pos as [|x [|y [|z l]]]; simpl in H; try lia.
  - repeat split; simpl; lia.
  - repeat split; simpl; lia.
Qed.

Lemma pos3_3 (pos : coords) :
  (2 <= List.length pos <= 3)%nat -> (2 <= List.length (pos3 pos) <= 3)%nat.
Proof.
  intros H. destruct pos as [|x [|y [|z l]]]; simpl in *; lia.
Qed.

(** [Point] at a position of two or three coordinates, with a colour that is
    a name or a number: the actor has its only vertex at the origin, is
    placed at the position (completed with z = 0), and the entry that
    [Points] put in the registry is this actor, now named "Point". *)
Theorem Point_at_position
  (pos : coords) (r : R) (c : pyval) (a : R) (w : world) :
  (2 <= List.length pos <= 3)%nat ->
  isSequence c = false ->
  exists w' actor,
    Point getColor pos r c (AlphaNum a) w = (Ok (Some (List.length (heap w))), w')
    /\ deref w' (List.length (heap w)) = Some actor
    /\ poly actor = pd_verts [[0; 0; 0]] None
    /\ position actor = Some (pad3 pos)
    /\ name actor = "Point"
    /\ collectable_actors w'
       = collectable_actors w ++ [Some (List.length (heap w))].
Proof.
  intros Hp Hc. destruct (pos3_long pos (proj1 Hp)) as (E1 & _ & E3).
  assert (Hpp : per_point_colors c (AlphaNum a) = Ok false)
    by (unfold per_point_colors; now rewrite Hc).
  unfold Point.
  rewrite (bind_Ok _ _ _ _ _
             (Points_single_run getColor (pos3 pos) r c a w (pos3_3 pos Hp) Hpp)).
  repeat mstep. unfold ret. rewrite !list_update_last.
  eexists. eexists. split; [reflexivity|]. split.
  { unfold deref. cbn [heap]. apply nth_error_last. }
  rewrite E1, E3. repeat split.
Qed.

(** A colour given to [Point] as a sequence of more than three entries, an
    RGBA tuple for one, is taken as a list of colours, one per point, and
    does not match the single point: the call raises [RuntimeError] and
    nothing is built or collected. *)
Theorem Point_long_colour_raises
  (pos : coords) (r : R) (l : list pyval) (alpha : alpha_arg) (w : world) :
  (2 <= List.length pos)%nat ->
  (3 < List.length l)%nat ->
  Point getColor pos r (PSeq l) alpha w
  = (Raise RuntimeError, say "mismatch in Points() colors" w).
Proof.
  intros Hp Hl. destruct (pos3_long pos Hp) as (E1 & E2 & E3).
  assert (HP : Points getColor [pos3 pos] r (PSeq l) alpha w
               = (Raise RuntimeError, say "mismatch in Points() colors" w)).
  { rewrite Points_nonempty by discriminate.
    change (interpret_plist [pos3 pos]) with (Ok [pos3 pos]). mstep.
    rewrite make3d_one, E1. mstep.
    assert (Hpp : per_point_colors (PSeq l) alpha = Ok true).
    { unfold per_point_colors. cbn [isSequence py_len].
      apply Nat.ltb_lt in Hl. rewrite Hl. reflexivity. }
    rewrite Hpp. mstep.
    assert (Hne : List.length [pos3 pos] <> List.length l) by (simpl; lia).
    rewrite (bind_Raise _ _ _ _ _
               (PointsColors_colors_mismatch getColor [pos3 pos] r (PSeq l) alpha
                  w (List.length l) eq_refl Hne)).
    reflexivity. }
  unfold Point. rewrite (bind_Raise _ _ _ _ _ HP). reflexivity.
Qed.

End PointFacts.

Lemma Point_at_position_witness :
  exists w' actor,
    Point black [1; 2] 12 (PStr "red") (AlphaNum 1) empty_world
    = (Ok (Some (List.length (heap empty_world))), w')
    /\ deref w' (List.length (heap empty_world)) = Some actor
    /\ poly actor = pd_verts [[0; 0; 0]] None
    /\ position actor = Some (pad3 [1; 2])
    /\ name actor = "Point"
    /\ collectable_actors w'
       = collectable_actors empty_world
         ++ [Some (List.length (heap empty_world))].
Proof.
  apply (Point_at_position black [1; 2] 12 (PStr "red") 1 empty_world).
  - simpl. lia.
  - reflexivity.
Defined.

Lemma Point_long_colour_raises_witness :
  Point black [1; 2; 3] 12 (PSeq [PNum 1; PNum 0; PNum 0; PNum 1]) (AlphaNum 1)
    empty_world
  = (Raise RuntimeError, say "mismatch in Points() colors" empty_world).
Proof.
  apply Point_long_colour_raises; simpl; lia.
Defined.

(** ** Lines *)

Lemma rectangular_Forall (l : list coords) (d : nat) :
  Forall (fun p => List.length p = d) l -> rectangular l = true.
Proof.
  intros H. unfold rectangular. apply forallb_forall. intros p Hp.
  apply Nat.eqb_eq. rewrite Forall_forall in H. rewrite (H p Hp).
  destruct l as [|q l]; [contradiction|]. cbn [hd].
  symmetry. apply H. left. reflexivity.
Qed.

Lemma map2_add_scaled_1 (p q : coords) :
  List.length p = List.length q ->
  map2 Rplus p (map (fun x => x * 1) (map2 Rminus q p)) = q.
Proof.
  revert q. induction p as [|x p IH]; intros [|y q] H; simpl in *;
    try discriminate; [reflexivity|].
  rewrite IH by congruence. f_equal. lra.
Qed.

Lemma lines_segment_ok (scale : R) (p q : coords) :
  List.length p = 3%nat -> List.length q = 3%nat ->
  lines_segment scale [p; q] = Ok (scaled_segment scale (p, q)).
Proof.
  intros Hp Hq.
  assert (H : List.length p = List.length q) by congruence.
  assert (Hs : List.length
                 (map2 Rplus p (map (fun x => x * scale) (map2 Rminus q p)))
               = 3%nat).
  { rewrite length_map2; [exact Hp|].
    rewrite length_map, length_map2; congruence. }
  unfold lines_segment, scaled_segment.
  cbn [point_at nth_error rbind fst snd].
  rewrite (vtk_point_3 p Hp). cbn [rbind].
  destruct (Req_dec_T scale 1) as [->|_].
  - cbn [rbind]. rewrite (vtk_point_3 q Hq). cbn [rbind].
    rewrite map2_add_scaled_1 by exact H. reflexivity.
  - cbn [rbind]. unfold np_sub, np_add.
    rewrite np_binop_same by (symmetry; exact H). cbn [rbind].
    rewrite np_binop_same by (rewrite length_map, length_map2; congruence).
    cbn [rbind]. rewrite (vtk_point_3 _ Hs). reflexivity.
Qed.

Lemma lines_loop_ok (scale : R) (starts ends : list coords) :
  Forall (fun p => List.length p = 3%nat) starts ->
  Forall (fun p => List.length p = 3%nat) ends ->
  lines_loop scale (map (fun pq => [fst pq; snd pq]) (combine starts ends))
  = Ok (map (scaled_segment scale) (combine starts ends)).
Proof.
  intros Hs. revert ends. induction Hs as [|p starts Hp _ IH]; intros ends He.
  - reflexivity.
  - destruct He as [|q ends Hq He]; [reflexivity|].
    cbn [combine map lines_loop fst snd].
    rewrite lines_segment_ok by assumption. cbn [rbind].
    rewrite (IH ends He). reflexivity.
Qed.

(** [Lines] between two lists of as many points, all of three coordinates:
    the actor holds one segment per pair, in the order of the input, from the
    start point to the start point plus [scale] times the vector to the end
    point - the end point itself when the scale is 1 - and is collected
    once. *)
Theorem Lines_segments
  (starts ends : list coords) (c : pyval) (alpha lw : R)
  (dotted : bool) (scale : R) (w : world) :
  List.length starts = List.length ends ->
  Forall (fun p => List.length p = 3%nat) starts ->
  Forall (fun p => List.length p = 3%nat) ends ->
  exists w' actor,
    Lines (LinesStartEnd starts ends) c alpha lw dotted scale w
    = (Ok (List.length (heap w)), w')
    /\ deref w' (List.length (heap w)) = Some actor
    /\ poly actor = pd_segments (map (scaled_segment scale) (combine starts ends))
    /\ List.length (combine starts ends) = List.length starts
    /\ (scale = 1 ->
        map (scaled_segment scale) (combine starts ends) = combine starts ends)
    /\ name actor = "Lines"
    /\ collectable_actors w'
       = collectable_actors w ++ [Some (List.length (heap w))].
Proof.
  intros Hlen Hs He.
  assert (Hst : np_stack_pairs starts ends
                = Ok (map (fun pq => [fst pq; snd pq]) (combine starts ends))).
  { unfold np_stack_pairs.
    rewrite (rectangular_Forall _ _ Hs), (rectangular_Forall _ _ He), Hlen,
      Nat.eqb_refl.
    assert (Hh : List.length (hd [] starts) = List.length (hd [] ends)).
    { destruct Hs as [|p ? Hp _], He as [|q ? Hq _]; simpl in *;
        try discriminate; congruence. }
    rewrite Hh, Nat.eqb_refl. reflexivity. }
  unfold Lines. rewrite Hst. mstep.
  rewrite (lines_loop_ok scale starts ends Hs He). mstep.
  destruct dotted; repeat mstep; unfold ret; rewrite !list_update_last;
    (eexists; eexists; split; [reflexivity|]; split;
     [unfold deref; cbn [heap]; apply nth_error_last|];
     split; [reflexivity|];
     split; [rewrite length_combine, Hlen; apply Nat.min_id|];
     split; [|split; reflexivity]).
  all: intros ->; clear Hst; revert ends Hlen He;
    induction Hs as [|p starts Hp Hs IH]; intros [|q ends] Hlen He;
    try reflexivity; try discriminate;
    inversion_clear He as [|? ? Hq He'];
    cbn [combine map]; rewrite IH by (simpl in Hlen; congruence || assumption);
    unfold scaled_segment at 1; cbn [fst snd];
    rewrite map2_add_scaled_1 by congruence; reflexivity.
Qed.

Lemma Lines_segments_witness :
  exists w' actor,
    Lines (LinesStartEnd [[0; 0; 0]; [1; 0; 0]] [[0; 1; 0]; [1; 1; 0]])
      (PStr "gray") 1 1 false 2 empty_world
    = (Ok (List.length (heap empty_world)), w')
    /\ deref w' (List.length (heap empty_world)) = Some actor
    /\ poly actor
       = pd_segments
           (map (scaled_segment 2)
              (combine [[0; 0; 0]; [1; 0; 0]] [[0; 1; 0]; [1; 1; 0]]))
    /\ List.length (combine [[0; 0; 0]; [1; 0; 0]] [[0; 1; 0]; [1; 1; 0]])
       = List.length [[0; 0; 0]; [1; 0; 0]]
    /\ (2 = 1 ->
        map (scaled_segment 2)
          (combine [[0; 0; 0]; [1; 0; 0]] [[0; 1; 0]; [1; 1; 0]])
        = combine [[0; 0; 0]; [1; 0; 0]] [[0; 1; 0]; [1; 1; 0]])
    /\ name actor = "Lines"
    /\ collectable_actors w'
       = collectable_actors empty_world
         ++ [Some (List.length (heap empty_world))].
Proof.
  apply (Lines_segments [[0; 0; 0]; [1; 0; 0]] [[0; 1; 0]; [1; 1; 0]]).
  - reflexivity.
  - repeat constructor.
  - repeat constructor.
Defined.

(** ** Grid *)

Lemma flat_map_length_const {A B : Type} (f : A -> list B) (l : list A) (c : nat) :
  (forall a, In a l -> List.length (f a) = c) ->
  List.length (flat_map f l) = (c * List.length l)%nat.
Proof.
  induction l as [|a l IH]; intros H; simpl; [lia|].
  rewrite length_app, (H a (or_introl eq_refl)), IH; [lia|].
  intros b Hb. apply H. now right.
Qed.

Lemma grid_verts_length (sx sy : list R) :
  List.length (grid_verts sx sy) = (List.length sx * List.length sy)%nat.
Proof.
  unfold grid_verts. apply flat_map_length_const.
  intros y _. apply length_map.
Qed.

Lemma grid_verts_nth (sx sy : list R) (i j : nat) :
  (i < List.length sx)%nat -> (j < List.length sy)%nat ->
  nth_error (grid_verts sx sy) (i + j * List.length sx)
  = Some [nth i sx 0; nth j sy 0; 0].
Proof.
  intros Hi. revert j. induction sy as [|y sy IH]; intros j Hj;
    [simpl in Hj; lia|].
  unfold grid_verts. cbn [flat_map]. destruct j as [|j].
  - rewrite Nat.mul_0_l, Nat.add_0_r.
    rewrite nth_error_app1 by (rewrite length_map; exact Hi).
    rewrite nth_error_map, (nth_error_nth' sx 0 Hi). reflexivity.
  - rewrite nth_error_app2 by (rewrite length_map; simpl; lia).
    rewrite length_map.
    replace (i + S j * List.length sx - List.length sx)%nat
      with (i + j * List.length sx)%nat by (simpl; lia).
    cbn [nth]. apply IH. simpl in Hj. lia.
Qed.

Lemma grid_faces_length (n m : nat) :
  List.length (grid_faces n m) = ((n - 1) * (m - 1))%nat.
Proof.
  unfold grid_faces. rewrite (flat_map_length_const _ _ (n - 1)%nat).
  - now rewrite length_seq.
  - intros j _. cbv zeta. now rewrite length_map, length_seq.
Qed.

Lemma grid_faces_in_range (n m : nat) :
  Forall (Forall (fun k => (k < n * m)%nat)) (grid_faces n m).
Proof.
  apply Forall_forall. intros face Hf. unfold grid_faces in Hf.
  apply in_flat_map in Hf. destruct Hf as (j & Hj & Hf).
  cbv zeta in Hf. apply in_map_iff in Hf. destruct Hf as (i & <- & Hi).
  apply in_seq in Hj. apply in_seq in Hi.
  assert (H1 : (i + 1 < n)%nat) by lia.
  assert (H2 : (j + 1 < m)%nat) by lia.
  assert (H3 : ((j + 1) * n + n <= m * n)%nat) by nia.
  repeat constructor; nia.
Qed.

(** The grid built from the coordinates of its vertices: with [sx] of [n]
    entries and [sy] of [m], [Grid] returns a mesh of [n * m] vertices, the
    vertex of rank [i + j * n] at (sx[i], sy[j], 0), and [(n-1) * (m-1)]
    four-sided faces whose corners are all vertices of the mesh; the actor
    is placed at [pos] and collected once. *)
Theorem Grid_from_coordinates
  (pos normal : coords) (lx ly : list R) (sz : coords) (c : pyval)
  (alpha lw resx resy : R) (w : world) :
  exists w' actor verts faces,
    Grid pos normal (SizeSeq lx) (SizeSeq ly) sz c alpha lw resx resy w
    = (Ok (List.length (heap w)), w')
    /\ deref w' (List.length (heap w)) = Some actor
    /\ poly actor = pd_source "Actor.orientation" normal [pd_mesh verts faces]
    /\ List.length verts = (List.length lx * List.length ly)%nat
    /\ (forall i j, (i < List.length lx)%nat -> (j < List.length ly)%nat ->
          nth_error verts (i + j * List.length lx)
          = Some [nth i lx 0; nth j ly 0; 0])
    /\ List.length faces = ((List.length lx - 1) * (List.length ly - 1))%nat
    /\ Forall (fun face => List.length face = 4%nat) faces
    /\ Forall (Forall (fun k => (k < List.length verts)%nat)) faces
    /\ name actor = "Grid"
    /\ position actor = Some pos
    /\ collectable_actors w'
       = collectable_actors w ++ [Some (List.length (heap w))].
Proof.
  unfold Grid. repeat mstep. unfold ret. rewrite !list_update_last.
  eexists. eexists.
  exists (grid_verts lx ly), (grid_faces (List.length lx) (List.length ly)).
  split; [reflexivity|]. split.
  { unfold deref. cbn [heap]. apply nth_error_last. }
  split; [reflexivity|].
  split; [apply grid_verts_length|].
  split; [intros i j; apply grid_verts_nth|].
  split; [apply grid_faces_length|].
  split.
  { apply Forall_forall. intros face Hf. unfold grid_faces in Hf.
    apply in_flat_map in Hf. destruct Hf as (j & _ & Hf).
    cbv zeta in Hf. apply in_map_iff in Hf. destruct Hf as (i & <- & _).
    reflexivity. }
  split; [rewrite grid_verts_length; apply grid_faces_in_range|].
  repeat split.
Qed.

(** One size a number and the other a list is refused: [Grid] raises
    [TypeError] and nothing is built or collected. *)
Lemma Grid_mixed_sizes
  (pos normal : coords) (x : R) (l : list R) (sz : coords) (c : pyval)
  (alpha lw resx resy : R) (w : world) :
  Grid pos normal (SizeNum x) (SizeSeq l) sz c alpha lw resx resy w
  = (Raise TypeError, w)
  /\ Grid pos normal (SizeSeq l) (SizeNum x) sz c alpha lw resx resy w
     = (Raise TypeError, w).
Proof. split; reflexivity. Qed.

(** ** Plane and Rectangle *)

Lemma axis_angles_3d (nx ny nz : R) :
  norm [nx; ny; nz] <> 0 ->
  let L := norm [nx; ny; nz] in
  axis_angles [nx; ny; nz] = Ok (acos (nz / L), arctan2 (ny / L) (nx / L)).
Proof.
  intros HL L. unfold axis_angles, np_div. fold L.
  destruct (Req_dec_T L 0) as [E|_]; [contradiction | reflexivity].
Qed.

(** The rotation that [Plane] and [Grid] compose, applied after a scaling of
    x and y: the plane z = 0 goes to the plane through the origin
    perpendicular to the normal, and the z axis onto the unit normal. *)
Lemma plane_transform (nx ny nz sx sy : R) :
  norm [nx; ny; nz] <> 0 ->
  let L := norm [nx; ny; nz] in
  let ops := post_multiply
               [Scale sx sy 1; RotateY (rad2deg (acos (nz / L)));
                RotateZ (rad2deg (arctan2 (ny / L) (nx / L)))] in
  (forall u v, dot3 (apply_transform ops (u, v, 0)) (nx, ny, nz) = 0)
  /\ apply_transform ops (0, 0, 1) = (nx / L, ny / L, nz / L).
Proof.
  intros HL L ops.
  destruct (unit_from_angles (nx / L) (ny / L) (nz / L)
              (norm3_unit nx ny nz HL)) as (Hx & Hy & Hz).
  fold L in Hx, Hy, Hz.
  set (th := acos (nz / L)) in *. set (ph := arctan2 (ny / L) (nx / L)) in *.
  assert (Ex : nx = L * (sin th * cos ph)) by (rewrite Hx; field; exact HL).
  assert (Ey : ny = L * (sin th * sin ph)) by (rewrite Hy; field; exact HL).
  assert (Ez : nz = L * cos th) by (rewrite Hz; field; exact HL).
  pose proof (sin2_cos2 ph) as Hsc. unfold Rsqr in Hsc.
  subst ops. unfold post_multiply, apply_transform. cbn [rev app fold_right].
  unfold apply_op. rewrite !deg2rad_rad2deg. fold th ph.
  split.
  - intros u v. unfold dot3.
    rewrite Ex, Ey, Ez. clear Ex Ey Ez Hx Hy Hz.
    replace ((sx * u * cos th + 1 * 0 * sin th) * cos ph - sy * v * sin ph)
      with (sx * u * cos th * cos ph - sy * v * sin ph) by ring.
    replace ((sx * u * cos th + 1 * 0 * sin th) * sin ph + sy * v * cos ph)
      with (sx * u * cos th * sin ph + sy * v * cos ph) by ring.
    replace (- (sx * u) * sin th + 1 * 0 * cos th)
      with (- (sx * u) * sin th) by ring.
    replace ((sx * u * cos th * cos ph - sy * v * sin ph)
             * (L * (sin th * cos ph))
             + (sx * u * cos th * sin ph + sy * v * cos ph)
               * (L * (sin th * sin ph))
             + - (sx * u) * sin th * (L * cos th))
      with (L * sx * u * cos th * sin th
            * (sin ph * sin ph + cos ph * cos ph - 1)) by ring.
    rewrite Hsc. ring.
  - rewrite <- Hx, <- Hy, <- Hz. f_equal; [f_equal|]; ring.
Qed.

(** [Plane] is perpendicular to its normal: for a normal of three
    coordinates other than the null vector, the transform of the actor
    carries every point (u, v, 0) of the source plane to a point whose
    position vector is orthogonal to the normal, and the z axis onto the unit
    normal; the actor is placed at [pos] and collected once. *)
Theorem Plane_perpendicular_to_normal
  (pos : coords) (nx ny nz sx : R) (sy : option R) (c : pyval) (alpha : R)
  (w : world) :
  norm [nx; ny; nz] <> 0 ->
  exists w' actor ops src,
    Plane pos [nx; ny; nz] sx sy c alpha w = (Ok (List.length (heap w)), w')
    /\ deref w' (List.length (heap w)) = Some actor
    /\ poly actor = pd_transform ops src
    /\ (forall u v, dot3 (apply_transform ops (u, v, 0)) (nx, ny, nz) = 0)
    /\ apply_transform ops (0, 0, 1)
       = (nx / norm [nx; ny; nz], ny / norm [nx; ny; nz],
          nz / norm [nx; ny; nz])
    /\ position actor = Some pos
    /\ name actor = "Plane"
    /\ collectable_actors w'
       = collectable_actors w ++ [Some (List.length (heap w))].
Proof.
  intros HL. unfold Plane.
  pose proof (axis_angles_3d nx ny nz HL) as Ha. cbv zeta in Ha. rewrite Ha.
  repeat mstep. unfold ret. rewrite !list_update_last.
  destruct (plane_transform nx ny nz sx
              (match sy with None => sx | Some y => y end) HL) as (Hd & Hz).
  eexists. eexists. eexists. eexists.
  split; [reflexivity|]. split.
  { unfold deref. cbn [heap]. apply nth_error_last. }
  split; [reflexivity|]. split; [exact Hd|]. split; [exact Hz|].
  repeat split.
Qed.

Lemma norm_z : norm [0; 0; 1] = 1.
Proof.
  unfold norm. cbn [fold_right].
  replace (0 * 0 + (0 * 0 + (1 * 1 + 0))) with 1 by ring. apply sqrt_1.
Qed.

Lemma Plane_perpendicular_to_normal_witness :
  exists w' actor ops src,
    Plane [0; 0; 0] [0; 0; 1] 1 None (PStr "g") 1 empty_world
    = (Ok (List.length (heap empty_world)), w')
    /\ deref w' (List.length (heap empty_world)) = Some actor
    /\ poly actor = pd_transform ops src
    /\ (forall u v, dot3 (apply_transform ops (u, v, 0)) (0, 0, 1) = 0)
    /\ apply_transform ops (0, 0, 1)
       = (0 / norm [0; 0; 1], 0 / norm [0; 0; 1], 1 / norm [0; 0; 1])
    /\ position actor = Some [0; 0; 0]
    /\ name actor = "Plane"
    /\ collectable_actors w'
       = collectable_actors empty_world
         ++ [Some (List.length (heap empty_world))].
Proof.
  apply Plane_perpendicular_to_normal. rewrite norm_z. lra.
Defined.

Lemma axis_angles_z : axis_angles [0; 0; 1] = Ok (0, 0).
Proof.
  unfold axis_angles, np_div. rewrite norm_z.
  destruct (Req_dec_T 1 0) as [E|_]; [lra|].
  cbn [map item nth_error rbind].
  replace (1 / 1) with 1 by field. replace (0 / 1) with 0 by field.
  rewrite acos_1. unfold arctan2.
  destruct (Rlt_dec 0 0) as [H|_]; [lra|]. reflexivity.
Qed.

(** [Rectangle] between two corner points of three coordinates: the source
    plane is scaled by |x2 - x1| and |y2 - y1| and not rotated, and the
    actor, named "Rectangle", is placed at the midpoint of the two corners;
    the registry gets this one actor. *)
Theorem Rectangle_between_corners
  (x1 y1 z1 x2 y2 z2 lw : R) (c : pyval) (alpha : R) (w : world) :
  exists w' actor ops src,
    Rectangle [x1; y1; z1] [x2; y2; z2] lw c alpha w
    = (Ok (List.length (heap w)), w')
    /\ deref w' (List.length (heap w)) = Some actor
    /\ poly actor = pd_transform ops src
    /\ (forall u v,
          apply_transform ops (u, v, 0)
          = (Rabs (x2 - x1) * u, Rabs (y2 - y1) * v, 0))
    /\ position actor
       = Some [(x1 + x2) / 2; (y1 + y2) / 2; (z1 + z2) / 2]
    /\ name actor = "Rectangle"
    /\ collectable_actors w'
       = collectable_actors w ++ [Some (List.length (heap w))].
Proof.
  unfold Rectangle.
  change (np_add [x1; y1; z1] [x2; y2; z2])
    with (Ok [x1 + x2; y1 + y2; z1 + z2]).
  repeat mstep. cbn [item nth_error map]. repeat mstep.
  unfold Plane. rewrite axis_angles_z. repeat mstep.
  unfold ret. rewrite !list_update_last.
  eexists. eexists. eexists. eexists.
  split; [reflexivity|]. split.
  { unfold deref. cbn [heap]. apply nth_error_last. }
  split; [reflexivity|]. split.
  { intros u v. unfold post_multiply, apply_transform.
    cbn [rev app fold_right]. unfold apply_op, rad2deg, deg2rad.
    replace (0 * (180 / PI) * (PI / 180)) with 0 by ring.
    rewrite cos_0, sin_0. f_equal; [f_equal|]; ring. }
  repeat split.
Qed.

(** ** Hyperboloid *)

(** [Hyperboloid] divides by the aperture [a2]: with [a2 = 0] it raises
    [ZeroDivisionError] and nothing is built or collected; otherwise it
    contours the quadric 2x^2 + 2y^2 - z^2/a2 at [value] and the actor is
    collected once.  The parameter [height] has no effect on the result. *)
Theorem Hyperboloid_aperture
  (pos : coords) (a2 value height : R) (c : pyval) (alpha res : R) (w : world) :
  let out := Hyperboloid pos a2 value height c alpha res w in
  (if Req_dec_T a2 0
   then out = (Raise ZeroDivisionError, w)
   else exists actor,
       fst out = Ok (List.length (heap w))
       /\ deref (snd out) (List.length (heap w)) = Some actor
       /\ poly actor
          = pd_source "vtkContourFilter" [1; value; value]
              [pd_source "vtkSampleFunction" [res; res; res]
                 [pd_source "vtkQuadric" [2; 2; -1 / a2; 0; 0; 0; 0; 0; 0; 0]
                    []]]
       /\ name actor = "Hyperboloid"
       /\ collectable_actors (snd out)
          = collectable_actors w ++ [Some (List.length (heap w))])
  /\ (forall h, Hyperboloid pos a2 value h c alpha res w = out).
Proof.
  intros out. subst out. split; [|reflexivity].
  unfold Hyperboloid, checked_div.
  destruct (Req_dec_T a2 0) as [E|E]; [reflexivity|].
  repeat mstep. unfold ret. cbn [fst snd]. rewrite !list_update_last.
  eexists. split; [reflexivity|]. split.
  { unfold deref. cbn [heap]. apply nth_error_last. }
  repeat split.
Qed.
(** ** KSpline: the registry *)

Lemma KSpline_collects_twice_witness :
  exists a w',
    KSpline [[0; 0; 0]; [1; 0; 0]; [1; 1; 0]] 0 0 0 false 0 empty_world
    = (Ok a, w')
    /\ collectable_actors w' = collectable_actors empty_world ++ [Some a; Some a].
Proof.
  apply KSpline_collects_twice. repeat constructor.
Defined.
